(** * edm_iso_tester: analysis, normalisation and comparison of wire-EDM
      ISO / G-code programs

    A shallow embedding of [edm_iso_tester.py] and the properties of its
    four components: the encoding / line inspector, the line analyzer, the
    normalizer and the comparator.

    Conventions of the embedding.
    - A Python [bytes] object is a [list byte].
    - A Python [str] is the list of its code points, [list N].
    - A Python [int] that can be negative or is printed (byte counts of
      line endings, block numbers) is a [Z]; lengths and positions are [nat].
    - The character classes of [re] and of [str.strip] ([\s], [\d], [\w])
      are the Unicode ones of Python 3.  [is_space] is the complete table.
      [is_digit] and [is_word] are exact on the code points this program can
      decode: U+0000 to U+00FF (latin-1 in [normalize_to_iso] and
      [compare_files]) and U+FFFD (the replacement character of
      [safe_decode]).
    - Every regular expression of the source is written out as the scanner
      it denotes; the expression is quoted above each scanner, and the
      scanner is proved to compute what a backtracking matcher computes for
      that expression (module [Regex], lemmas [*_regex]).
    - [int(s)] and [str(n)] are the mathematical conversions, without the
      limit that an interpreter can put on the number of digits. *)

From Stdlib Require Import ZArith NArith List Bool String Ascii Lia.
From Stdlib.Strings Require Import Byte.
From Stdlib Require DecimalString DecimalN DecimalPos DecimalFacts.
Import ListNotations.

Open Scope N_scope.

(* ================================================================== *)
(** * Definitions *)
(* ================================================================== *)

(** ** Text *)

Definition char := N.
Definition str := list char.

(** The code point of an ASCII / latin-1 character literal. *)
Definition chr (a : ascii) : char := N_of_ascii a.

(** The [str] of a literal. *)
Definition lit (s : string) : str := map chr (list_ascii_of_string s).

(** The [bytes] of a literal. *)
Definition blit (s : string) : list byte := list_byte_of_string s.

Definition str_eqb (a b : str) : bool :=
  if list_eq_dec N.eq_dec a b then true else false.

Definition in_range (lo hi c : N) : bool := (lo <=? c) && (c <=? hi).

(** [str.isspace] on one character, which is also [\s] of [re] on [str]
    patterns. *)
Definition is_space (c : char) : bool :=
  in_range 0x09 0x0D c || in_range 0x1C 0x20 c || (c =? 0x85) || (c =? 0xA0)
  || (c =? 0x1680) || in_range 0x2000 0x200A c || in_range 0x2028 0x2029 c
  || (c =? 0x202F) || (c =? 0x205F) || (c =? 0x3000).

(** [\d]: the decimal digits. *)
Definition is_digit (c : char) : bool := in_range 0x30 0x39 c.

(** [\w]: alphanumeric characters and the underscore. *)
Definition is_word (c : char) : bool :=
  in_range 0x30 0x39 c || in_range 0x41 0x5A c || (c =? 0x5F)
  || in_range 0x61 0x7A c || (c =? 0xAA) || in_range 0xB2 0xB3 c
  || (c =? 0xB5) || in_range 0xB9 0xBA c || in_range 0xBC 0xBE c
  || in_range 0xC0 0xD6 c || in_range 0xD8 0xF6 c || in_range 0xF8 0xFF c.

(** The characters at which [str.splitlines] ends a line. *)
Definition is_linebreak (c : char) : bool :=
  in_range 0x0A 0x0D c || in_range 0x1C 0x1E c || (c =? 0x85)
  || in_range 0x2028 0x2029 c.

Fixpoint drop_while (p : char -> bool) (s : str) : str :=
  match s with
  | [] => []
  | c :: t => if p c then drop_while p t else s
  end.

Fixpoint take_while (p : char -> bool) (s : str) : str :=
  match s with
  | [] => []
  | c :: t => if p c then c :: take_while p t else []
  end.

(** [s.lstrip()], [s.rstrip()], [s.strip()] *)
Definition lstrip (s : str) : str := drop_while is_space s.
Definition rstrip (s : str) : str := rev (drop_while is_space (rev s)).
Definition strip (s : str) : str := rstrip (lstrip s).

(** [c in s] *)
Definition contains (c : char) (s : str) : bool := existsb (N.eqb c) s.

(** [s.split(c, 1)[0]]: the part of [s] before the first [c]. *)
Definition split_head (c : char) (s : str) : str :=
  take_while (fun x => negb (x =? c)) s.

(** [sep.join(lines)] *)
Fixpoint join (sep : str) (lines : list str) : str :=
  match lines with
  | [] => []
  | [l] => l
  | l :: rest => l ++ sep ++ join sep rest
  end.

(** [s.splitlines()]: [cur] is the line being read, last character first,
    and [open] tells whether a line is being read.  CR LF is one break;
    a last line without terminator is kept; nothing follows a final
    terminator. *)
Fixpoint splitlines_from (cur : str) (open : bool) (s : str) : list str :=
  match s with
  | [] => if open then [rev cur] else []
  | c :: t =>
      if c =? 0x0D then
        match t with
        | c' :: t' =>
            if c' =? 0x0A then rev cur :: splitlines_from [] false t'
            else rev cur :: splitlines_from [] false t
        | [] => rev cur :: splitlines_from [] false t
        end
      else if is_linebreak c then rev cur :: splitlines_from [] false t
      else splitlines_from (c :: cur) true t
  end.

Definition splitlines (s : str) : list str := splitlines_from [] false s.

(** [str(n)] for an [int] *)
Definition str_of_int (n : Z) : str :=
  lit (DecimalString.NilZero.string_of_int (Z.to_int n)).

(** [int(s)] for a run of decimal digits [s] *)
Definition int_of_digits (s : str) : Z :=
  fold_left (fun acc c => (10 * acc + Z.of_N (c - 0x30))%Z) s 0%Z.

(** ** Encoding / line inspector *)

Fixpoint is_prefix (p l : list byte) : bool :=
  match p, l with
  | [], _ => true
  | _ :: _, [] => false
  | a :: p', b :: l' => Byte.eqb a b && is_prefix p' l'
  end.

(** [data.count(sub)] for a non-empty [sub]: occurrences that do not
    overlap, from the left.  [skip] is the number of bytes still covered by
    the occurrence found last. *)
Fixpoint count_from (skip : nat) (sub data : list byte) : nat :=
  match data with
  | [] => 0
  | _ :: t =>
      match skip with
      | S k => count_from k sub t
      | O =>
          if is_prefix sub data
          then S (count_from (Nat.pred (List.length sub)) sub t)
          else count_from 0 sub t
      end
  end.

Definition bytes_count (sub data : list byte) : Z :=
  Z.of_nat (count_from 0 sub data).

Definition CRLF_bytes : list byte := [x0d; x0a].
Definition LF_bytes : list byte := [x0a].
Definition CR_bytes : list byte := [x0d].

Definition detect_eol_stats (data : list byte) : Z * Z * Z :=
  let crlf := bytes_count CRLF_bytes data in
  let lf_total := bytes_count LF_bytes data in
  let lf := (lf_total - crlf)%Z in
  let cr := (bytes_count CR_bytes data - crlf)%Z in
  (crlf, lf, cr).

(** Truth value of an [int] *)
Definition truthy (n : Z) : bool := negb (n =? 0)%Z.

Definition detect_line_endings_label (data : list byte) : string :=
  let '(crlf, lf, cr) := detect_eol_stats data in
  if truthy crlf && negb (truthy lf) && negb (truthy cr) then "CRLF"
  else if truthy lf && negb (truthy crlf) && negb (truthy cr) then "LF"
  else if truthy cr && negb (truthy crlf) && negb (truthy lf) then "CR"
  else if truthy crlf || truthy lf || truthy cr then "MIXED"
  else "NONE".

(** U+FFFD, which [errors="replace"] puts for a byte that does not decode *)
Definition REPLACEMENT : char := 0xFFFD.

(** [data.decode("ascii")]; [None] is [UnicodeDecodeError]. *)
Fixpoint decode_ascii (data : list byte) : option str :=
  match data with
  | [] => Some []
  | b :: t =>
      if Byte.to_N b <=? 127 then
        match decode_ascii t with
        | Some s => Some (Byte.to_N b :: s)
        | None => None
        end
      else None
  end.

(** [data.decode("ascii", errors="replace")] *)
Definition decode_ascii_replace (data : list byte) : str :=
  map (fun b => if Byte.to_N b <=? 127 then Byte.to_N b else REPLACEMENT) data.

Definition safe_decode (data : list byte) : str :=
  match decode_ascii data with
  | Some s => s
  | None => decode_ascii_replace data
  end.

(** [data.decode("latin-1")]: every byte is its own code point. *)
Definition decode_latin1 (data : list byte) : str := map Byte.to_N data.

(** [s.encode("latin-1", errors="ignore")]: a code point above 255 is
    left out. *)
Fixpoint encode_latin1 (s : str) : list byte :=
  match s with
  | [] => []
  | c :: t =>
      match Byte.of_N c with
      | Some b => b :: encode_latin1 t
      | None => encode_latin1 t
      end
  end.

(** The newline translation of a file opened in text mode: CR LF and a
    lone CR are read as LF. *)
Fixpoint universal_newlines (s : str) : str :=
  match s with
  | [] => []
  | c :: t =>
      if c =? 0x0D then
        match t with
        | c' :: t' =>
            if c' =? 0x0A then 0x0A :: universal_newlines t'
            else 0x0A :: universal_newlines t
        | [] => [0x0A]
        end
      else c :: universal_newlines t
  end.

(** [path.read_text(encoding="latin-1", errors="ignore")] on a file whose
    content is [data] *)
Definition read_text_latin1 (data : list byte) : str :=
  universal_newlines (decode_latin1 data).

(** [[i for i, b in enumerate(data) if b > 127]], from index [i] *)
Fixpoint non_ascii_positions_from (i : nat) (data : list byte) : list nat :=
  match data with
  | [] => []
  | b :: t =>
      if 127 <? Byte.to_N b then i :: non_ascii_positions_from (S i) t
      else non_ascii_positions_from (S i) t
  end.

Definition non_ascii_positions (data : list byte) : list nat :=
  non_ascii_positions_from 0 data.

(** ** Scanners for the regular expressions of the source *)

Definition opt_word (o : option char) : bool :=
  match o with
  | Some c => is_word c
  | None => false
  end.

(** [\b] between the character before ([prev]) and the character after
    ([next]) a position; [None] is an end of the string. *)
Definition word_boundary (prev next : option char) : bool :=
  xorb (opt_word prev) (opt_word next).

(** [s] without the prefix [p], when it has it *)
Fixpoint strip_prefix (p s : str) : option str :=
  match p, s with
  | [], _ => Some s
  | _ :: _, [] => None
  | a :: p', b :: s' => if a =? b then strip_prefix p' s' else None
  end.

(** The character before the position that follows [w], when [prev] is
    the character before [w] *)
Definition last_char (prev : option char) (w : str) : option char :=
  match w with
  | [] => prev
  | _ :: _ => Some (last w 0)
  end.

(** [\b w \b] for a literal [w], tried where [s] starts; [prev] is the
    character before. *)
Definition match_word_at (w : str) (prev : option char) (s : str) : bool :=
  word_boundary prev (hd_error s) &&
  match strip_prefix w s with
  | Some rest => word_boundary (last_char prev w) (hd_error rest)
  | None => false
  end.

(** [re.search(rf'\b{w}\b', s)] is not [None] *)
Fixpoint search_word_from (w : str) (prev : option char) (s : str) : bool :=
  match_word_at w prev s ||
  match s with
  | [] => false
  | c :: t => search_word_from w (Some c) t
  end.

Definition search_word (w s : str) : bool := search_word_from w None s.

(** [re.search(r'\bM0?2\b', s)] is not [None].  At each position the
    optional [0] is tried first, then left out. *)
Fixpoint search_M02_from (prev : option char) (s : str) : bool :=
  match_word_at (lit "M02") prev s || match_word_at (lit "M2") prev s ||
  match s with
  | [] => false
  | c :: t => search_M02_from (Some c) t
  end.

Definition search_M02 (s : str) : bool := search_M02_from None s.

(** [re.match(r'\s*N(\d+)', s)]: group 1, the digits after [N], or [None].
    Both repetitions are greedy, and giving characters back never helps: [N]
    is not white space and a digit run is followed by no digit. *)
Definition match_block_number (s : str) : option str :=
  match drop_while is_space s with
  | c :: t =>
      if c =? chr "N" then
        match take_while is_digit t with
        | [] => None
        | ds => Some ds
        end
      else None
  | [] => None
  end.

(** [re.match(r'\s*N\d+', s)] is not [None] *)
Definition has_block_number (s : str) : bool :=
  match match_block_number s with
  | Some _ => true
  | None => false
  end.

(** [re.sub(r'\s+', ' ', s)]: every maximal run of white space becomes one
    space.  [in_run] tells that the character before was white space. *)
Fixpoint collapse_ws_from (in_run : bool) (s : str) : str :=
  match s with
  | [] => []
  | c :: t =>
      if is_space c then
        if in_run then collapse_ws_from true t
        else chr " " :: collapse_ws_from true t
      else c :: collapse_ws_from false t
  end.

Definition collapse_ws (s : str) : str := collapse_ws_from false s.

Definition is_axis (c : char) : bool :=
  (c =? chr "X") || (c =? chr "Y") || (c =? chr "Z")
  || (c =? chr "I") || (c =? chr "J") || (c =? chr "F").

Definition is_sign (c : char) : bool := (c =? chr "-") || (c =? chr "+").

(** [[XYZIJF][\-\+]?\d+\.(\d+)] tried where [s] starts: group 1 and the
    number of characters of the match. *)
Definition match_decimal (s : str) : option (str * nat) :=
  match s with
  | c :: t =>
      if is_axis c then
        let '(sgn, t1) :=
          match t with
          | c1 :: t1' => if is_sign c1 then (1%nat, t1') else (0%nat, t)
          | [] => (0%nat, t)
          end in
        match take_while is_digit t1, drop_while is_digit t1 with
        | (_ :: _) as ip, d :: t2 =>
            if d =? chr "." then
              match take_while is_digit t2 with
              | [] => None
              | fp =>
                  Some (fp, (1 + sgn + List.length ip + 1 + List.length fp)%nat)
              end
            else None
        | _, _ => None
        end
      else None
  | [] => None
  end.

(** [re.findall(r'[XYZIJF][\-\+]?\d+\.(\d+)', s)]: the matches from the
    left, without overlap.  [skip] counts the characters still inside the
    match found last. *)
Fixpoint findall_decimals_from (skip : nat) (s : str) : list str :=
  match s with
  | [] => []
  | _ :: t =>
      match skip with
      | S k => findall_decimals_from k t
      | O =>
          match match_decimal s with
          | Some (fp, len) => fp :: findall_decimals_from (Nat.pred len) t
          | None => findall_decimals_from 0 t
          end
      end
  end.

Definition findall_decimals (s : str) : list str := findall_decimals_from 0 s.

(** [re.search(r'%.*\S', s)] is not [None]: a [%] and, later and before
    any line feed, a character that is not white space. *)
Fixpoint search_percent_content (s : str) : bool :=
  match s with
  | [] => false
  | c :: t =>
      ((c =? chr "%")
       && existsb (fun x => negb (is_space x))
                  (take_while (fun x => negb (x =? 0x0A)) t))
      || search_percent_content t
  end.

(** ** Regular expressions

    The scanners above are what the expressions of the source compute.
    To say so, here is a backtracking matcher for the fragment of [re] that
    the source uses: character classes, [\b], concatenation, a greedy [?],
    a greedy [*] or [+] on a class, and one capturing group.  The matcher
    tries the alternatives of [?], [*] and [+] longest first and takes the
    first that lets the rest of the expression match, as [re] does. *)

Module Regex.

Inductive re : Type :=
| Class (p : char -> bool)
| Boundary
| Seq (a b : re)
| Opt (a : re)
| Star (p : char -> bool)
| Group (a : re).

(** [p+] *)
Definition Plus (p : char -> bool) : re := Seq (Class p) (Star p).

(** The expression of a literal character and of a literal word *)
Definition Lit (c : char) : re := Class (fun x => x =? c).

Fixpoint Word (w : str) (then_ : re) : re :=
  match w with
  | [] => then_
  | c :: w' => Seq (Lit c) (Word w' then_)
  end.

(** A position of a match: the character before it, the text after it,
    and group 1 when it is closed. *)
Record position := {
  prev : option char;
  rest : str;
  group1 : option str
}.

(** [p*] before the continuation [k]: as many characters as possible, and
    one less whenever [k] fails. *)
Fixpoint star (p : char -> bool) (k : position -> option position)
    (pv : option char) (g : option str) (s : str) : option position :=
  match s with
  | c :: t =>
      if p c then
        match star p k (Some c) g t with
        | Some m => Some m
        | None => k {| prev := pv; rest := s; group1 := g |}
        end
      else k {| prev := pv; rest := s; group1 := g |}
  | [] => k {| prev := pv; rest := s; group1 := g |}
  end.

(** The match of [r] at [st], followed by the continuation [k] *)
Fixpoint exec (r : re) (st : position) (k : position -> option position)
    : option position :=
  match r with
  | Class p =>
      match rest st with
      | c :: t =>
          if p c then k {| prev := Some c; rest := t; group1 := group1 st |}
          else None
      | [] => None
      end
  | Boundary =>
      if word_boundary (prev st) (hd_error (rest st)) then k st else None
  | Seq a b => exec a st (fun st' => exec b st' k)
  | Opt a =>
      match exec a st k with
      | Some m => Some m
      | None => k st
      end
  | Star p => star p k (prev st) (group1 st) (rest st)
  | Group a =>
      exec a st (fun st' =>
        k {| prev := prev st'; rest := rest st';
             group1 := Some (firstn (List.length (rest st)
                                     - List.length (rest st')) (rest st)) |})
  end.

(** The match of [r] where [s] starts, [pv] being the character before:
    the position where the match ends. *)
Definition match_at (r : re) (pv : option char) (s : str) : option position :=
  exec r {| prev := pv; rest := s; group1 := None |} Some.

(** [re.match(r, s)] *)
Definition rmatch (r : re) (s : str) : option position := match_at r None s.

(** [re.search(r, s)]: the match at the first position that has one *)
Fixpoint search_from (r : re) (pv : option char) (s : str) : option position :=
  match match_at r pv s with
  | Some m => Some m
  | None =>
      match s with
      | [] => None
      | c :: t => search_from r (Some c) t
      end
  end.

Definition search (r : re) (s : str) : option position := search_from r None s.

(** The number of characters of a match that starts at [s] and ends at [m] *)
Definition matched (s : str) (m : position) : nat :=
  List.length s - List.length (rest m).

(** [re.sub(r, repl, s)] for an expression that matches no empty string:
    the matches from the left, without overlap, each replaced by [repl].
    [skip] counts the characters still inside the match found last. *)
Fixpoint sub_from (r : re) (repl : str) (skip : nat) (pv : option char)
    (s : str) : str :=
  match s with
  | [] => []
  | c :: t =>
      match skip with
      | S k => sub_from r repl k (Some c) t
      | O =>
          match match_at r pv s with
          | Some m =>
              repl ++ sub_from r repl (Nat.pred (matched s m)) (Some c) t
          | None => c :: sub_from r repl 0 (Some c) t
          end
      end
  end.

Definition sub (r : re) (repl s : str) : str := sub_from r repl 0 None s.

(** [re.findall(r, s)] for an expression with one group that matches no
    empty string: group 1 of the matches from the left, without overlap *)
Fixpoint findall_from (r : re) (skip : nat) (pv : option char) (s : str)
    : list str :=
  match s with
  | [] => []
  | c :: t =>
      match skip with
      | S k => findall_from r k (Some c) t
      | O =>
          match match_at r pv s with
          | Some m =>
              match group1 m with
              | Some g =>
                  g :: findall_from r (Nat.pred (matched s m)) (Some c) t
              | None => findall_from r (Nat.pred (matched s m)) (Some c) t
              end
          | None => findall_from r 0 (Some c) t
          end
      end
  end.

Definition findall (r : re) (s : str) : list str := findall_from r 0 None s.

End Regex.

Definition is_some {A} (o : option A) : bool :=
  match o with
  | Some _ => true
  | None => false
  end.

(** The expressions of the source *)

(** [\bM0?2\b] *)
Definition RE_M02 : Regex.re :=
  Regex.Seq Regex.Boundary
    (Regex.Seq (Regex.Lit (chr "M"))
       (Regex.Seq (Regex.Opt (Regex.Lit (chr "0")))
          (Regex.Seq (Regex.Lit (chr "2")) Regex.Boundary))).

(** [\b{code}\b] *)
Definition RE_code (code : string) : Regex.re :=
  Regex.Seq Regex.Boundary (Regex.Word (lit code) Regex.Boundary).

(** [\s*N(\d+)] *)
Definition RE_block_number : Regex.re :=
  Regex.Seq (Regex.Star is_space)
    (Regex.Seq (Regex.Lit (chr "N")) (Regex.Group (Regex.Plus is_digit))).

(** [\s*N\d+] *)
Definition RE_numbered : Regex.re :=
  Regex.Seq (Regex.Star is_space)
    (Regex.Seq (Regex.Lit (chr "N")) (Regex.Plus is_digit)).

(** [\s+] *)
Definition RE_spaces : Regex.re := Regex.Plus is_space.

(** [[XYZIJF][\-\+]?\d+\.(\d+)] *)
Definition RE_decimal : Regex.re :=
  Regex.Seq (Regex.Class is_axis)
    (Regex.Seq (Regex.Opt (Regex.Class is_sign))
       (Regex.Seq (Regex.Plus is_digit)
          (Regex.Seq (Regex.Lit (chr "."))
             (Regex.Group (Regex.Plus is_digit))))).

(** [%.*\S]: the dot is any character but the line feed. *)
Definition RE_percent_content : Regex.re :=
  Regex.Seq (Regex.Lit (chr "%"))
    (Regex.Seq (Regex.Star (fun x => negb (x =? 0x0A)))
       (Regex.Class (fun x => negb (is_space x)))).

(** ** Line analyzer *)

Record text_report := {
  total_lines : nat;
  starts_with_percent : bool;
  ends_with_M02 : bool;
  has_block_numbers : bool;
  block_numbers_monotonic : bool;
  max_line_length : nat;
  has_semicolon_comments : bool;
  stray_percent_positions : list nat;
  stop_codes : list (string * list nat);
  precision_max_places : nat;
  precision_over_4_count : nat;
  suspect_lines : list (nat * string)
}.

Definition is_empty {A} (l : list A) : bool :=
  match l with
  | [] => true
  | _ :: _ => false
  end.

(** [enumerate(l, start=i)] *)
Fixpoint enumerate {A} (i : nat) (l : list A) : list (nat * A) :=
  match l with
  | [] => []
  | x :: t => (i, x) :: enumerate (S i) t
  end.

(** [[f(i) for i, ln in enumerate(lines, start) if p(ln)]] *)
Definition positions (f : nat -> nat) (p : str -> bool) (start : nat)
    (lines : list str) : list nat :=
  map (fun x => f (fst x))
      (filter (fun x => p (snd x)) (enumerate start lines)).

(** [lines[1:-1]] *)
Definition inner {A} (lines : list A) : list A := removelast (tl lines).

Definition STOP_CODES : list string :=
  ["M0"; "M00"; "M1"; "M01"; "M2"; "M02"; "M30"]%string.

(** The loop over the stop-like codes: a code goes into the dictionary,
    in the order of the loop, when it occurs on a line. *)
Fixpoint stop_code_table (codes : list string) (lines : list str)
    : list (string * list nat) :=
  match codes with
  | [] => []
  | code :: rest =>
      let pos := positions S (search_word (lit code)) 0 lines in
      if is_empty pos then stop_code_table rest lines
      else (code, pos) :: stop_code_table rest lines
  end.

Definition list_max (l : list nat) : nat := fold_right Nat.max 0%nat l.

(** The loop of the monotonicity check; [false] is the [break]. *)
Fixpoint monotonic_scan (last_n : Z) (lines : list str) : bool :=
  match lines with
  | [] => true
  | ln :: rest =>
      match match_block_number ln with
      | Some ds =>
          let n := int_of_digits ds in
          if (n <=? last_n)%Z then false else monotonic_scan n rest
      | None => monotonic_scan last_n rest
      end
  end.

(** The suspicion records of line [i], in the order of the checks *)
Definition suspect_checks (len : nat) (i : nat) (ln : str)
    : list (nat * string) :=
  (if (120 <? List.length ln)%nat then [(i, "line too long"%string)] else [])
  ++ (if contains 0x09 ln then [(i, "tab character"%string)] else [])
  ++ (if search_percent_content ln && negb (str_eqb (strip ln) (lit "%"))
      then [(i, "content after %"%string)] else [])
  ++ (if search_M02 ln && negb (i =? len)%nat
      then [(i, "M02 not at end"%string)] else []).

Definition analyze_text_lines (lines : list str) : text_report :=
  let decs := findall_decimals (join [0x0A] lines) in
  {| total_lines := List.length lines;
     starts_with_percent :=
       match lines with
       | first :: _ => str_eqb (strip first) (lit "%")
       | [] => false
       end;
     ends_with_M02 := negb (is_empty lines) && search_M02 (last lines []);
     has_block_numbers := existsb has_block_number lines;
     block_numbers_monotonic := monotonic_scan (-1) lines;
     max_line_length := list_max (map (@List.length char) lines);
     has_semicolon_comments := existsb (contains (chr ";")) lines;
     stray_percent_positions :=
       positions S (fun ln => str_eqb (strip ln) (lit "%")) 2 (inner lines);
     stop_codes := stop_code_table STOP_CODES lines;
     precision_max_places :=
       if is_empty decs then 0%nat else list_max (map (@List.length char) decs);
     precision_over_4_count :=
       if is_empty decs then 0%nat
       else List.length (filter (fun d => (4 <? List.length d)%nat) decs);
     suspect_lines :=
       flat_map (fun x => suspect_checks (List.length lines) (fst x) (snd x))
                (enumerate 1 lines) |}.

Record eol_report := {
  label : string;
  eol_crlf : Z;
  eol_lf : Z;
  eol_cr : Z
}.

Record file_report := {
  bytes : nat;
  eol : eol_report;
  non_ascii_count : nat;
  non_ascii_sample : list nat;
  text : text_report
}.

(** [analyze_file] on a file whose content is [data] (the name of the file,
    which the report repeats, is left out). *)
Definition analyze_file (data : list byte) : file_report :=
  let '(crlf, lf, cr) := detect_eol_stats data in
  let eol_label : string :=
    (if truthy crlf && negb (truthy lf) && negb (truthy cr) then "CRLF"
     else if truthy lf && negb (truthy crlf) && negb (truthy cr) then "LF"
     else if truthy cr && negb (truthy crlf) && negb (truthy lf) then "CR"
     else if negb (truthy crlf || truthy lf || truthy cr) then "NONE"
     else "MIXED")%string in
  let non_ascii := non_ascii_positions data in
  let lines := splitlines (safe_decode data) in
  {| bytes := List.length data;
     eol := {| label := eol_label; eol_crlf := crlf; eol_lf := lf;
               eol_cr := cr |};
     non_ascii_count := List.length non_ascii;
     non_ascii_sample := firstn 10 non_ascii;
     text := analyze_text_lines lines |}.

(** ** Normalizer *)

Record NormalizationConfig := {
  start_n : Z;
  step : Z;
  add_percent : bool;
  ensure_M02 : bool;
  crlf : bool;
  strip_semicolon : bool
}.

(** The defaults of [normalize_to_iso] *)
Definition default_config : NormalizationConfig :=
  {| start_n := 10; step := 10; add_percent := true; ensure_M02 := true;
     crlf := true; strip_semicolon := true |}.

(** The defaults without the trailing stop code ([--no-m02]) *)
Definition no_stop_config : NormalizationConfig :=
  {| start_n := 10; step := 10; add_percent := true; ensure_M02 := false;
     crlf := true; strip_semicolon := true |}.

(** [f"N{n} {s}"] *)
Definition numbered (n : Z) (s : str) : str :=
  lit "N" ++ str_of_int n ++ lit " " ++ s.

(** The header: the lines emitted so far and the source lines left. *)
Definition header (cfg : NormalizationConfig) (src_lines : list str)
    : list str * list str :=
  if add_percent cfg then
    match src_lines with
    | first :: rest =>
        if negb (str_eqb (strip first) (lit "%"))
        then ([lit "%"], src_lines)
        else ([lit "%"], rest)
    | [] => ([lit "%"], src_lines)
    end
  else ([], src_lines).

(** The state of the numbering loop: [out_lines] and the counter [n]. *)
Definition loop_state : Type := list str * Z.

(** The end of the loop body: a line with a block number is kept, any
    other line gets the counter, which then advances. *)
Definition emit (cfg : NormalizationConfig) (st : loop_state) (s : str)
    : loop_state :=
  let '(out_lines, n) := st in
  if has_block_number s then (out_lines ++ [s], n)
  else (out_lines ++ [numbered n (collapse_ws s)], (n + step cfg)%Z).

(** One turn of [for ln in src_lines]; the state comes back unchanged at a
    [continue]. *)
Definition normalize_step (cfg : NormalizationConfig) (st : loop_state)
    (ln : str) : loop_state :=
  let s := strip ln in
  if is_empty s then st
  else if strip_semicolon cfg && contains (chr ";") s then
    let s := rstrip (split_head (chr ";") s) in
    if is_empty s then st else emit cfg st s
  else emit cfg st s.

(** The stop-code pass: the lines with [M2] or [M02] go, one clean line
    is added with the counter as it stands. *)
Definition enforce_M02 (st : loop_state) : list str :=
  let '(out_lines, n) := st in
  filter (fun l => negb (search_M02 l)) out_lines ++ [numbered n (lit "M02")].

(** [out_lines] of [normalize_to_iso] before it is serialised *)
Definition normalize_lines (cfg : NormalizationConfig) (src_lines : list str)
    : list str :=
  let '(out_lines, src_lines) := header cfg src_lines in
  let st := fold_left (normalize_step cfg) src_lines (out_lines, start_n cfg) in
  if ensure_M02 cfg then enforce_M02 st else fst st.

Definition eol_of (cfg : NormalizationConfig) : str :=
  if crlf cfg then [0x0D; 0x0A] else [0x0A].

(** [content]: the lines joined with the line ending, and one more at the
    end. *)
Definition serialize (cfg : NormalizationConfig) (out_lines : list str) : str :=
  join (eol_of cfg) out_lines ++ eol_of cfg.

(** [content.encode("latin-1", errors="ignore")]: the bytes written for
    the lines [out_lines] *)
Definition write_lines (cfg : NormalizationConfig) (out_lines : list str)
    : list byte :=
  encode_latin1 (serialize cfg out_lines).

(** [normalize(lines, config) -> bytes] *)
Definition normalize (cfg : NormalizationConfig) (src_lines : list str)
    : list byte :=
  write_lines cfg (normalize_lines cfg src_lines).

(** [normalize_to_iso] from the content of the input file to the content
    of the output file *)
Definition normalize_to_iso (cfg : NormalizationConfig) (input : list byte)
    : list byte :=
  normalize cfg (splitlines (read_text_latin1 input)).

(** *** The same loop with a record of the numbers it assigns

    Each emitted line is tagged with the number the loop gave it, or with
    [None] when the loop did not number it (the header, a line kept with
    its own block number). *)

Definition tagged : Type := option Z * str.
Definition tagged_state : Type := list tagged * Z.

Definition emit_tagged (cfg : NormalizationConfig) (st : tagged_state)
    (s : str) : tagged_state :=
  let '(out_lines, n) := st in
  if has_block_number s then (out_lines ++ [(None, s)], n)
  else (out_lines ++ [(Some n, numbered n (collapse_ws s))], (n + step cfg)%Z).

Definition normalize_step_tagged (cfg : NormalizationConfig)
    (st : tagged_state) (ln : str) : tagged_state :=
  let s := strip ln in
  if is_empty s then st
  else if strip_semicolon cfg && contains (chr ";") s then
    let s := rstrip (split_head (chr ";") s) in
    if is_empty s then st else emit_tagged cfg st s
  else emit_tagged cfg st s.

Definition enforce_M02_tagged (st : tagged_state) : list tagged :=
  let '(out_lines, n) := st in
  filter (fun l => negb (search_M02 (snd l))) out_lines
  ++ [(Some n, numbered n (lit "M02"))].

(** The lines of the header, which the loop did not number *)
Definition untagged (ls : list str) : list tagged :=
  map (fun l => (None, l)) ls.

Definition numbering_loop_tagged (cfg : NormalizationConfig)
    (src_lines : list str) : tagged_state :=
  let '(out_lines, src_lines) := header cfg src_lines in
  fold_left (normalize_step_tagged cfg) src_lines
            (untagged out_lines, start_n cfg).

Definition normalize_tagged (cfg : NormalizationConfig)
    (src_lines : list str) : list tagged :=
  let st := numbering_loop_tagged cfg src_lines in
  if ensure_M02 cfg then enforce_M02_tagged st else fst st.

(** The numbers that the normalizer assigned, on the lines of its
    output, in the order of the output *)
Fixpoint assigned_numbers (out : list tagged) : list Z :=
  match out with
  | [] => []
  | (Some n, _) :: t => n :: assigned_numbers t
  | (None, _) :: t => assigned_numbers t
  end.

(** Every number of [l] is the one before plus [d]. *)
Fixpoint spaced_by (d : Z) (l : list Z) : Prop :=
  match l with
  | a :: (b :: _) as t => b = (a + d)%Z /\ spaced_by d t
  | _ => True
  end.

(** ** Comparator *)

Record ComparisonPolicy := {
  skip_header_percent : bool;
  skip_trailing_m02 : bool
}.

(** The defaults of [compare_files] *)
Definition default_policy : ComparisonPolicy :=
  {| skip_header_percent := true; skip_trailing_m02 := true |}.

Definition trim (pol : ComparisonPolicy) (lines : list str) : list str :=
  let lines :=
    if skip_header_percent pol && negb (is_empty lines)
       && str_eqb (strip (hd [] lines)) (lit "%")
    then tl lines else lines in
  let lines :=
    if skip_trailing_m02 pol && negb (is_empty lines)
       && search_M02 (last lines [])
    then removelast lines else lines in
  lines.

Record difference := {
  first_diff_line : nat;
  a_line : str;
  b_line : str
}.

Definition EOF : str := lit "<EOF>".

(** [la[i].strip() if i < len(la) else "<EOF>"] *)
Definition line_at (l : list str) (i : nat) : str :=
  if (i <? List.length l)%nat then strip (nth i l []) else EOF.

(** [for i in range(max_len)], from [i], with [todo] turns left; [None]
    is [{"first_diff_line": None}]. *)
Fixpoint compare_loop (la lb : list str) (i todo : nat) : option difference :=
  match todo with
  | O => None
  | S todo' =>
      let a_ln := line_at la i in
      let b_ln := line_at lb i in
      if negb (str_eqb (collapse_ws a_ln) (collapse_ws b_ln)) then
        Some {| first_diff_line := i + 1; a_line := a_ln; b_line := b_ln |}
      else compare_loop la lb (S i) todo'
  end.

(** [compare(linesA, linesB, policy)] *)
Definition compare (pol : ComparisonPolicy) (la lb : list str)
    : option difference :=
  let la := trim pol la in
  let lb := trim pol lb in
  let max_len := Nat.max (List.length la) (List.length lb) in
  compare_loop la lb 0 max_len.

(** [compare_files] on two files whose contents are [a] and [b] *)
Definition compare_files (pol : ComparisonPolicy) (a b : list byte)
    : option difference :=
  compare pol (splitlines (read_text_latin1 a))
              (splitlines (read_text_latin1 b)).

(** ** Vocabulary of the properties *)

(** How many of the three line-ending styles occur *)
Definition styles_present (crlf lf cr : Z) : nat :=
  ((if truthy crlf then 1 else 0) + (if truthy lf then 1 else 0)
   + (if truthy cr then 1 else 0))%nat.

(** A decoder loses nothing when some encoder gives every buffer back. *)
Definition lossless (decode : list byte -> str) : Prop :=
  exists encode : str -> list byte, forall data, encode (decode data) = data.

(** The values of the block numbers of the lines that carry one, in the
    order of the lines *)
Fixpoint block_numbers (lines : list str) : list Z :=
  match lines with
  | [] => []
  | ln :: rest =>
      match match_block_number ln with
      | Some ds => int_of_digits ds :: block_numbers rest
      | None => block_numbers rest
      end
  end.

(** Each element is strictly greater than the one before it. *)
Definition strictly_increasing (l : list Z) : Prop :=
  forall k a b,
    nth_error l k = Some a -> nth_error l (S k) = Some b -> (a < b)%Z.

(** The state of the numbering loop of [normalize_to_iso] when it ends *)
Definition numbering_loop (cfg : NormalizationConfig) (src_lines : list str)
    : loop_state :=
  let '(out_lines, src_lines) := header cfg src_lines in
  fold_left (normalize_step cfg) src_lines (out_lines, start_n cfg).

(** A line that is what the comparator puts for a missing line, up to
    outer white space and the length of white-space runs *)
Definition reads_as_EOF (l : str) : Prop := collapse_ws (strip l) = EOF.

(** Two lines that the comparator does not tell apart *)
Definition same_content (a b : str) : Prop :=
  collapse_ws (strip a) = collapse_ws (strip b).

(** The example of the analyzer *)
Definition example_program : list str :=
  [lit "%"; lit "N10 G01 X1.23456 Y2.0"; lit "M02"].

(** A line without white space at its ends, and not empty *)
Definition starts_clean (s : str) : Prop :=
  match s with
  | c :: _ => is_space c = false
  | [] => False
  end.

Definition ends_clean (s : str) : Prop :=
  s <> [] /\ is_space (last s 0) = false.

Definition tight (s : str) : Prop := starts_clean s /\ ends_clean s.

(** A line that the numbering loop takes over as it is: trimmed, with a
    block number, and without [;] when comments are stripped *)
Definition settled (cfg : NormalizationConfig) (l : str) : Prop :=
  tight l /\ has_block_number l = true
  /\ (strip_semicolon cfg = true -> contains (chr ";") l = false).


(** What the numbering loop makes of a source line before it looks for a
    block number: the trimmed line, cut at the first [;] when comments are
    stripped; the loop passes over a line of which nothing is left. *)
Definition prepared (cfg : NormalizationConfig) (ln : str) : str :=
  let s := strip ln in
  if strip_semicolon cfg && contains (chr ";") s
  then rstrip (split_head (chr ";") s)
  else s.

(** The lines that the header emits *)
Definition header_lines (cfg : NormalizationConfig) : list str :=
  if add_percent cfg then [lit "%"] else [].

(** An emitted line that carried its own block number: it is the source
    line as prepared, and the loop gave it no number. *)
Definition kept_as_is (cfg : NormalizationConfig) (src : list str)
    (t : tagged) : Prop :=
  fst t = None /\ has_block_number (snd t) = true
  /\ exists ln, In ln src /\ snd t = prepared cfg ln.

(** An emitted line that the loop numbered *)
Definition numbered_by_loop (cfg : NormalizationConfig) (src : list str)
    (t : tagged) : Prop :=
  exists m ln, In ln src /\ has_block_number (prepared cfg ln) = false
    /\ prepared cfg ln <> []
    /\ t = (Some m, numbered m (collapse_ws (prepared cfg ln))).

(** The arithmetic progression of [k] numbers from [n] by [d] *)
Definition progression (n d : Z) (k : nat) : list Z :=
  map (fun i => (n + Z.of_nat i * d)%Z) (seq 0 k).


(** [ks] is strictly increasing, and its elements are at least [lo] and
    less than [hi]. *)
Fixpoint ascending (lo hi : nat) (ks : list nat) : Prop :=
  match ks with
  | [] => (lo <= hi)%nat
  | k :: t => (lo <= k)%nat /\ ascending (S k) hi t
  end.


(** A character that a line read from a latin-1 file can hold: a code
    point up to U+00FF at which [str.splitlines] does not break *)
Definition plain (c : char) : Prop := c <= 255 /\ is_linebreak c = false.

(** [eol.join(lines) + eol] for at least one line: every line with [eol]
    after it *)
Definition terminated (eol : str) (lines : list str) : str :=
  flat_map (fun l => l ++ eol) lines.

(** *** Block numbers in the words of the specification

    The scanners above are the code.  These definitions say, without
    them, what the specification calls a line carrying a block number and
    the numeric value of that number; the properties relate the two. *)

(** One of the ten decimal digits *)
Definition is_decimal_digit (c : char) : Prop := In c (lit "0123456789").

(** The value of a decimal digit, by the table of the digits *)
Definition digit_value (c : char) : Z :=
  if c =? chr "1" then 1 else if c =? chr "2" then 2
  else if c =? chr "3" then 3 else if c =? chr "4" then 4
  else if c =? chr "5" then 5 else if c =? chr "6" then 6
  else if c =? chr "7" then 7 else if c =? chr "8" then 8
  else if c =? chr "9" then 9 else 0.

(** The number that a decimal numeral denotes: each digit counts for its
    value times the power of ten of its place. *)
Fixpoint decimal_value (ds : str) : Z :=
  match ds with
  | [] => 0
  | d :: t => digit_value d * 10 ^ Z.of_nat (List.length t) + decimal_value t
  end.

(** The line [ln] carries the block number [n]: after leading white
    space it begins with [N] followed by one or more digits, the numeral
    of [n], which ends where the digits end. *)
Definition carries_block_number (ln : str) (n : Z) : Prop :=
  exists ws ds rest,
    ln = ws ++ chr "N" :: ds ++ rest
    /\ Forall (fun c => is_space c = true) ws
    /\ ds <> [] /\ Forall is_decimal_digit ds
    /\ (forall c rest', rest = c :: rest' -> ~ is_decimal_digit c)
    /\ n = decimal_value ds.

Definition carries_no_block_number (ln : str) : Prop :=
  forall n, ~ carries_block_number ln n.

(** Every line that carries a block number has a value strictly greater
    than the previous line that carries one. *)
Definition each_number_above_previous (lines : list str) : Prop :=
  forall pre li mid lj post ni nj,
    lines = pre ++ li :: mid ++ lj :: post ->
    carries_block_number li ni -> carries_block_number lj nj ->
    Forall carries_no_block_number mid ->
    (ni < nj)%Z.

(** The first line of [lines] that carries a block number, when there is
    one, has a value strictly greater than [last_n]. *)
Definition first_number_above (last_n : Z) (lines : list str) : Prop :=
  forall mid lj post nj,
    lines = mid ++ lj :: post ->
    Forall carries_no_block_number mid -> carries_block_number lj nj ->
    (last_n < nj)%Z.

(** What the numbering loop emits for a prepared line [s]: a line that
    carries a block number is emitted as it is and gets no number; any
    other line is emitted with a number in front, its runs of white space
    collapsed. *)
Definition emitted_as (s : str) (t : tagged) : Prop :=
  ((exists n, carries_block_number s n) /\ t = (None, s))
  \/ (carries_no_block_number s
      /\ exists m, t = (Some m, numbered m (collapse_ws s))).

(** The prepared forms of the source lines that the numbering loop does
    not pass over *)
Definition prepared_lines (cfg : NormalizationConfig) (src : list str)
    : list str :=
  filter (fun s => negb (is_empty s)) (map (prepared cfg) src).

(* ================================================================== *)
(** * Properties *)
(* ================================================================== *)

(** ** The embedding on examples

    The scanners and the text operations at inputs for which the behaviour
    of the expressions and of the built-in operations of the source is
    known. *)

Example search_M02_examples :
  map search_M02
    [lit "M02"; lit "N10 M2"; lit "M022"; lit "XM02"; lit "G1 M02;";
     lit "M_02"; lit "m02"; lit "M0 2"; lit "(M2)"]
  = [true; true; false; false; true; false; false; false; true].
Proof. reflexivity. Qed.

Example search_word_examples :
  map (fun s => filter (fun code => search_word (lit code) s) STOP_CODES)
    [lit "M30"; lit "M0"; lit "G1 M00 X"; lit "M000"; lit "M1.";
     lit "M01M02"; lit "N3 M2"]
  = [["M30"]; ["M0"]; ["M00"]; []; ["M1"]; []; ["M2"]]%string.
Proof. reflexivity. Qed.

Example match_block_number_examples :
  map match_block_number
    [lit "N10 G01"; lit "  N007x"; lit "N"; lit "N X1"; lit "n10";
     lit "G1 N10"]
  = [Some (lit "10"); Some (lit "007"); None; None; None; None].
Proof. reflexivity. Qed.

Example collapse_ws_examples :
  map collapse_ws [lit "G01   X1  Y2"; lit " a  b "; lit "ab"; lit ""]
  = [lit "G01 X1 Y2"; lit " a b "; lit "ab"; lit ""].
Proof. reflexivity. Qed.

Example findall_decimals_examples :
  map findall_decimals
    [lit "X1.23456 Y2.0"; lit "Z-3.5X+.5 F10."; lit "I+0.001J-12.5";
     lit "X1.2.3"; lit "A1.5 x1.5 X 1.5"]
  = [[lit "23456"; lit "0"];
     [lit "5"];
     [lit "001"; lit "5"];
     [lit "2"];
     []].
Proof. reflexivity. Qed.

Example search_percent_content_examples :
  map search_percent_content
    [lit "%"; lit "% "; lit "% a"; lit "a%"; lit "%%"; lit " % "]
  = [false; false; true; false; true; false].
Proof. reflexivity. Qed.

Example strip_examples :
  map strip [lit "  G01 X1 "; lit " % "; lit ""; lit ";"; lit "a;b ; c"]
  = [lit "G01 X1"; lit "%"; lit ""; lit ";"; lit "a;b ; c"].
Proof. reflexivity. Qed.

Example split_head_examples :
  map (fun s => rstrip (split_head (chr ";") s))
    [lit "G01 X1 ; comment"; lit "; only"; lit "no comment"]
  = [lit "G01 X1"; lit ""; lit "no comment"].
Proof. reflexivity. Qed.

Example str_of_int_examples :
  map str_of_int [0; 7; 10; 305; (-15)]%Z
  = [lit "0"; lit "7"; lit "10"; lit "305"; lit "-15"].
Proof. reflexivity. Qed.

Example int_of_digits_examples :
  map int_of_digits [lit "0"; lit "007"; lit "10"; lit "305"]
  = [0; 7; 10; 305]%Z.
Proof. reflexivity. Qed.

Example splitlines_examples :
  map splitlines
    [[0x61; 0xd; 0xa; 0x62; 0xa; 0xa; 0x63];
     [0xa];
     [0x61; 0xd; 0x62];
     [0x61; 0xb; 0x62; 0xc; 0x63];
     [0x61; 0x1c; 0x62; 0x85; 0x63; 0x1f; 0x64];
     [];
     [0x61; 0xa]]
  = [[[0x61]; [0x62]; []; [0x63]];
     [[]];
     [[0x61]; [0x62]];
     [[0x61]; [0x62]; [0x63]];
     [[0x61]; [0x62]; [0x63; 0x1f; 0x64]];
     [];
     [[0x61]]].
Proof. reflexivity. Qed.

Example read_text_latin1_examples :
  map read_text_latin1
    [[x61; x0d; x0a; x62; x0d; x63; x0a];
     [x0d; x0d; x0a; x0a];
     [xe9; x0d]]
  = [[0x61; 0xa; 0x62; 0xa; 0x63; 0xa];
     [0xa; 0xa; 0xa];
     [0xe9; 0xa]].
Proof. reflexivity. Qed.

Example detect_eol_stats_examples :
  map detect_eol_stats
    [[x61; x0d; x0a; x62; x0d; x63; x0a];
     [x0d; x0d; x0a; x0a];
     [];
     [x0a; x0d]]
  = [(1, 1, 1); (1, 1, 1); (0, 0, 0); (0, 1, 1)]%Z.
Proof. reflexivity. Qed.

(** The example of the normalizer: comments stripped, lines numbered, the
    stop code added, CR LF after every line. *)
Example normalize_example :
  normalize_lines default_config [lit "G01 X1 Y2 ; comment"; lit "G02 X3"]
  = [lit "%"; lit "N10 G01 X1 Y2"; lit "N20 G02 X3"; lit "N30 M02"]
  /\ normalize_to_iso default_config
       (blit "G01 X1 Y2 ; comment" ++ [x0a] ++ blit "G02 X3")
     = encode_latin1
         (lit "%" ++ [0x0D; 0x0A] ++ lit "N10 G01 X1 Y2" ++ [0x0D; 0x0A]
          ++ lit "N20 G02 X3" ++ [0x0D; 0x0A] ++ lit "N30 M02" ++ [0x0D; 0x0A]).
Proof. split; reflexivity. Qed.

(** The example of the comparator *)
Example compare_example :
  compare default_policy
          [lit "N10 G01 X1"; lit "N20 G02 X2"]
          [lit "N10 G01 X1"; lit "N20 G02 X3"]
  = Some {| first_diff_line := 2; a_line := lit "N20 G02 X2";
            b_line := lit "N20 G02 X3" |}.
Proof. reflexivity. Qed.

(** ** The scanners against the expressions

    Each scanner computes what the matcher of [Regex] computes for the
    expression of the source. *)

Lemma is_some_orelse {A} (o o' : option A) :
  is_some match o with Some m => Some m | None => o' end
  = is_some o || is_some o'.
Proof. now destruct o. Qed.

Lemma last_char_cons (pv : option char) (c : char) (w : str) :
  last_char (Some c) w = last_char pv (c :: w).
Proof. now destruct w. Qed.

Lemma take_drop_length (p : char -> bool) (s : str) :
  (List.length (take_while p s) + List.length (drop_while p s))%nat
  = List.length s.
Proof.
  induction s as [|c t IH]; [reflexivity|]. cbn.
  destruct (p c); cbn; lia.
Qed.

Lemma firstn_take_while (p : char -> bool) (s : str) :
  firstn (List.length s - List.length (drop_while p s)) s = take_while p s.
Proof.
  pose proof (take_drop_length p s) as H.
  replace (List.length s - List.length (drop_while p s))%nat
    with (List.length (take_while p s)) by lia.
  clear H. induction s as [|c t IH]; [reflexivity|]. cbn.
  destruct (p c); cbn; [now rewrite IH|reflexivity].
Qed.

(** A greedy repetition before a continuation that fails wherever the
    repetition could have gone on: only the longest run is left. *)
Lemma star_commit (p : char -> bool)
    (k : Regex.position -> option Regex.position)
    (pv : option char) (g : option str) (s : str) :
  (forall pv' g' c t, p c = true ->
     k {| Regex.prev := pv'; Regex.rest := c :: t; Regex.group1 := g' |}
     = None) ->
  Regex.star p k pv g s
  = k {| Regex.prev := last_char pv (take_while p s);
         Regex.rest := drop_while p s; Regex.group1 := g |}.
Proof.
  intros Hk. revert pv. induction s as [|c t IH]; intros pv; [reflexivity|].
  cbn [Regex.star take_while drop_while]. destruct (p c) eqn:E; [|reflexivity].
  rewrite IH, (last_char_cons pv).
  destruct (k _) eqn:Ek; [reflexivity|]. now apply Hk.
Qed.

(** A greedy repetition before a continuation that never fails takes the
    longest run. *)
Lemma star_greedy (p : char -> bool)
    (k : Regex.position -> option Regex.position)
    (pv : option char) (g : option str) (s : str) :
  (forall st, k st <> None) ->
  Regex.star p k pv g s
  = k {| Regex.prev := last_char pv (take_while p s);
         Regex.rest := drop_while p s; Regex.group1 := g |}.
Proof.
  intros Hk. revert pv. induction s as [|c t IH]; intros pv; [reflexivity|].
  cbn [Regex.star take_while drop_while]. destruct (p c) eqn:E; [|reflexivity].
  rewrite IH, (last_char_cons pv).
  destruct (k _) eqn:Ek; [reflexivity|]. now apply Hk in Ek.
Qed.

Lemma match_at_M02 (pv : option char) (s : str) :
  is_some (Regex.match_at RE_M02 pv s)
  = match_word_at (lit "M02") pv s || match_word_at (lit "M2") pv s.
Proof.
  unfold Regex.match_at, RE_M02, Regex.Lit, match_word_at.
  cbn [Regex.exec Regex.rest Regex.prev Regex.group1].
  destruct (word_boundary pv (hd_error s)); [|reflexivity].
  cbn [andb]. change (lit "M02") with [chr "M"; chr "0"; chr "2"].
  change (lit "M2") with [chr "M"; chr "2"].
  cbn [strip_prefix last_char last].
  destruct s as [|c0 s]; [reflexivity|].
  rewrite (N.eqb_sym (chr "M") c0).
  destruct (c0 =? chr "M"); [|reflexivity].
  destruct s as [|c1 s]; [reflexivity|].
  rewrite (N.eqb_sym (chr "0") c1), (N.eqb_sym (chr "2") c1).
  destruct (N.eqb_spec c1 (chr "0")) as [->|H0].
  - change (chr "0" =? chr "2") with false. rewrite orb_false_r.
    destruct s as [|c2 s]; [reflexivity|].
    rewrite (N.eqb_sym (chr "2") c2).
    destruct (N.eqb_spec c2 (chr "2")) as [->|H2]; [|reflexivity].
    now destruct (word_boundary (Some (chr "2")) (hd_error s)).
  - cbn [orb]. destruct (N.eqb_spec c1 (chr "2")) as [->|H2]; [|reflexivity].
    now destruct (word_boundary (Some (chr "2")) (hd_error s)).
Qed.

(** [re.search(r'\bM0?2\b', s)] *)
Lemma search_M02_regex (s : str) :
  search_M02 s = is_some (Regex.search RE_M02 s).
Proof.
  unfold search_M02, Regex.search. generalize (@None char).
  induction s as [|c t IH]; intros pv;
    cbn [search_M02_from Regex.search_from];
    rewrite is_some_orelse, match_at_M02; [reflexivity|].
  now rewrite IH.
Qed.

Lemma exec_word (w : str) (then_ : Regex.re) (st : Regex.position)
    (k : Regex.position -> option Regex.position) :
  Regex.exec (Regex.Word w then_) st k
  = match strip_prefix w (Regex.rest st) with
    | Some r =>
        Regex.exec then_
          {| Regex.prev := last_char (Regex.prev st) w; Regex.rest := r;
             Regex.group1 := Regex.group1 st |} k
    | None => None
    end.
Proof.
  revert st. induction w as [|c w IH]; intros [pv s g].
  - reflexivity.
  - cbn [Regex.Word Regex.exec Regex.Lit Regex.rest Regex.prev Regex.group1
         strip_prefix].
    destruct s as [|x t]; [reflexivity|].
    rewrite (N.eqb_sym c x). destruct (N.eqb_spec x c) as [->|Hn]; [|reflexivity].
    rewrite IH. cbn [Regex.rest Regex.prev Regex.group1].
    now rewrite (last_char_cons pv).
Qed.

Lemma match_at_code (code : string) (pv : option char) (s : str) :
  is_some (Regex.match_at (RE_code code) pv s) = match_word_at (lit code) pv s.
Proof.
  unfold Regex.match_at, RE_code, match_word_at.
  cbn [Regex.exec Regex.rest Regex.prev].
  destruct (word_boundary pv (hd_error s)); [|reflexivity].
  rewrite exec_word. cbn [Regex.rest Regex.prev Regex.group1 andb Regex.exec].
  destruct (strip_prefix (lit code) s) as [r|]; [|reflexivity].
  now destruct (word_boundary (last_char pv (lit code)) (hd_error r)).
Qed.

(** [re.search(rf'\b{code}\b', s)] *)
Lemma search_word_regex (code : string) (s : str) :
  search_word (lit code) s = is_some (Regex.search (RE_code code) s).
Proof.
  unfold search_word, Regex.search. generalize (@None char).
  induction s as [|c t IH]; intros pv;
    cbn [search_word_from Regex.search_from];
    rewrite is_some_orelse, match_at_code; [reflexivity|].
  now rewrite IH.
Qed.

Lemma space_not_N (c : char) : is_space c = true -> (c =? chr "N") = false.
Proof.
  intros H. destruct (N.eqb_spec c (chr "N")) as [->|]; [discriminate|reflexivity].
Qed.

(** [(\d+)] at the end of an expression: the longest run of digits, which
    is group 1. *)
Lemma exec_digits_group (st : Regex.position) :
  Regex.exec (Regex.Group (Regex.Plus is_digit)) st Some
  = match take_while is_digit (Regex.rest st) with
    | [] => None
    | ds =>
        Some {| Regex.prev := last_char (Regex.prev st) ds;
                Regex.rest := drop_while is_digit (Regex.rest st);
                Regex.group1 := Some ds |}
    end.
Proof.
  destruct st as [pv s g].
  cbn [Regex.exec Regex.Plus Regex.rest Regex.prev Regex.group1].
  destruct s as [|d t]; [reflexivity|]. cbn [take_while drop_while].
  destruct (is_digit d) eqn:Ed; [|reflexivity].
  rewrite star_greedy by discriminate.
  cbn [Regex.rest Regex.prev]. rewrite (last_char_cons pv).
  do 2 f_equal.
  pose proof (firstn_take_while is_digit (d :: t)) as H.
  cbn [take_while drop_while] in H. rewrite Ed in H. now rewrite H.
Qed.

Lemma exec_star_then (p : char -> bool) (r : Regex.re) (st : Regex.position)
    (k : Regex.position -> option Regex.position) :
  Regex.exec (Regex.Seq (Regex.Star p) r) st k
  = Regex.star p (fun st' => Regex.exec r st' k)
      (Regex.prev st) (Regex.group1 st) (Regex.rest st).
Proof. reflexivity. Qed.

Lemma exec_lit_then (c : char) (r : Regex.re) (st : Regex.position)
    (k : Regex.position -> option Regex.position) :
  Regex.exec (Regex.Seq (Regex.Lit c) r) st k
  = match Regex.rest st with
    | x :: t =>
        if x =? c
        then Regex.exec r {| Regex.prev := Some x; Regex.rest := t;
                             Regex.group1 := Regex.group1 st |} k
        else None
    | [] => None
    end.
Proof. reflexivity. Qed.

(** [re.match(r'\s*N(\d+)', s)] and its group 1 *)
Lemma match_block_number_regex (s : str) :
  match_block_number s
  = match Regex.rmatch RE_block_number s with
    | Some m => Regex.group1 m
    | None => None
    end.
Proof.
  unfold Regex.rmatch, Regex.match_at, RE_block_number, match_block_number.
  rewrite exec_star_then, star_commit.
  - rewrite exec_lit_then. cbn [Regex.rest Regex.group1].
    destruct (drop_while is_space s) as [|c t]; [reflexivity|].
    destruct (c =? chr "N"); [|reflexivity].
    rewrite exec_digits_group. cbn [Regex.rest].
    now destruct (take_while is_digit t).
  - intros pv' g' c t Hc. rewrite exec_lit_then. cbn [Regex.rest].
    now rewrite (space_not_N c Hc).
Qed.

Lemma match_at_spaces (pv : option char) (c : char) (t : str) :
  Regex.match_at RE_spaces pv (c :: t)
  = if is_space c
    then Some {| Regex.prev := last_char (Some c) (take_while is_space t);
                 Regex.rest := drop_while is_space t; Regex.group1 := None |}
    else None.
Proof.
  unfold Regex.match_at, RE_spaces, Regex.Plus.
  cbn [Regex.exec Regex.rest Regex.prev Regex.group1].
  destruct (is_space c); [|reflexivity].
  now rewrite star_greedy by discriminate.
Qed.

Lemma sub_spaces (s : str) (pv : option char) :
  Regex.sub_from RE_spaces (lit " ") 0 pv s = collapse_ws_from false s
  /\ Regex.sub_from RE_spaces (lit " ")
       (List.length (take_while is_space s)) pv s
     = collapse_ws_from true s.
Proof.
  revert pv. induction s as [|c t IH]; intros pv; [now split|].
  assert (H0 : Regex.sub_from RE_spaces (lit " ") 0 pv (c :: t)
               = collapse_ws_from false (c :: t)).
  { cbn [Regex.sub_from collapse_ws_from]. rewrite match_at_spaces.
    destruct (is_space c).
    - unfold Regex.matched. cbn [Regex.rest List.length].
      pose proof (take_drop_length is_space t) as Hl.
      replace (Nat.pred (S (List.length t) - List.length (drop_while is_space t)))
        with (List.length (take_while is_space t)) by lia.
      now rewrite (proj2 (IH (Some c))).
    - now rewrite (proj1 (IH (Some c))). }
  split; [exact H0|].
  cbn [take_while]. destruct (is_space c) eqn:Ec.
  - cbn [List.length Regex.sub_from collapse_ws_from]. rewrite Ec.
    apply IH.
  - cbn [List.length]. rewrite H0. cbn [collapse_ws_from]. now rewrite Ec.
Qed.

(** [re.sub(r'\s+', ' ', s)] *)
Lemma collapse_ws_regex (s : str) :
  collapse_ws s = Regex.sub RE_spaces (lit " ") s.
Proof. symmetry. apply sub_spaces. Qed.

Lemma match_at_percent (pv : option char) (s : str) :
  is_some (Regex.match_at RE_percent_content pv s)
  = match s with
    | c :: t =>
        (c =? chr "%")
        && existsb (fun x => negb (is_space x))
                   (take_while (fun x => negb (x =? 0x0A)) t)
    | [] => false
    end.
Proof.
  unfold Regex.match_at, RE_percent_content, Regex.Lit.
  cbn [Regex.exec Regex.rest Regex.prev Regex.group1].
  destruct s as [|c t]; [reflexivity|].
  destruct (c =? chr "%"); [|reflexivity]. cbn [andb].
  generalize (Some c). clear c.
  induction t as [|c t IH]; intros pv'; [reflexivity|].
  cbn [Regex.star take_while]. destruct (N.eqb_spec c 0x0A) as [->|Hn];
    cbn [negb].
  - reflexivity.
  - rewrite is_some_orelse, IH. cbn [existsb Regex.rest].
    rewrite orb_comm. f_equal. now destruct (is_space c).
Qed.

(** [re.search(r'%.*\S', s)] *)
Lemma search_percent_content_regex (s : str) :
  search_percent_content s = is_some (Regex.search RE_percent_content s).
Proof.
  unfold Regex.search. generalize (@None char).
  induction s as [|c t IH]; intros pv; [reflexivity|].
  cbn [search_percent_content Regex.search_from].
  rewrite is_some_orelse, match_at_percent. now rewrite (IH (Some c)).
Qed.

Lemma exec_class_then (p : char -> bool) (r : Regex.re) (st : Regex.position)
    (k : Regex.position -> option Regex.position) :
  Regex.exec (Regex.Seq (Regex.Class p) r) st k
  = match Regex.rest st with
    | x :: t =>
        if p x
        then Regex.exec r {| Regex.prev := Some x; Regex.rest := t;
                             Regex.group1 := Regex.group1 st |} k
        else None
    | [] => None
    end.
Proof. reflexivity. Qed.

Lemma exec_plus_then (p : char -> bool) (r : Regex.re) (st : Regex.position)
    (k : Regex.position -> option Regex.position) :
  Regex.exec (Regex.Seq (Regex.Plus p) r) st k
  = match Regex.rest st with
    | x :: t =>
        if p x
        then Regex.star p (fun st' => Regex.exec r st' k)
               (Some x) (Regex.group1 st) t
        else None
    | [] => None
    end.
Proof. reflexivity. Qed.

Lemma exec_opt_then (a r : Regex.re) (st : Regex.position)
    (k : Regex.position -> option Regex.position) :
  Regex.exec (Regex.Seq (Regex.Opt a) r) st k
  = match Regex.exec a st (fun st' => Regex.exec r st' k) with
    | Some m => Some m
    | None => Regex.exec r st k
    end.
Proof. reflexivity. Qed.

Lemma digit_not_dot (c : char) : is_digit c = true -> (c =? chr ".") = false.
Proof.
  intros H. destruct (N.eqb_spec c (chr ".")) as [->|]; [discriminate|reflexivity].
Qed.

Lemma sign_not_digit (c : char) : is_sign c = true -> is_digit c = false.
Proof.
  unfold is_sign. intros H. apply orb_true_iff in H.
  destruct H as [H|H]; apply N.eqb_eq in H; now subst.
Qed.

(** [\d+\.(\d+)]: digits, the point, and the digits of group 1 *)
Lemma exec_number (st : Regex.position) :
  Regex.exec
    (Regex.Seq (Regex.Plus is_digit)
       (Regex.Seq (Regex.Lit (chr ".")) (Regex.Group (Regex.Plus is_digit))))
    st Some
  = match take_while is_digit (Regex.rest st),
          drop_while is_digit (Regex.rest st) with
    | _ :: _, d :: t2 =>
        if d =? chr "." then
          match take_while is_digit t2 with
          | [] => None
          | fp => Some {| Regex.prev := last_char (Some d) fp;
                          Regex.rest := drop_while is_digit t2;
                          Regex.group1 := Some fp |}
          end
        else None
    | _, _ => None
    end.
Proof.
  destruct st as [pv s g]. rewrite exec_plus_then. cbn [Regex.rest Regex.group1].
  destruct s as [|x t]; [reflexivity|]. cbn [take_while drop_while].
  destruct (is_digit x) eqn:Ex; [|reflexivity].
  rewrite star_commit.
  - rewrite exec_lit_then. cbn [Regex.rest Regex.group1].
    destruct (drop_while is_digit t) as [|d t2]; [reflexivity|].
    destruct (d =? chr "."); [|reflexivity].
    rewrite exec_digits_group. reflexivity.
  - intros pv' g' c u Hc. rewrite exec_lit_then. cbn [Regex.rest].
    now rewrite (digit_not_dot c Hc).
Qed.

(** The match of the expression for decimals where [s] starts: the same
    group 1 and the same length as the scanner finds. *)
Lemma match_at_decimal (pv : option char) (s : str) :
  option_map (fun m => (Regex.group1 m, Regex.matched s m))
             (Regex.match_at RE_decimal pv s)
  = option_map (fun x => (Some (fst x), snd x)) (match_decimal s).
Proof.
  unfold Regex.match_at, RE_decimal, match_decimal.
  rewrite exec_class_then. cbn [Regex.rest Regex.group1].
  destruct s as [|c t]; [reflexivity|].
  destruct (is_axis c); [|reflexivity].
  rewrite exec_opt_then.
  set (number := Regex.Seq (Regex.Plus is_digit) _).
  assert (Hn : forall pv' u sgn,
            (List.length t = sgn + List.length u)%nat ->
            option_map (fun m => (Regex.group1 m, Regex.matched (c :: t) m))
              (Regex.exec number
                 {| Regex.prev := pv'; Regex.rest := u; Regex.group1 := None |}
                 Some)
            = option_map (fun x => (Some (fst x), snd x))
                match take_while is_digit u, drop_while is_digit u with
                | (_ :: _) as ip, d :: t2 =>
                    if d =? chr "." then
                      match take_while is_digit t2 with
                      | [] => None
                      | fp => Some (fp, (1 + sgn + List.length ip + 1
                                         + List.length fp)%nat)
                      end
                    else None
                | _, _ => None
                end).
  { intros pv' u sgn Hlen. unfold number. rewrite exec_number.
    cbn [Regex.rest].
    pose proof (take_drop_length is_digit u) as H1.
    destruct (take_while is_digit u) as [|i ip]; [reflexivity|].
    destruct (drop_while is_digit u) as [|d t2]; [reflexivity|].
    destruct (d =? chr "."); [|reflexivity].
    pose proof (take_drop_length is_digit t2) as H2.
    destruct (take_while is_digit t2) as [|f fp]; [reflexivity|].
    cbn [option_map fst snd]. unfold Regex.matched. cbn [Regex.rest].
    do 2 f_equal. cbn [List.length] in *. lia. }
  destruct t as [|c1 t1].
  - cbn [Regex.exec Regex.rest]. apply (Hn _ [] 0%nat). reflexivity.
  - cbn [Regex.exec Regex.rest Regex.group1 Regex.prev].
    destruct (is_sign c1) eqn:Es.
    + assert (Hfall : Regex.exec number
                        {| Regex.prev := Some c; Regex.rest := c1 :: t1;
                           Regex.group1 := None |} Some = None).
      { unfold number. rewrite exec_number. cbn [Regex.rest take_while].
        now rewrite (sign_not_digit c1 Es). }
      rewrite Hfall.
      etransitivity; [|apply (Hn (Some c1) t1 1%nat eq_refl)].
      now destruct (Regex.exec number
                      {| Regex.prev := Some c1; Regex.rest := t1;
                         Regex.group1 := None |} Some).
    + apply (Hn _ (c1 :: t1) 0%nat). reflexivity.
Qed.

(** [re.findall(r'[XYZIJF][\-\+]?\d+\.(\d+)', s)] *)
Lemma findall_decimals_regex (s : str) :
  findall_decimals s = Regex.findall RE_decimal s.
Proof.
  unfold findall_decimals, Regex.findall.
  generalize (@None char). generalize 0%nat.
  induction s as [|c t IH]; intros skip pv; [reflexivity|].
  cbn [findall_decimals_from Regex.findall_from].
  destruct skip as [|k]; [|apply IH].
  pose proof (match_at_decimal pv (c :: t)) as E.
  destruct (Regex.match_at RE_decimal pv (c :: t)) as [m|];
    destruct (match_decimal (c :: t)) as [[fp len]|];
    cbn [option_map fst snd] in E; try discriminate; [|apply IH].
  injection E as Eg El. rewrite Eg, El. f_equal. apply IH.
Qed.

(** [re.match(r'\s*N\d+', s)] *)
Lemma has_block_number_regex (s : str) :
  has_block_number s = is_some (Regex.rmatch RE_numbered s).
Proof.
  unfold Regex.rmatch, Regex.match_at, RE_numbered, has_block_number,
    match_block_number.
  rewrite exec_star_then, star_commit.
  - rewrite exec_lit_then. cbn [Regex.rest Regex.group1].
    destruct (drop_while is_space s) as [|c t]; [reflexivity|].
    destruct (c =? chr "N"); [|reflexivity].
    cbn [Regex.exec Regex.Plus Regex.rest Regex.prev Regex.group1].
    destruct t as [|d t]; [reflexivity|]. cbn [take_while].
    destruct (is_digit d); [|reflexivity].
    now rewrite star_greedy by discriminate.
  - intros pv' g' c t Hc. rewrite exec_lit_then. cbn [Regex.rest].
    now rewrite (space_not_N c Hc).
Qed.

(** ** Text *)

Lemma take_drop_app (p : char -> bool) (s : str) :
  take_while p s ++ drop_while p s = s.
Proof.
  induction s as [|c t IH]; [reflexivity|]. cbn [take_while drop_while].
  destruct (p c); [|reflexivity]. cbn [app]. now rewrite IH.
Qed.

Lemma take_while_forallb (p : char -> bool) (s : str) :
  forallb p (take_while p s) = true.
Proof.
  induction s as [|c t IH]; [reflexivity|]. cbn [take_while].
  destruct (p c) eqn:E; [|reflexivity]. cbn [forallb]. now rewrite E, IH.
Qed.

Lemma take_while_run (p : char -> bool) (a b : str) (x : char) :
  forallb p a = true -> p x = false -> take_while p (a ++ x :: b) = a.
Proof.
  intros Ha Hx. induction a as [|c t IH]; cbn [app take_while].
  - now rewrite Hx.
  - cbn [forallb] in Ha. apply andb_true_iff in Ha. destruct Ha as (Hc & Ht).
    now rewrite Hc, (IH Ht).
Qed.

Lemma take_while_all (p : char -> bool) (a : str) :
  forallb p a = true -> take_while p a = a.
Proof.
  induction a as [|c t IH]; [reflexivity|]. cbn [forallb take_while].
  intros H. apply andb_true_iff in H. destruct H as (Hc & Ht).
  now rewrite Hc, (IH Ht).
Qed.

Lemma drop_while_run (p : char -> bool) (a b : str) (x : char) :
  forallb p a = true -> p x = false -> drop_while p (a ++ x :: b) = x :: b.
Proof.
  intros Ha Hx. induction a as [|c t IH]; cbn [app drop_while].
  - now rewrite Hx.
  - cbn [forallb] in Ha. apply andb_true_iff in Ha. destruct Ha as (Hc & Ht).
    now rewrite Hc, (IH Ht).
Qed.

Lemma drop_while_head (p : char -> bool) (s t : str) (c : char) :
  drop_while p s = c :: t -> p c = false.
Proof.
  induction s as [|x s' IH]; [discriminate|]. cbn [drop_while].
  destruct (p x) eqn:E; [exact IH|]. intros H. injection H as <- _. exact E.
Qed.

Lemma str_eqb_eq (a b : str) : str_eqb a b = true <-> a = b.
Proof.
  unfold str_eqb. destruct (list_eq_dec N.eq_dec a b); split;
    intros; try discriminate; tauto.
Qed.

Lemma str_eqb_refl (a : str) : str_eqb a a = true.
Proof. now apply str_eqb_eq. Qed.

Lemma is_empty_false {A} (l : list A) : is_empty l = false <-> l <> [].
Proof. destruct l; cbn; split; congruence. Qed.

Lemma drop_while_app (p : char -> bool) (x y : str) :
  drop_while p x <> [] -> drop_while p (x ++ y) = drop_while p x ++ y.
Proof.
  induction x as [|c t IH]; cbn; [congruence|].
  destruct (p c); [exact IH|reflexivity].
Qed.

Lemma rstrip_snoc (s : str) (c : char) :
  rstrip (s ++ [c]) = if is_space c then rstrip s else s ++ [c].
Proof.
  unfold rstrip. rewrite rev_app_distr. cbn.
  destruct (is_space c); [reflexivity|].
  cbn. now rewrite rev_involutive.
Qed.

Lemma ends_clean_snoc (s : str) (c : char) :
  ends_clean (s ++ [c]) <-> is_space c = false.
Proof.
  unfold ends_clean. rewrite last_last. split; [tauto|].
  intros H. split; [|exact H]. now destruct s.
Qed.

Lemma ends_clean_inv (s : str) :
  ends_clean s -> exists s' c, s = s' ++ [c] /\ is_space c = false.
Proof.
  intros [Hne Hl]. exists (removelast s), (last s 0).
  split; [now apply app_removelast_last|exact Hl].
Qed.

Lemma ends_clean_app (p s : str) : ends_clean s -> ends_clean (p ++ s).
Proof.
  intros H. destruct (ends_clean_inv s H) as (s' & c & -> & Hc).
  rewrite app_assoc. now apply ends_clean_snoc.
Qed.

Lemma ends_clean_cons (c : char) (t : str) :
  ends_clean (c :: t) -> (t = [] /\ is_space c = false) \/ ends_clean t.
Proof.
  intros [_ H]. destruct t as [|d t']; [now left|].
  right. split; [discriminate|exact H].
Qed.

Lemma rstrip_ends_clean (s : str) : ends_clean s -> rstrip s = s.
Proof.
  intros H. destruct (ends_clean_inv s H) as (s' & c & -> & Hc).
  now rewrite rstrip_snoc, Hc.
Qed.

Lemma rstrip_result (s : str) : rstrip s = [] \/ ends_clean (rstrip s).
Proof.
  induction s as [|c s IH] using rev_ind; [now left|].
  rewrite rstrip_snoc. destruct (is_space c) eqn:E; [exact IH|].
  right. now apply ends_clean_snoc.
Qed.

Lemma rstrip_starts_clean (s : str) :
  starts_clean s -> starts_clean (rstrip s).
Proof.
  induction s as [|c s IH] using rev_ind; [tauto|].
  rewrite rstrip_snoc. destruct (is_space c) eqn:E; [|tauto].
  intros H. apply IH. destruct s as [|d s]; cbn in *; congruence.
Qed.

Lemma contains_app (c : char) (x y : str) :
  contains c (x ++ y) = contains c x || contains c y.
Proof. apply existsb_app. Qed.

Lemma contains_rstrip (c : char) (s : str) :
  contains c s = false -> contains c (rstrip s) = false.
Proof.
  induction s as [|d s IH] using rev_ind; [reflexivity|].
  rewrite rstrip_snoc, contains_app. intros H.
  apply orb_false_iff in H. destruct H as [H1 H2].
  destruct (is_space d); [now apply IH|].
  now rewrite contains_app, H1, H2.
Qed.

Lemma lstrip_starts_clean (s : str) : starts_clean s -> lstrip s = s.
Proof. destruct s as [|c t]; cbn; [tauto|]. now intros ->. Qed.

Lemma lstrip_result (s : str) : lstrip s = [] \/ starts_clean (lstrip s).
Proof.
  induction s as [|c t IH]; [now left|].
  unfold lstrip in *. cbn. destruct (is_space c) eqn:E; [exact IH|].
  right. exact E.
Qed.

Lemma strip_tight (s : str) : tight s -> strip s = s.
Proof.
  intros [Hs He]. unfold strip.
  rewrite (lstrip_starts_clean s Hs). now apply rstrip_ends_clean.
Qed.

Lemma starts_clean_nonempty (s : str) : starts_clean s -> s <> [].
Proof. destruct s; cbn; [tauto|discriminate]. Qed.

Lemma rstrip_tight (s : str) :
  starts_clean s -> tight (rstrip s).
Proof.
  intros H. pose proof (rstrip_starts_clean s H) as Hs.
  split; [exact Hs|].
  destruct (rstrip_result s) as [E|E]; [|exact E].
  now apply starts_clean_nonempty in Hs.
Qed.

Lemma strip_result (s : str) : strip s = [] \/ tight (strip s).
Proof.
  unfold strip. destruct (lstrip_result s) as [E|E].
  - left. now rewrite E.
  - right. now apply rstrip_tight.
Qed.

Lemma tight_nonempty (s : str) : tight s -> is_empty s = false.
Proof. intros [H _]. now apply is_empty_false, starts_clean_nonempty. Qed.

Lemma split_head_result (c : char) (s : str) :
  starts_clean s -> split_head c s = [] \/ starts_clean (split_head c s).
Proof.
  destruct s as [|d t]; cbn; [tauto|]. intros H.
  destruct (negb (d =? c)); [right; exact H|now left].
Qed.

Lemma split_head_contains (c : char) (s : str) :
  contains c (split_head c s) = false.
Proof.
  induction s as [|d t IH]; [reflexivity|].
  unfold split_head, contains in *. cbn [take_while].
  destruct (N.eqb_spec d c) as [->|Hn]; [reflexivity|].
  cbn [negb existsb]. rewrite IH, orb_false_r. apply N.eqb_neq. congruence.
Qed.

Lemma collapse_ws_ends_clean (s : str) (in_run : bool) :
  ends_clean s -> ends_clean (collapse_ws_from in_run s).
Proof.
  revert in_run. induction s as [|c t IH]; intros in_run H.
  - now destruct H.
  - cbn [collapse_ws_from].
    destruct (ends_clean_cons c t H) as [[-> Hc]|Ht].
    + rewrite Hc. now apply (ends_clean_snoc []).
    + destruct (is_space c), in_run;
        try apply (ends_clean_app [_]); now apply IH.
Qed.

Lemma collapse_ws_contains (c : char) (s : str) (in_run : bool) :
  c <> chr " " -> contains c s = false ->
  contains c (collapse_ws_from in_run s) = false.
Proof.
  intros Hc. revert in_run. induction s as [|d t IH]; intros in_run;
    [reflexivity|].
  unfold contains in *. cbn [existsb collapse_ws_from]. intros H.
  apply orb_false_iff in H. destruct H as [H1 H2].
  destruct (is_space d), in_run; cbn [existsb]; rewrite ?H1, ?IH; auto.
  apply N.eqb_neq in Hc. now rewrite Hc.
Qed.

Lemma lit_cons (a : ascii) (s : string) : lit (String a s) = chr a :: lit s.
Proof. reflexivity. Qed.

Lemma uint_digits (d : Decimal.uint) :
  forallb is_digit (lit (DecimalString.NilEmpty.string_of_uint d)) = true.
Proof.
  induction d; cbn [DecimalString.NilEmpty.string_of_uint];
    rewrite ?lit_cons; cbn [forallb]; rewrite ?IHd; reflexivity.
Qed.

(** [str(n)] of an [n] that is not negative: digits, and at least one. *)
Lemma str_of_int_nonneg (n : Z) :
  (0 <= n)%Z ->
  str_of_int n <> [] /\ forallb is_digit (str_of_int n) = true.
Proof.
  intros H. unfold str_of_int. destruct n as [|p|p]; [| |lia].
  - split; [discriminate|reflexivity].
  - cbn [Z.to_int DecimalString.NilZero.string_of_int].
    pose proof (DecimalPos.Unsigned.to_uint_nonnil p) as Hn.
    unfold DecimalString.NilZero.string_of_uint.
    destruct (Pos.to_uint p) eqn:E; [congruence| | | | | | | | | |];
      (split; [rewrite <- E | rewrite <- E; apply uint_digits]);
      rewrite E; cbn [DecimalString.NilEmpty.string_of_uint];
      rewrite lit_cons; discriminate.
Qed.

Lemma digits_no_semicolon (s : str) :
  forallb is_digit s = true -> contains (chr ";") s = false.
Proof.
  induction s as [|c t IH]; [reflexivity|]. cbn [forallb].
  intros H. apply andb_true_iff in H. destruct H as [H1 H2].
  unfold contains in *. cbn [existsb]. rewrite (IH H2), orb_false_r.
  apply N.eqb_neq. intros <-. discriminate.
Qed.

Lemma int_of_digits_from_nonneg (s : str) (acc : Z) :
  (0 <= acc)%Z ->
  (0 <= fold_left (fun a c => (10 * a + Z.of_N (c - 0x30))%Z) s acc)%Z.
Proof.
  revert acc. induction s as [|c t IH]; cbn [fold_left]; intros acc H;
    [exact H|].
  apply IH. lia.
Qed.

Lemma int_of_digits_nonneg (s : str) : (0 <= int_of_digits s)%Z.
Proof. apply int_of_digits_from_nonneg. lia. Qed.

Ltac decide_ranges :=
  repeat match goal with
         | |- context [N.leb ?a ?b] => destruct (N.leb_spec a b)
         | |- context [N.eqb ?a ?b] => destruct (N.eqb_spec a b)
         end;
  cbn; try reflexivity; try lia.

Lemma digit_plain (c : char) : is_digit c = true -> plain c.
Proof.
  unfold is_digit, in_range, plain, is_linebreak. intros H.
  apply andb_true_iff in H. destruct H as [H1 H2].
  apply N.leb_le in H1, H2. split; [lia|]. unfold in_range. decide_ranges.
Qed.

Lemma plain_space : plain (chr " ").
Proof. split; [cbn; lia|reflexivity]. Qed.

Lemma plain_not_CR (c : char) : plain c -> (c =? 0x0D) = false.
Proof.
  intros [_ H]. destruct (N.eqb_spec c 0x0D) as [->|]; [discriminate|reflexivity].
Qed.

Lemma Forall_drop_while (P : char -> Prop) (p : char -> bool) (s : str) :
  Forall P s -> Forall P (drop_while p s).
Proof.
  induction 1 as [|c t Hc Ht IH]; cbn; [constructor|].
  destruct (p c); [exact IH|now constructor].
Qed.

Lemma Forall_take_while (P : char -> Prop) (p : char -> bool) (s : str) :
  Forall P s -> Forall P (take_while p s).
Proof.
  induction 1 as [|c t Hc Ht IH]; cbn; [constructor|].
  destruct (p c); now constructor.
Qed.

Lemma Forall_rstrip (P : char -> Prop) (s : str) :
  Forall P s -> Forall P (rstrip s).
Proof.
  intros H. unfold rstrip. now apply Forall_rev, Forall_drop_while, Forall_rev.
Qed.

Lemma Forall_strip (P : char -> Prop) (s : str) :
  Forall P s -> Forall P (strip s).
Proof. intros H. now apply Forall_rstrip, Forall_drop_while. Qed.

Lemma Forall_collapse_ws (P : char -> Prop) (s : str) (in_run : bool) :
  P (chr " ") -> Forall P s -> Forall P (collapse_ws_from in_run s).
Proof.
  intros Hsp H. revert in_run.
  induction H as [|c t Hc Ht IH]; intros in_run; cbn; [constructor|].
  destruct (is_space c), in_run; try constructor; auto.
Qed.

Lemma join_snoc (sep : str) (c : list str) (x : str) :
  exists pre, join sep (c ++ [x]) = pre ++ x.
Proof.
  induction c as [|a t IH].
  - now exists [].
  - destruct IH as (pre & IH). exists (a ++ sep ++ pre).
    cbn [app join]. destruct (t ++ [x]) eqn:E.
    + now destruct t.
    + rewrite IH. now rewrite <- !app_assoc.
Qed.

(** [str.splitlines] gives plain lines for a text of latin-1 characters. *)
Lemma splitlines_from_plain (n : nat) (s cur : str) (open : bool) :
  (List.length s <= n)%nat ->
  Forall (fun c => c <= 255) s -> Forall plain cur ->
  Forall (Forall plain) (splitlines_from cur open s).
Proof.
  revert s cur open. induction n as [|n IH]; intros s cur open Hn Hs Hcur;
    assert (Hr : Forall plain (rev cur)) by now apply Forall_rev.
  - destruct s; [|cbn in Hn; lia].
    cbn. destruct open; repeat constructor. exact Hr.
  - destruct s as [|c t].
    + cbn. destruct open; repeat constructor. exact Hr.
    + inversion Hs as [|? ? Hc Ht]; subst. cbn in Hn.
      cbn [splitlines_from]. destruct (c =? 0x0D).
      * destruct t as [|c' t'].
        -- repeat constructor. exact Hr.
        -- inversion Ht as [|? ? Hc' Ht']; subst. cbn in Hn.
           destruct (c' =? 0x0A); (constructor; [exact Hr|]);
             apply IH; try constructor; auto; cbn; lia.
      * destruct (is_linebreak c) eqn:Ec.
        -- constructor; [exact Hr|]. apply IH; [lia|exact Ht|constructor].
        -- apply IH; [lia|exact Ht|]. constructor; [now split|exact Hcur].
Qed.

Lemma splitlines_from_line (l rest cur : str) (open : bool) :
  Forall plain l ->
  splitlines_from cur open (l ++ [0x0A] ++ rest)
  = (rev cur ++ l) :: splitlines_from [] false rest.
Proof.
  intros H. revert cur open. induction H as [|c t Hc Ht IH]; intros cur open.
  - cbn. now rewrite List.app_nil_r.
  - cbn [app splitlines_from]. rewrite (plain_not_CR c Hc).
    destruct Hc as [_ Hc]. rewrite Hc.
    cbn [app] in IH. rewrite IH. cbn [rev]. now rewrite <- app_assoc.
Qed.

Lemma splitlines_terminated (lines : list str) :
  Forall (Forall plain) lines -> splitlines (terminated [0x0A] lines) = lines.
Proof.
  unfold splitlines, terminated.
  induction 1 as [|l t Hl Ht IH]; [reflexivity|].
  cbn [flat_map]. rewrite <- app_assoc.
  now rewrite splitlines_from_line, IH.
Qed.

(** ** Encoding / line inspector *)

Lemma label_cases (crlf lf cr : Z) :
  let l : string :=
    (if truthy crlf && negb (truthy lf) && negb (truthy cr) then "CRLF"
     else if truthy lf && negb (truthy crlf) && negb (truthy cr) then "LF"
     else if truthy cr && negb (truthy crlf) && negb (truthy lf) then "CR"
     else if truthy crlf || truthy lf || truthy cr then "MIXED"
     else "NONE")%string in
  (l = "MIXED"%string <-> (1 < styles_present crlf lf cr)%nat) /\
  (l = "NONE"%string <-> styles_present crlf lf cr = 0%nat) /\
  (l = "CRLF"%string <-> crlf <> 0%Z /\ lf = 0%Z /\ cr = 0%Z) /\
  (l = "LF"%string <-> crlf = 0%Z /\ lf <> 0%Z /\ cr = 0%Z) /\
  (l = "CR"%string <-> crlf = 0%Z /\ lf = 0%Z /\ cr <> 0%Z).
Proof.
  unfold styles_present, truthy.
  destruct (Z.eqb_spec crlf 0), (Z.eqb_spec lf 0), (Z.eqb_spec cr 0);
    cbn; repeat split; intros; try discriminate; try lia;
    try tauto; try (exfalso; intuition congruence).
Qed.

(** C7.  For every byte buffer the label of its line endings is one of
    CRLF, LF, CR, MIXED and NONE, and it is read off the three counts
    alone: MIXED exactly when more than one style occurs, NONE exactly when
    none occurs, and otherwise the one style that occurs; of the three
    situations (several styles, none, exactly one) exactly one holds. *)
Theorem detect_line_endings_label_exclusive (data : list byte) :
  let '(crlf, lf, cr) := detect_eol_stats data in
  let l := detect_line_endings_label data in
  In l ["CRLF"; "LF"; "CR"; "MIXED"; "NONE"]%string /\
  (l = "MIXED"%string <-> (1 < styles_present crlf lf cr)%nat) /\
  (l = "NONE"%string <-> styles_present crlf lf cr = 0%nat) /\
  (l = "CRLF"%string <-> crlf <> 0%Z /\ lf = 0%Z /\ cr = 0%Z) /\
  (l = "LF"%string <-> crlf = 0%Z /\ lf <> 0%Z /\ cr = 0%Z) /\
  (l = "CR"%string <-> crlf = 0%Z /\ lf = 0%Z /\ cr <> 0%Z) /\
  (styles_present crlf lf cr = 1%nat <->
     l = "CRLF"%string \/ l = "LF"%string \/ l = "CR"%string) /\
  ((1 < styles_present crlf lf cr)%nat /\ l = "MIXED"%string
   \/ styles_present crlf lf cr = 0%nat /\ l = "NONE"%string
   \/ styles_present crlf lf cr = 1%nat /\ l <> "MIXED"%string
      /\ l <> "NONE"%string).
Proof.
  unfold detect_line_endings_label.
  destruct (detect_eol_stats data) as [[crlf lf] cr].
  pose proof (label_cases crlf lf cr) as H. cbv zeta in *.
  split; [|split; [apply H|split; [apply H|split; [apply H|split;
    [apply H|split; [apply H|]]]]]].
  - cbn [In]. unfold truthy.
    destruct (Z.eqb crlf 0), (Z.eqb lf 0), (Z.eqb cr 0); cbn; tauto.
  - clear H. unfold styles_present, truthy.
    destruct (Z.eqb crlf 0), (Z.eqb lf 0), (Z.eqb cr 0); cbn;
      (split; [split; [intros; try lia; tauto
                      |intros [?|[?|?]]; try discriminate; reflexivity]|]);
      try (left; split; [lia|reflexivity]);
      try (right; left; split; reflexivity);
      try (right; right; split; [reflexivity|split; discriminate]).
Qed.

Lemma analyze_file_label (data : list byte) :
  label (eol (analyze_file data)) = detect_line_endings_label data.
Proof.
  unfold analyze_file, detect_line_endings_label.
  destruct (detect_eol_stats data) as [[crlf lf] cr]. cbn.
  destruct (truthy crlf), (truthy lf), (truthy cr); reflexivity.
Qed.

Lemma count_single_step (c b : byte) (t : list byte) :
  count_from 0 [c] (b :: t)
  = ((if Byte.eqb c b then 1 else 0) + count_from 0 [c] t)%nat.
Proof.
  cbn [count_from is_prefix List.length Nat.pred].
  rewrite andb_true_r. now destruct (Byte.eqb c b).
Qed.

(** Each CR LF holds one CR and one LF of its own. *)
Lemma count_crlf_le (n : nat) (data : list byte) :
  (List.length data <= n)%nat ->
  (count_from 0 CRLF_bytes data <= count_from 0 LF_bytes data)%nat
  /\ (count_from 0 CRLF_bytes data <= count_from 0 CR_bytes data)%nat.
Proof.
  revert data. induction n as [|n IH]; intros data Hn.
  - destruct data; [cbn; lia|cbn in Hn; lia].
  - destruct data as [|b t]; [cbn; lia|]. cbn in Hn.
    unfold LF_bytes, CR_bytes. rewrite !count_single_step.
    unfold CRLF_bytes. cbn [count_from is_prefix List.length Nat.pred].
    destruct (Byte.eqb x0d b) eqn:Eb; cbn [andb].
    + destruct t as [|b' t'].
      * cbn. lia.
      * destruct (Byte.eqb x0a b') eqn:Eb'; cbn [andb].
        -- apply Byte.byte_dec_bl in Eb, Eb'. subst b b'.
           rewrite !count_single_step. cbn [count_from]. cbn in Hn.
           destruct (IH t') as [H1 H2]; [lia|].
           fold CRLF_bytes. unfold LF_bytes, CR_bytes in *. cbn. lia.
        -- destruct (IH (b' :: t')) as [H1 H2]; [cbn in Hn |- *; lia|].
           fold CRLF_bytes. unfold LF_bytes, CR_bytes in *.
           destruct (Byte.eqb x0a b); lia.
    + destruct (IH t) as [H1 H2]; [lia|].
      fold CRLF_bytes. unfold LF_bytes, CR_bytes in *.
      destruct (Byte.eqb x0a b); lia.
Qed.

(** The three counts of a buffer are not negative. *)
Lemma detect_eol_stats_nonneg (data : list byte) :
  let '(crlf, lf, cr) := detect_eol_stats data in
  (0 <= crlf)%Z /\ (0 <= lf)%Z /\ (0 <= cr)%Z.
Proof.
  unfold detect_eol_stats, bytes_count.
  destruct (count_crlf_le _ data (Nat.le_refl _)) as [H1 H2]. lia.
Qed.

Lemma decode_ascii_some (data : list byte) (s : str) :
  decode_ascii data = Some s -> s = decode_ascii_replace data.
Proof.
  revert s. induction data as [|b t IH]; cbn; intros s H.
  - now inversion H.
  - destruct (Byte.to_N b <=? 127); [|discriminate].
    destruct (decode_ascii t) as [s'|]; [|discriminate].
    inversion H. now rewrite (IH s' eq_refl).
Qed.

Lemma safe_decode_replace (data : list byte) :
  safe_decode data = decode_ascii_replace data.
Proof.
  unfold safe_decode. destruct (decode_ascii data) eqn:E; [|reflexivity].
  now apply decode_ascii_some.
Qed.

Lemma non_ascii_positions_from_spec (data : list byte) (i p : nat) :
  In p (non_ascii_positions_from i data) <->
  exists b, (i <= p)%nat /\ nth_error data (p - i) = Some b /\ 127 < Byte.to_N b.
Proof.
  revert i. induction data as [|b t IH]; intros i; cbn.
  - split; [tauto|]. intros (b & _ & H & _). now destruct (p - i)%nat.
  - assert (step : (exists b0, (S i <= p)%nat /\
                      nth_error t (p - S i) = Some b0 /\ 127 < Byte.to_N b0)
                   <-> (exists b0, (i <= p)%nat /\ p <> i /\
                      nth_error (b :: t) (p - i) = Some b0 /\ 127 < Byte.to_N b0)).
    { split; intros (b0 & H1 & H2).
      - exists b0. split; [lia|]. split; [lia|].
        replace (p - i)%nat with (S (p - S i)) by lia. exact H2.
      - destruct H2 as (H2 & H3). exists b0. split; [lia|].
        replace (p - i)%nat with (S (p - S i)) in H3 by lia. exact H3. }
    destruct (N.ltb_spec 127 (Byte.to_N b)) as [Hb|Hb]; cbn [In];
      rewrite IH, step; split.
    + intros [<-|(b0 & H1 & _ & H2)].
      * exists b. rewrite Nat.sub_diag. cbn. auto.
      * exists b0. auto.
    + intros (b0 & H1 & H2 & H3).
      destruct (Nat.eq_dec p i) as [->|Hn]; [now left|right].
      exists b0. auto.
    + intros (b0 & H1 & _ & H2). exists b0. auto.
    + intros (b0 & H1 & H2 & H3).
      destruct (Nat.eq_dec p i) as [->|Hn].
      * rewrite Nat.sub_diag in H2. cbn in H2. inversion H2. subst. lia.
      * exists b0. auto.
Qed.

Lemma non_ascii_positions_length (data : list byte) (i : nat) :
  List.length (non_ascii_positions_from i data)
  = List.length (filter (fun b => 127 <? Byte.to_N b) data).
Proof.
  revert i. induction data as [|b t IH]; intros i; cbn; [reflexivity|].
  destruct (127 <? Byte.to_N b); cbn; now rewrite IH.
Qed.

(** C3 as it stands fails: a byte above 127 is replaced by U+FFFD, so two
    buffers decode to the same text and no encoder gives the bytes back. *)
Lemma safe_decode_not_lossless :
  safe_decode [xc8] = [REPLACEMENT]
  /\ splitlines (safe_decode [x41; xc8; x0a; xe9])
     = [[0x41; REPLACEMENT]; [REPLACEMENT]]
  /\ safe_decode [xc8] = safe_decode [xe9]
  /\ ~ lossless safe_decode.
Proof.
  repeat split; try reflexivity.
  intros [encode H].
  pose proof (H [xc8]) as H1. pose proof (H [xe9]) as H2.
  change (safe_decode [xe9]) with (safe_decode [xc8]) in H2.
  rewrite H1 in H2. discriminate.
Qed.

(** C3, amended.  For every byte buffer the decoding of the analysis path
    never fails and keeps one character per byte: a byte up to 127 is
    decoded to its own code point and a byte above 127 to U+FFFD (so its
    value is lost).  The bytes above 127 are counted on the raw buffer and
    the first 10 of their positions are the sample. *)
Theorem safe_decode_replaces_non_ascii (data : list byte) :
  safe_decode data
  = map (fun b => if Byte.to_N b <=? 127 then Byte.to_N b else REPLACEMENT) data
  /\ List.length (safe_decode data) = List.length data
  /\ (forall i b, nth_error data i = Some b ->
        nth_error (safe_decode data) i
        = Some (if Byte.to_N b <=? 127 then Byte.to_N b else REPLACEMENT))
  /\ non_ascii_count (analyze_file data)
     = List.length (filter (fun b => 127 <? Byte.to_N b) data)
  /\ non_ascii_sample (analyze_file data) = firstn 10 (non_ascii_positions data)
  /\ (forall p, In p (non_ascii_positions data) <->
        exists b, nth_error data p = Some b /\ 127 < Byte.to_N b)
  /\ text (analyze_file data)
     = analyze_text_lines (splitlines (safe_decode data)).
Proof.
  rewrite safe_decode_replace. unfold decode_ascii_replace.
  split; [reflexivity|]. split; [apply length_map|].
  split; [intros i b H; rewrite nth_error_map, H; reflexivity|].
  unfold analyze_file. destruct (detect_eol_stats data) as [[c l] r]. cbn.
  split; [apply non_ascii_positions_length|]. split; [reflexivity|].
  split; [|now rewrite safe_decode_replace].
  intros p. unfold non_ascii_positions.
  rewrite non_ascii_positions_from_spec, Nat.sub_0_r.
  split; intros (b & H); exists b; [tauto|]. split; [lia|tauto].
Qed.

Lemma decode_encode_latin1 (s : str) :
  Forall (fun c => c <= 255) s -> decode_latin1 (encode_latin1 s) = s.
Proof.
  induction 1 as [|c t Hc Ht IH]; [reflexivity|]. cbn [encode_latin1].
  destruct (Byte.of_N c) as [b|] eqn:E.
  - cbn. apply Byte.to_of_N in E. unfold decode_latin1 in IH.
    now rewrite E, IH.
  - apply Byte.of_N_None_iff in E. lia.
Qed.

Lemma read_lines_plain (data : list byte) :
  Forall (Forall plain) (splitlines (read_text_latin1 data)).
Proof.
  unfold splitlines.
  apply (splitlines_from_plain _ _ [] false (Nat.le_refl _)); [|constructor].
  unfold read_text_latin1.
  assert (H : Forall (fun c => c <= 255) (decode_latin1 data)).
  { unfold decode_latin1. apply Forall_forall. intros c Hc.
    apply in_map_iff in Hc. destruct Hc as (b & <- & _).
    apply Byte.to_N_bounded. }
  revert H. generalize (decode_latin1 data). intros s.
  remember (List.length s) as m eqn:Em.
  assert (Hm : (List.length s <= m)%nat) by lia. clear Em.
  revert s Hm. induction m as [|m IH]; intros s Hm H.
  - destruct s; [constructor|cbn in Hm; lia].
  - destruct s as [|c t]; [constructor|].
    inversion H as [|? ? Hc Ht]; subst. cbn in Hm.
    cbn [universal_newlines]. destruct (c =? 0x0D).
    + destruct t as [|c' t']; [repeat constructor; lia|].
      inversion Ht as [|? ? Hc' Ht']; subst. cbn in Hm.
      destruct (c' =? 0x0A); (constructor; [lia|]); apply IH; auto; cbn; lia.
    + constructor; [exact Hc|]. apply IH; [lia|exact Ht].
Qed.

(** ** Line analyzer *)

(** C2 as it stands fails: on the example the stop-code table has the
    one entry M02; the pattern for M2 does not match the token M02. *)
Lemma example_stop_codes_M02_only :
  stop_codes (analyze_text_lines example_program)
    <> [("M2", [3%nat]); ("M02", [3%nat])]%string
  /\ ~ In "M2"%string
          (map fst (stop_codes (analyze_text_lines example_program)))
  /\ search_word (lit "M2") (lit "M02") = false.
Proof.
  split; [|split].
  - vm_compute. discriminate.
  - vm_compute. intros [H|[]]. discriminate.
  - reflexivity.
Qed.

(** C2, amended.  For the lines ["%", "N10 G01 X1.23456 Y2.0", "M02"] the
    report has starts_with_percent true, ends_with_M02 true,
    precision_max_places 5, precision_over_4_count 1, and the stop-code
    table {"M02": [3]}: the token on line 3 is matched by the pattern of M02
    alone. *)
Theorem analyze_example :
  let r := analyze_text_lines example_program in
  starts_with_percent r = true /\ ends_with_M02 r = true
  /\ precision_max_places r = 5%nat /\ precision_over_4_count r = 1%nat
  /\ stop_codes r = [("M02"%string, [3%nat])].
Proof. vm_compute. repeat split. Qed.

(** C9 as it stands fails: for no lines at all one boolean flag of the
    report, block_numbers_monotonic, is true. *)
Lemma analyze_empty_monotonic_flag :
  block_numbers_monotonic (analyze_text_lines []) = true
  /\ block_numbers_monotonic (text (analyze_file [])) = true.
Proof. split; reflexivity. Qed.

(** C9, amended.  For an empty input the report has total_lines 0, every
    boolean flag false except block_numbers_monotonic, which is true, every
    list and mapping empty, the precision statistics 0 and no suspicion
    record; the report of the empty file adds 0 bytes, the label NONE and no
    byte above 127. *)
Theorem analyze_empty :
  analyze_text_lines []
  = {| total_lines := 0; starts_with_percent := false; ends_with_M02 := false;
       has_block_numbers := false; block_numbers_monotonic := true;
       max_line_length := 0; has_semicolon_comments := false;
       stray_percent_positions := []; stop_codes := [];
       precision_max_places := 0; precision_over_4_count := 0;
       suspect_lines := [] |}
  /\ splitlines (safe_decode []) = []
  /\ analyze_file []
     = {| bytes := 0;
          eol := {| label := "NONE"; eol_crlf := 0; eol_lf := 0; eol_cr := 0 |};
          non_ascii_count := 0; non_ascii_sample := [];
          text := analyze_text_lines [] |}.
Proof. repeat split. Qed.

Lemma strictly_increasing_nil : strictly_increasing [].
Proof. intros k a b H. now destruct k. Qed.

Lemma strictly_increasing_one (a : Z) : strictly_increasing [a].
Proof. intros k x y _ H. now destruct k. Qed.

Lemma strictly_increasing_cons (a b : Z) (t : list Z) :
  strictly_increasing (a :: b :: t)
  <-> (a < b)%Z /\ strictly_increasing (b :: t).
Proof.
  split.
  - intros H. split.
    + now apply (H 0%nat).
    + intros k x y Hx Hy. now apply (H (S k)).
  - intros [Hab Ht] [|k] x y Hx Hy.
    + cbn in Hx, Hy. now inversion Hx; inversion Hy; subst.
    + now apply (Ht k).
Qed.

Lemma block_numbers_nonneg (lines : list str) :
  Forall (fun n => (0 <= n)%Z) (block_numbers lines).
Proof.
  induction lines as [|ln rest IH]; cbn; [constructor|].
  destruct (match_block_number ln); [constructor|]; auto.
  apply int_of_digits_nonneg.
Qed.

Lemma no_block_numbers (lines : list str) :
  existsb has_block_number lines = false -> block_numbers lines = [].
Proof.
  induction lines as [|ln rest IH]; [reflexivity|].
  cbn. unfold has_block_number at 1.
  destruct (match_block_number ln); [discriminate|exact IH].
Qed.

(** The scan from [last_n] answers whether [last_n] followed by the block
    numbers still to come is strictly increasing. *)
Lemma monotonic_scan_spec (lines : list str) (last_n : Z) :
  monotonic_scan last_n lines = true
  <-> strictly_increasing (last_n :: block_numbers lines).
Proof.
  revert last_n. induction lines as [|ln rest IH]; intros last_n; cbn.
  - split; [intros _; apply strictly_increasing_one|reflexivity].
  - destruct (match_block_number ln) as [ds|]; [|apply IH].
    rewrite strictly_increasing_cons.
    destruct (Z.leb_spec (int_of_digits ds) last_n) as [Hle|Hlt].
    + split; [discriminate|]. intros [H _]. lia.
    + rewrite IH. tauto.
Qed.

(** *** The scanner of block numbers and the words of the specification *)

Lemma digit_iff (c : char) : is_digit c = true <-> is_decimal_digit c.
Proof.
  unfold is_digit, in_range, is_decimal_digit. split.
  - intros H. apply andb_true_iff in H. destruct H as (H1 & H2).
    apply N.leb_le in H1, H2.
    assert (E : c = 48 \/ c = 49 \/ c = 50 \/ c = 51 \/ c = 52 \/ c = 53
                \/ c = 54 \/ c = 55 \/ c = 56 \/ c = 57) by lia.
    cbn. intuition (subst; tauto).
  - cbn. intros H.
    repeat (destruct H as [<-|H]; [reflexivity|]). destruct H.
Qed.

Lemma digit_value_spec (c : char) :
  is_decimal_digit c -> Z.of_N (c - 0x30) = digit_value c.
Proof.
  unfold is_decimal_digit. cbn. intros H.
  repeat (destruct H as [<-|H]; [reflexivity|]). destruct H.
Qed.

Lemma digits_forallb (ds : str) :
  forallb is_digit ds = true <-> Forall is_decimal_digit ds.
Proof.
  rewrite forallb_forall, Forall_forall.
  split; intros H c Hc; apply digit_iff, H, Hc.
Qed.

Lemma int_of_digits_from_value (ds : str) (acc : Z) :
  Forall is_decimal_digit ds ->
  fold_left (fun a c => (10 * a + Z.of_N (c - 0x30))%Z) ds acc
  = (acc * 10 ^ Z.of_nat (List.length ds) + decimal_value ds)%Z.
Proof.
  intros H. revert acc. induction H as [|d t Hd Ht IH]; intros acc.
  - cbn. lia.
  - cbn [fold_left decimal_value List.length]. rewrite IH.
    rewrite (digit_value_spec d Hd), Nat2Z.inj_succ, Z.pow_succ_r by lia.
    ring.
Qed.

(** [int] of a decimal numeral is the number that it denotes. *)
Lemma int_of_digits_value (ds : str) :
  Forall is_decimal_digit ds -> int_of_digits ds = decimal_value ds.
Proof.
  intros H. unfold int_of_digits. rewrite int_of_digits_from_value by exact H.
  lia.
Qed.

(** What [re.match(r'\s*N(\d+)', ln)] finds is a block number in the
    words of the specification, with the value that [int] gives. *)
Lemma match_block_number_carries (ln ds : str) :
  match_block_number ln = Some ds ->
  carries_block_number ln (int_of_digits ds).
Proof.
  unfold match_block_number. intros H.
  pose proof (take_drop_app is_space ln) as Eln.
  pose proof (take_while_forallb is_space ln) as Hws.
  destruct (drop_while is_space ln) as [|c t] eqn:Ed; [discriminate|].
  destruct (c =? chr "N") eqn:Ec; [|discriminate].
  apply N.eqb_eq in Ec. subst c.
  pose proof (take_drop_app is_digit t) as Et.
  pose proof (take_while_forallb is_digit t) as Hds.
  assert (Eds : take_while is_digit t = ds /\ ds <> []).
  { destruct (take_while is_digit t); [discriminate|].
    injection H as <-. split; [reflexivity|discriminate]. }
  destruct Eds as (Eds & Hne). rewrite Eds in Et, Hds.
  apply digits_forallb in Hds.
  exists (take_while is_space ln), ds, (drop_while is_digit t).
  split; [rewrite Et; symmetry; exact Eln|]. split.
  { apply Forall_forall. intros c Hc. rewrite forallb_forall in Hws.
    now apply Hws. }
  split; [exact Hne|]. split; [exact Hds|]. split.
  - intros c rest' Hr Hc. apply drop_while_head in Hr.
    apply digit_iff in Hc. congruence.
  - now apply int_of_digits_value.
Qed.

(** A block number in the words of the specification is what the scanner
    finds. *)
Lemma carries_match (ln : str) (n : Z) :
  carries_block_number ln n ->
  exists ds, match_block_number ln = Some ds /\ int_of_digits ds = n.
Proof.
  intros (ws & ds & rest & -> & Hws & Hne & Hds & Hrest & ->).
  exists ds. split; [|now apply int_of_digits_value].
  unfold match_block_number.
  assert (Hws' : forallb is_space ws = true).
  { apply forallb_forall. rewrite Forall_forall in Hws. exact Hws. }
  rewrite (drop_while_run is_space ws (ds ++ rest) (chr "N") Hws' eq_refl).
  change (chr "N" =? chr "N") with true. cbv iota.
  assert (Et : take_while is_digit (ds ++ rest) = ds).
  { apply digits_forallb in Hds. destruct rest as [|c rest'].
    - rewrite List.app_nil_r. now apply take_while_all.
    - apply take_while_run; [exact Hds|].
      destruct (is_digit c) eqn:E; [|reflexivity].
      apply digit_iff in E. now destruct (Hrest c rest' eq_refl). }
  rewrite Et. destruct ds; [congruence|reflexivity].
Qed.

Lemma carries_functional (ln : str) (n m : Z) :
  carries_block_number ln n -> carries_block_number ln m -> n = m.
Proof.
  intros Hn Hm. apply carries_match in Hn, Hm.
  destruct Hn as (ds & E1 & <-), Hm as (ds' & E2 & <-). congruence.
Qed.

Lemma no_match_carries_none (ln : str) :
  match_block_number ln = None -> carries_no_block_number ln.
Proof.
  intros H n Hn. apply carries_match in Hn. destruct Hn as (ds & E & _).
  congruence.
Qed.

Lemma has_block_number_carries (ln : str) :
  has_block_number ln = true <-> exists n, carries_block_number ln n.
Proof.
  unfold has_block_number. split.
  - destruct (match_block_number ln) as [ds|] eqn:E; [|discriminate].
    intros _. exists (int_of_digits ds).
    now apply match_block_number_carries.
  - intros (n & Hn). apply carries_match in Hn.
    destruct Hn as (ds & -> & _). reflexivity.
Qed.

Lemma has_no_block_number_carries (ln : str) :
  has_block_number ln = false <-> carries_no_block_number ln.
Proof.
  split.
  - intros H n Hn.
    assert (has_block_number ln = true)
      by (apply has_block_number_carries; now exists n).
    congruence.
  - intros H. destruct (has_block_number ln) eqn:E; [|reflexivity].
    apply has_block_number_carries in E. destruct E as (n & Hn).
    now destruct (H n).
Qed.

Lemma carries_nonneg (ln : str) (n : Z) :
  carries_block_number ln n -> (0 <= n)%Z.
Proof.
  intros H. apply carries_match in H. destruct H as (ds & _ & <-).
  apply int_of_digits_nonneg.
Qed.

(** The scan from [last_n], in the words of the specification: the first
    block number to come is above [last_n], and every later one is above
    the one before it. *)
Lemma monotonic_scan_in_words (lines : list str) (last_n : Z) :
  monotonic_scan last_n lines = true
  <-> first_number_above last_n lines /\ each_number_above_previous lines.
Proof.
  revert last_n. induction lines as [|ln rest IH]; intros last_n.
  - cbn [monotonic_scan]. split; [intros _|reflexivity]. split.
    + intros mid lj post nj E. now destruct mid.
    + intros pre li mid lj post ni nj E. now destruct pre.
  - cbn [monotonic_scan].
    destruct (match_block_number ln) as [ds|] eqn:Em.
    + pose proof (match_block_number_carries ln ds Em) as Hc.
      assert (Hfirst : first_number_above last_n (ln :: rest)
                       <-> (last_n < int_of_digits ds)%Z).
      { split.
        - intros H. apply (H [] ln rest); [reflexivity|constructor|exact Hc].
        - intros H mid lj post nj E Hmid Hj. destruct mid as [|x mid'].
          + cbn in E. injection E as <- _.
            now rewrite (carries_functional ln nj _ Hj Hc).
          + cbn in E. injection E as <- _. inversion Hmid as [|? ? Hx _].
            now destruct (Hx _ Hc). }
      assert (Heach : each_number_above_previous (ln :: rest)
                      <-> first_number_above (int_of_digits ds) rest
                          /\ each_number_above_previous rest).
      { split.
        - intros H. split.
          + intros mid lj post nj E Hmid Hj.
            apply (H [] ln mid lj post); [now rewrite E|exact Hc|exact Hj
                                          |exact Hmid].
          + intros pre li mid lj post ni nj E.
            apply (H (ln :: pre) li mid lj post). now rewrite E.
        - intros (H1 & H2) pre li mid lj post ni nj E Hi Hj Hmid.
          destruct pre as [|x pre'].
          + cbn in E. injection E as <- E.
            rewrite (carries_functional ln ni _ Hi Hc).
            now apply (H1 mid lj post).
          + cbn in E. injection E as <- E.
            now apply (H2 pre' li mid lj post). }
      rewrite Hfirst, Heach.
      destruct (Z.leb_spec (int_of_digits ds) last_n) as [Hle|Hlt].
      * split; [discriminate|]. intros (H & _). lia.
      * rewrite IH. tauto.
    + pose proof (no_match_carries_none ln Em) as Hc.
      assert (Hfirst : first_number_above last_n (ln :: rest)
                       <-> first_number_above last_n rest).
      { split.
        - intros H mid lj post nj E Hmid Hj.
          apply (H (ln :: mid) lj post); [now rewrite E|now constructor
                                          |exact Hj].
        - intros H mid lj post nj E Hmid Hj. destruct mid as [|x mid'].
          + cbn in E. injection E as <- _. now destruct (Hc nj).
          + cbn in E. injection E as <- E. inversion Hmid; subst.
            now apply (H mid' lj post). }
      assert (Heach : each_number_above_previous (ln :: rest)
                      <-> each_number_above_previous rest).
      { split.
        - intros H pre li mid lj post ni nj E.
          apply (H (ln :: pre) li mid lj post). now rewrite E.
        - intros H pre li mid lj post ni nj E Hi Hj Hmid.
          destruct pre as [|x pre'].
          + cbn in E. injection E as <- _. now destruct (Hc ni).
          + cbn in E. injection E as <- E.
            now apply (H pre' li mid lj post). }
      rewrite Hfirst, Heach. apply IH.
Qed.

Lemma no_line_carries (lines : list str) :
  existsb has_block_number lines = false
  <-> Forall carries_no_block_number lines.
Proof.
  induction lines as [|ln rest IH]; cbn [existsb].
  - split; [constructor|reflexivity].
  - rewrite orb_false_iff, has_no_block_number_carries, IH. split.
    + intros (H1 & H2). now constructor.
    + intros H. now inversion H.
Qed.

(** C6.  The flag block_numbers_monotonic of the report is true exactly
    when every line that carries a block number (a line that, after
    leading white space, begins with N followed by one or more digits)
    has a numeric value strictly greater than that of the previous line
    that carries one; in particular it is true when no line carries a
    block number.  The scan that stops at the first violation computes
    this predicate.  The block numbers that the scan reads are those of
    the specification: a line carries the number [n] exactly when the
    scanner finds a numeral on it whose [int] is [n]. *)
Theorem block_numbers_monotonic_iff (lines : list str) :
  (block_numbers_monotonic (analyze_text_lines lines) = true
   <-> each_number_above_previous lines)
  /\ (Forall carries_no_block_number lines ->
      block_numbers_monotonic (analyze_text_lines lines) = true)
  /\ (forall ln n,
        carries_block_number ln n
        <-> exists ds, match_block_number ln = Some ds
                       /\ int_of_digits ds = n)
  /\ (has_block_numbers (analyze_text_lines lines) = false
      <-> Forall carries_no_block_number lines)
  /\ (block_numbers_monotonic (analyze_text_lines lines) = true
      <-> strictly_increasing (block_numbers lines))
  /\ (has_block_numbers (analyze_text_lines lines) = false ->
      block_numbers lines = []
      /\ block_numbers_monotonic (analyze_text_lines lines) = true).
Proof.
  cbn [block_numbers_monotonic has_block_numbers analyze_text_lines].
  assert (W : monotonic_scan (-1) lines = true
              <-> each_number_above_previous lines).
  { rewrite monotonic_scan_in_words. split; [tauto|]. intros H.
    split; [|exact H]. intros mid lj post nj _ _ Hj.
    apply carries_nonneg in Hj. lia. }
  assert (E : monotonic_scan (-1) lines = true
              <-> strictly_increasing (block_numbers lines)).
  { rewrite monotonic_scan_spec.
    pose proof (block_numbers_nonneg lines) as Hn.
    destruct (block_numbers lines) as [|b t].
    - split; intros _; [apply strictly_increasing_nil
                       |apply strictly_increasing_one].
    - rewrite strictly_increasing_cons. inversion Hn; subst.
      split; [tauto|]. intros H. split; [lia|exact H]. }
  split; [exact W|]. split.
  { intros H. apply W. intros pre li mid lj post ni nj Hl Hi _ _.
    rewrite Forall_forall in H.
    assert (Hin : In li lines)
      by (rewrite Hl; apply in_or_app; right; now left).
    now destruct (H li Hin ni). }
  split.
  { intros ln n. split; [apply carries_match|].
    intros (ds & Hm & <-). now apply match_block_number_carries. }
  split; [apply no_line_carries|].
  split; [exact E|].
  intros Hnone.
  pose proof (no_block_numbers lines Hnone) as Hb.
  split; [exact Hb|]. apply E. rewrite Hb. apply strictly_increasing_nil.
Qed.

(** ** Normalizer *)

Lemma numbered_unfold (n : Z) (s : str) :
  numbered n s = chr "N" :: str_of_int n ++ chr " " :: s.
Proof. reflexivity. Qed.

Lemma numbered_has_block_number (n : Z) (s : str) :
  (0 <= n)%Z -> has_block_number (numbered n s) = true.
Proof.
  intros H. destruct (str_of_int_nonneg n H) as [Hne Hd].
  rewrite numbered_unfold. unfold has_block_number, match_block_number.
  cbn [drop_while]. change (is_space (chr "N")) with false.
  cbv iota. rewrite N.eqb_refl.
  destruct (str_of_int n) as [|d ds]; [congruence|].
  cbn [forallb] in Hd. apply andb_true_iff in Hd. destruct Hd as [Hd _].
  cbn [app take_while]. now rewrite Hd.
Qed.

Lemma numbered_tight (n : Z) (s : str) : ends_clean s -> tight (numbered n s).
Proof.
  intros H. split; [reflexivity|].
  rewrite numbered_unfold.
  replace (chr "N" :: str_of_int n ++ chr " " :: s)
    with ((chr "N" :: str_of_int n ++ [chr " "]) ++ s).
  - now apply ends_clean_app.
  - cbn [app]. now rewrite <- app_assoc.
Qed.

Lemma numbered_no_semicolon (n : Z) (s : str) :
  (0 <= n)%Z -> contains (chr ";") s = false ->
  contains (chr ";") (numbered n s) = false.
Proof.
  intros Hn Hs. destruct (str_of_int_nonneg n Hn) as [_ Hd].
  rewrite numbered_unfold.
  change (chr "N" :: str_of_int n ++ chr " " :: s)
    with ([chr "N"] ++ str_of_int n ++ [chr " "] ++ s).
  rewrite !contains_app, Hs, (digits_no_semicolon _ Hd). reflexivity.
Qed.

Lemma numbered_plain (n : Z) (s : str) :
  (0 <= n)%Z -> Forall plain s -> Forall plain (numbered n s).
Proof.
  intros Hn Hs. destruct (str_of_int_nonneg n Hn) as [_ Hd].
  rewrite numbered_unfold. constructor; [split; [cbn; lia|reflexivity]|].
  apply Forall_app. split.
  - apply Forall_forall. intros c Hc. apply digit_plain.
    rewrite forallb_forall in Hd. now apply Hd.
  - constructor; [apply plain_space|exact Hs].
Qed.

(** The line that the stop-code pass adds has the stop code as a word. *)
Lemma search_M02_from_suffix (p : str) (prev : option char) :
  search_M02_from prev (p ++ lit " M02") = true.
Proof.
  revert prev. induction p as [|c t IH]; intros prev.
  - change ([] ++ lit " M02") with (chr " " :: lit "M02").
    cbn [search_M02_from].
    change (search_M02_from (Some (chr " ")) (lit "M02")) with true.
    apply orb_true_r.
  - cbn [app search_M02_from]. rewrite IH. apply orb_true_r.
Qed.

Lemma stop_line_has_M02 (n : Z) : search_M02 (numbered n (lit "M02")) = true.
Proof.
  unfold search_M02. rewrite numbered_unfold.
  change (chr "N" :: str_of_int n ++ chr " " :: lit "M02")
    with ((chr "N" :: str_of_int n) ++ lit " M02").
  apply search_M02_from_suffix.
Qed.

Lemma stop_line_settled (cfg : NormalizationConfig) (n : Z) :
  (0 <= n)%Z -> settled cfg (numbered n (lit "M02")).
Proof.
  intros H. split; [|split].
  - apply numbered_tight. split; [discriminate|reflexivity].
  - now apply numbered_has_block_number.
  - intros _. now apply numbered_no_semicolon.
Qed.

Lemma prepared_result (cfg : NormalizationConfig) (ln : str) :
  prepared cfg ln = []
  \/ (tight (prepared cfg ln)
      /\ (strip_semicolon cfg = true ->
          contains (chr ";") (prepared cfg ln) = false)).
Proof.
  unfold prepared. destruct (strip_result ln) as [E|Ht].
  - left. rewrite E. now rewrite andb_false_r.
  - destruct (strip_semicolon cfg) eqn:Es; cbn [andb].
    + destruct (contains (chr ";") (strip ln)) eqn:Ec.
      * destruct (split_head_result (chr ";") (strip ln) (proj1 Ht)) as [E|E].
        -- left. now rewrite E.
        -- right. split; [now apply rstrip_tight|]. intros _.
           apply contains_rstrip, split_head_contains.
      * right. split; [exact Ht|]. intros _. exact Ec.
    + right. split; [exact Ht|discriminate].
Qed.

Lemma Forall_prepared (P : char -> Prop) (cfg : NormalizationConfig) (s : str) :
  Forall P s -> Forall P (prepared cfg s).
Proof.
  intros H. unfold prepared.
  destruct (strip_semicolon cfg && contains (chr ";") (strip s)).
  - now apply Forall_rstrip, Forall_take_while, Forall_strip.
  - now apply Forall_strip.
Qed.

(** One turn of the loop: nothing is left of the line, or the line as
    prepared is emitted. *)
Lemma normalize_step_prepared (cfg : NormalizationConfig) (st : loop_state)
    (ln : str) :
  normalize_step cfg st ln
  = if is_empty (prepared cfg ln) then st else emit cfg st (prepared cfg ln).
Proof.
  unfold normalize_step, prepared.
  destruct (strip_result ln) as [E|Ht].
  - rewrite E. now rewrite andb_false_r.
  - rewrite (tight_nonempty _ Ht).
    destruct (strip_semicolon cfg && contains (chr ";") (strip ln));
      [reflexivity|]. now rewrite (tight_nonempty _ Ht).
Qed.

Lemma normalize_step_tagged_prepared (cfg : NormalizationConfig)
    (st : tagged_state) (ln : str) :
  normalize_step_tagged cfg st ln
  = if is_empty (prepared cfg ln) then st
    else emit_tagged cfg st (prepared cfg ln).
Proof.
  unfold normalize_step_tagged, prepared.
  destruct (strip_result ln) as [E|Ht].
  - rewrite E. now rewrite andb_false_r.
  - rewrite (tight_nonempty _ Ht).
    destruct (strip_semicolon cfg && contains (chr ";") (strip ln));
      [reflexivity|]. now rewrite (tight_nonempty _ Ht).
Qed.

Lemma assigned_numbers_app (a b : list tagged) :
  assigned_numbers (a ++ b) = assigned_numbers a ++ assigned_numbers b.
Proof.
  induction a as [|[[m|] l] t IH]; cbn; [reflexivity| |exact IH].
  now rewrite IH.
Qed.

Lemma assigned_numbers_In (m : Z) (l : str) (out : list tagged) :
  In (Some m, l) out -> In m (assigned_numbers out).
Proof.
  induction out as [|[[k|] x] t IH]; cbn; [tauto| |].
  - intros [H|H]; [left; congruence|right; auto].
  - intros [H|H]; [discriminate|auto].
Qed.

Lemma assigned_numbers_untagged (ls : list str) :
  assigned_numbers (untagged ls) = [].
Proof. induction ls; cbn; auto. Qed.

Lemma In_untagged (o : option Z) (l : str) (ls : list str) :
  In (o, l) (untagged ls) -> o = None /\ In l ls.
Proof.
  unfold untagged. rewrite in_map_iff. intros (x & E & H).
  inversion E; subst. auto.
Qed.

Lemma map_snd_untagged (ls : list str) : map snd (untagged ls) = ls.
Proof. unfold untagged. rewrite map_map. cbn. apply map_id. Qed.

Lemma filter_map_snd (p : str -> bool) (out : list tagged) :
  map snd (filter (fun t => p (snd t)) out) = filter p (map snd out).
Proof.
  induction out as [|t r IH]; cbn; [reflexivity|].
  destruct (p (snd t)); cbn; now rewrite IH.
Qed.

Lemma filter_negb_none (p : str -> bool) (l : list str) :
  filter p (filter (fun x => negb (p x)) l) = [].
Proof.
  induction l as [|a t IH]; [reflexivity|]. cbn.
  destruct (p a) eqn:E; cbn; [exact IH|]. now rewrite E.
Qed.

Lemma filter_filter (p : str -> bool) (l : list str) :
  filter p (filter p l) = filter p l.
Proof.
  induction l as [|a t IH]; [reflexivity|]. cbn.
  destruct (p a) eqn:E; cbn; rewrite ?E, IH; reflexivity.
Qed.

Lemma progression_cons (n d : Z) (k : nat) :
  progression n d (S k) = n :: progression (n + d) d k.
Proof.
  unfold progression. cbn [seq map]. f_equal; [lia|].
  rewrite <- seq_shift, map_map. apply map_ext. intros i. lia.
Qed.

Lemma progression_nonneg (n d : Z) (k : nat) (m : Z) :
  (0 <= n)%Z -> (0 <= d)%Z -> In m (progression n d k) -> (0 <= m)%Z.
Proof.
  intros Hn Hd H. unfold progression in H. apply in_map_iff in H.
  destruct H as (i & <- & _). nia.
Qed.

Lemma spaced_by_progression (n d : Z) (k : nat) :
  spaced_by d (progression n d k).
Proof.
  revert n. induction k as [|k IH]; intros n; [exact I|].
  rewrite progression_cons. specialize (IH (n + d)%Z).
  destruct k as [|k']; [exact I|].
  rewrite progression_cons in *. cbn [spaced_by]. split; [reflexivity|exact IH].
Qed.

Lemma emitted_weaken (cfg : NormalizationConfig) (src src' : list str)
    (t : tagged) :
  incl src src' ->
  kept_as_is cfg src t \/ numbered_by_loop cfg src t ->
  kept_as_is cfg src' t \/ numbered_by_loop cfg src' t.
Proof.
  intros Hi [(H1 & H2 & ln & H3 & H4)|(m & ln & H1 & H2)].
  - left. split; [exact H1|]. split; [exact H2|]. exists ln. auto.
  - right. exists m, ln. auto.
Qed.

(** The numbering loop from the state [(tout, n)]: it appends lines, each
    kept as it is or numbered, the numbers it gives are [n], [n + step],
    and so on, and the counter ends past the last number given. *)
Lemma tagged_loop_spec (cfg : NormalizationConfig) (src : list str)
    (tout : list tagged) (n : Z) :
  exists body,
    fold_left (normalize_step_tagged cfg) src (tout, n)
    = (tout ++ body,
       (n + Z.of_nat (List.length (assigned_numbers body)) * step cfg)%Z)
    /\ assigned_numbers body
       = progression n (step cfg) (List.length (assigned_numbers body))
    /\ Forall (fun t => kept_as_is cfg src t \/ numbered_by_loop cfg src t) body.
Proof.
  revert tout n. induction src as [|ln rest IH]; intros tout n.
  - exists []. cbn. rewrite List.app_nil_r. repeat split; [f_equal; lia|constructor].
  - cbn [fold_left]. rewrite normalize_step_tagged_prepared.
    assert (Hw : forall body,
      Forall (fun t => kept_as_is cfg rest t \/ numbered_by_loop cfg rest t) body ->
      Forall (fun t => kept_as_is cfg (ln :: rest) t
                       \/ numbered_by_loop cfg (ln :: rest) t) body).
    { intros body. apply Forall_impl. intros t. apply emitted_weaken.
      apply incl_tl, incl_refl. }
    destruct (is_empty (prepared cfg ln)) eqn:Ee.
    + destruct (IH tout n) as (body & H1 & H2 & H3).
      exists body. auto.
    + unfold emit_tagged.
      destruct (has_block_number (prepared cfg ln)) eqn:Eb.
      * destruct (IH (tout ++ [(None, prepared cfg ln)]) n)
          as (body & H1 & H2 & H3).
        exists ((None, prepared cfg ln) :: body).
        rewrite H1, <- app_assoc. cbn [app assigned_numbers].
        split; [reflexivity|]. split; [exact H2|].
        constructor; [|auto]. left. split; [reflexivity|].
        split; [exact Eb|]. exists ln. split; [now left|reflexivity].
      * destruct (IH (tout ++ [(Some n, numbered n (collapse_ws (prepared cfg ln)))])
                     (n + step cfg)%Z) as (body & H1 & H2 & H3).
        exists ((Some n, numbered n (collapse_ws (prepared cfg ln))) :: body).
        rewrite H1, <- app_assoc. cbn [app assigned_numbers List.length].
        split; [f_equal; lia|].
        split; [rewrite progression_cons; now f_equal|].
        constructor; [|auto]. right. exists n, ln.
        split; [now left|]. split; [exact Eb|].
        split; [now apply is_empty_false|reflexivity].
Qed.

(** The loop of the source is the tagged loop without its tags. *)
Lemma loop_erasure (cfg : NormalizationConfig) (src : list str)
    (tout : list tagged) (n : Z) :
  fold_left (normalize_step cfg) src (map snd tout, n)
  = (map snd (fst (fold_left (normalize_step_tagged cfg) src (tout, n))),
     snd (fold_left (normalize_step_tagged cfg) src (tout, n))).
Proof.
  revert tout n. induction src as [|ln rest IH]; intros tout n;
    [reflexivity|].
  cbn [fold_left].
  rewrite normalize_step_prepared, normalize_step_tagged_prepared.
  destruct (is_empty (prepared cfg ln)); [apply IH|].
  unfold emit, emit_tagged.
  destruct (has_block_number (prepared cfg ln)).
  - rewrite <- IH. now rewrite map_app.
  - rewrite <- IH. now rewrite map_app.
Qed.

Lemma header_spec (cfg : NormalizationConfig) (src : list str) :
  exists src', header cfg src = (header_lines cfg, src') /\ incl src' src.
Proof.
  unfold header, header_lines. destruct (add_percent cfg).
  - destruct src as [|first rest].
    + exists []. split; [reflexivity|apply incl_refl].
    + destruct (negb (str_eqb (strip first) (lit "%"))).
      * exists (first :: rest). split; [reflexivity|apply incl_refl].
      * exists rest. split; [reflexivity|apply incl_tl, incl_refl].
  - exists src. split; [reflexivity|apply incl_refl].
Qed.

(** The header of an output is taken back as the header. *)
Lemma header_fixed (cfg : NormalizationConfig) (body : list str) :
  header cfg (header_lines cfg ++ body) = (header_lines cfg, body).
Proof.
  unfold header, header_lines. destruct (add_percent cfg); reflexivity.
Qed.

Lemma header_lines_no_M02 (cfg : NormalizationConfig) :
  filter (fun l => negb (search_M02 l)) (header_lines cfg) = header_lines cfg.
Proof. unfold header_lines. now destruct (add_percent cfg). Qed.

Lemma header_lines_plain (cfg : NormalizationConfig) :
  Forall (Forall plain) (header_lines cfg).
Proof.
  unfold header_lines. destruct (add_percent cfg); repeat constructor.
  cbn. lia.
Qed.

Lemma normalize_lines_loop (cfg : NormalizationConfig) (lines : list str) :
  normalize_lines cfg lines
  = if ensure_M02 cfg then enforce_M02 (numbering_loop cfg lines)
    else fst (numbering_loop cfg lines).
Proof.
  unfold normalize_lines, numbering_loop.
  now destruct (header cfg lines) as [out src].
Qed.

Lemma numbering_loop_erasure (cfg : NormalizationConfig) (lines : list str) :
  numbering_loop cfg lines
  = (map snd (fst (numbering_loop_tagged cfg lines)),
     snd (numbering_loop_tagged cfg lines)).
Proof.
  unfold numbering_loop, numbering_loop_tagged.
  destruct (header cfg lines) as [out src].
  rewrite <- loop_erasure. now rewrite map_snd_untagged.
Qed.

(** The output of the normalizer is the tagged output without its tags. *)
Lemma normalize_tagged_erasure (cfg : NormalizationConfig) (lines : list str) :
  map snd (normalize_tagged cfg lines) = normalize_lines cfg lines.
Proof.
  rewrite normalize_lines_loop, numbering_loop_erasure.
  unfold normalize_tagged.
  destruct (numbering_loop_tagged cfg lines) as [tout n].
  cbn [fst snd]. destruct (ensure_M02 cfg); [|reflexivity].
  unfold enforce_M02, enforce_M02_tagged.
  rewrite map_app, (filter_map_snd (fun l => negb (search_M02 l))).
  reflexivity.
Qed.

(** The loop of the normalizer, from the header on. *)
Lemma numbering_loop_tagged_spec (cfg : NormalizationConfig)
    (lines : list str) :
  exists body,
    numbering_loop_tagged cfg lines
    = (untagged (header_lines cfg) ++ body,
       (start_n cfg
        + Z.of_nat (List.length (assigned_numbers body)) * step cfg)%Z)
    /\ assigned_numbers body
       = progression (start_n cfg) (step cfg)
                     (List.length (assigned_numbers body))
    /\ Forall (fun t => kept_as_is cfg lines t \/ numbered_by_loop cfg lines t)
              body.
Proof.
  unfold numbering_loop_tagged.
  destruct (header_spec cfg lines) as (src & -> & Hi).
  destruct (tagged_loop_spec cfg src (untagged (header_lines cfg)) (start_n cfg))
    as (body & H1 & H2 & H3).
  exists body. split; [exact H1|]. split; [exact H2|].
  revert H3. apply Forall_impl. intros t. now apply emitted_weaken.
Qed.

(** C4.  With the option to enforce the trailing stop code, the output
    of the normalizer is the emitted lines without those that have M2 or
    M02 as a word, followed by the one line N<counter> M02, where the
    counter has the value that the numbering loop left (the start value plus
    one increment for each number given): that line is the only line of the
    output with such a match, and the serialised output ends with it and
    one line ending. *)
Theorem enforce_single_trailing_stop_code (cfg : NormalizationConfig)
    (lines : list str) :
  ensure_M02 cfg = true ->
  let n := snd (numbering_loop cfg lines) in
  let stop := numbered n (lit "M02") in
  exists cleaned,
    normalize_lines cfg lines = cleaned ++ [stop]
    /\ cleaned = filter (fun l => negb (search_M02 l))
                        (fst (numbering_loop cfg lines))
    /\ Forall (fun l => search_M02 l = false) cleaned
    /\ stop = lit "N" ++ str_of_int n ++ lit " M02"
    /\ search_M02 stop = true
    /\ filter search_M02 (normalize_lines cfg lines) = [stop]
    /\ n = (start_n cfg
            + Z.of_nat (List.length
                (assigned_numbers (fst (numbering_loop_tagged cfg lines))))
              * step cfg)%Z
    /\ exists pre,
         serialize cfg (normalize_lines cfg lines) = pre ++ stop ++ eol_of cfg.
Proof.
  intros He n stop.
  exists (filter (fun l => negb (search_M02 l)) (fst (numbering_loop cfg lines))).
  assert (Hout : normalize_lines cfg lines
                 = filter (fun l => negb (search_M02 l))
                          (fst (numbering_loop cfg lines)) ++ [stop]).
  { rewrite normalize_lines_loop, He. unfold enforce_M02, stop, n.
    now destruct (numbering_loop cfg lines). }
  pose proof (stop_line_has_M02 n) as Hs. fold stop in Hs.
  split; [exact Hout|]. split; [reflexivity|].
  split.
  { apply Forall_forall. intros l Hl. apply filter_In in Hl.
    now apply negb_true_iff. }
  split; [reflexivity|]. split; [exact Hs|].
  split.
  { rewrite Hout, filter_app, filter_negb_none. cbn [app filter].
    now rewrite Hs. }
  split.
  { unfold n. rewrite numbering_loop_erasure. cbn [snd].
    destruct (numbering_loop_tagged_spec cfg lines) as (body & -> & _ & _).
    cbn [fst snd]. rewrite assigned_numbers_app, assigned_numbers_untagged.
    reflexivity. }
  rewrite Hout. unfold serialize.
  destruct (join_snoc (eol_of cfg)
              (filter (fun l => negb (search_M02 l))
                      (fst (numbering_loop cfg lines))) stop) as (pre & ->).
  exists pre. now rewrite <- app_assoc.
Qed.

(** The theorem at the default configuration, for a program of two
    lines. *)
Lemma enforce_single_trailing_stop_code_witness :
  ensure_M02 default_config = true
  /\ exists cleaned,
       normalize_lines default_config [lit "G01 X1"; lit "M02"]
       = cleaned ++ [lit "N30 M02"]
       /\ Forall (fun l => search_M02 l = false) cleaned.
Proof.
  split; [reflexivity|].
  destruct (enforce_single_trailing_stop_code default_config
              [lit "G01 X1"; lit "M02"] eq_refl)
    as (cleaned & H1 & _ & H2 & _).
  exists cleaned. split; [exact H1|exact H2].
Defined.

Lemma ascending_bounds (lo hi : nat) (ks : list nat) :
  ascending lo hi ks -> (lo <= hi)%nat.
Proof.
  revert lo. induction ks as [|k t IH]; cbn; intros lo; [tauto|].
  intros [H1 H2]. apply IH in H2. lia.
Qed.

Lemma ascending_weaken (lo lo' hi hi' : nat) (ks : list nat) :
  (lo' <= lo)%nat -> (hi <= hi')%nat ->
  ascending lo hi ks -> ascending lo' hi' ks.
Proof.
  intros Hlo Hhi. revert lo lo' Hlo.
  induction ks as [|k t IH]; cbn; intros lo lo' Hlo; [lia|].
  intros [H1 H2]. split; [lia|]. now apply (IH (S k)).
Qed.

Lemma ascending_seq (lo k : nat) : ascending lo (lo + k) (seq lo k).
Proof.
  revert lo. induction k as [|k IH]; cbn; intros lo; [lia|].
  split; [lia|]. replace (lo + S k)%nat with (S lo + k)%nat by lia. apply IH.
Qed.

Lemma ascending_snoc (lo hi : nat) (ks : list nat) :
  ascending lo hi ks -> ascending lo (S hi) (ks ++ [hi]).
Proof.
  revert lo. induction ks as [|k t IH]; cbn; intros lo; [lia|].
  intros [H1 H2]. split; [exact H1|now apply IH].
Qed.

Lemma ascending_increasing (n d : Z) (lo hi : nat) (ks : list nat) :
  (0 < d)%Z -> ascending lo hi ks ->
  strictly_increasing (map (fun i => (n + Z.of_nat i * d)%Z) ks).
Proof.
  intros Hd. revert lo. induction ks as [|a t IH]; intros lo H.
  - apply strictly_increasing_nil.
  - destruct t as [|b t'].
    + apply strictly_increasing_one.
    + cbn [map]. apply strictly_increasing_cons.
      destruct H as [_ H]. split; [|now apply (IH (S a))].
      destruct H as [H _]. nia.
Qed.

(** The numbers left on the lines that a filter keeps are those of a
    strictly increasing choice of the indices. *)
Lemma filter_assigned (q : tagged -> bool) (f : nat -> Z) (X : list tagged)
    (i0 k : nat) :
  assigned_numbers X = map f (seq i0 k) ->
  exists ks, ascending i0 (i0 + k) ks
             /\ assigned_numbers (filter q X) = map f ks.
Proof.
  revert i0 k. induction X as [|[[m|] l] X' IH]; intros i0 k H.
  - exists []. split; [cbn; lia|reflexivity].
  - destruct k as [|k']; [discriminate|]. cbn in H.
    injection H as Hm HX. destruct (IH (S i0) k' HX) as (ks & Ha & Hf).
    replace (S i0 + k')%nat with (i0 + S k')%nat in Ha by lia.
    cbn [filter]. destruct (q (Some m, l)).
    + exists (i0 :: ks). split; [split; [lia|exact Ha]|].
      cbn. now rewrite Hm, Hf.
    + exists ks. split; [|exact Hf].
      apply (ascending_weaken (S i0) i0 (i0 + S k') (i0 + S k') ks);
        [lia|lia|exact Ha].
  - cbn in H. destruct (IH i0 k H) as (ks & Ha & Hf).
    exists ks. split; [exact Ha|].
    cbn [filter]. now destruct (q (None, l)).
Qed.

(** C5 as it stands fails: a numbered line that the stop-code pass
    removes leaves a gap, so the numbers on the lines of the output do not
    go up by the increment. *)
Lemma assigned_numbers_gap :
  normalize_lines default_config [lit "G01"; lit "M02"; lit "G02"]
    = [lit "%"; lit "N10 G01"; lit "N30 G02"; lit "N40 M02"]
  /\ assigned_numbers
       (normalize_tagged default_config [lit "G01"; lit "M02"; lit "G02"])
     = [10; 30; 40]%Z
  /\ ~ spaced_by (step default_config)
         (assigned_numbers
            (normalize_tagged default_config [lit "G01"; lit "M02"; lit "G02"])).
Proof.
  split; [reflexivity|]. split; [reflexivity|].
  intros H. vm_compute in H. destruct H as [H _]. discriminate.
Qed.

Lemma int_of_digits_acc (d : Decimal.uint) (acc : positive) :
  fold_left (fun a c => (10 * a + Z.of_N (c - 0x30))%Z)
            (lit (DecimalString.NilEmpty.string_of_uint d)) (Z.pos acc)
  = Z.pos (Pos.of_uint_acc d acc).
Proof.
  revert acc. induction d as [|d IH|d IH|d IH|d IH|d IH|d IH|d IH|d IH|d IH|d IH];
    intros acc;
    cbn [DecimalString.NilEmpty.string_of_uint Pos.of_uint_acc];
    [reflexivity|..];
    rewrite lit_cons; cbn [fold_left]; rewrite <- IH; f_equal;
    match goal with |- (_ + ?x)%Z = _ => set (v := x) end;
    vm_compute in v; subst v; lia.
Qed.

Lemma int_of_digits_uint (d : Decimal.uint) :
  int_of_digits (lit (DecimalString.NilEmpty.string_of_uint d))
  = Z.of_N (Pos.of_uint d).
Proof.
  unfold int_of_digits.
  induction d as [|d IH|d IH|d IH|d IH|d IH|d IH|d IH|d IH|d IH|d IH];
    cbn [DecimalString.NilEmpty.string_of_uint Pos.of_uint];
    [reflexivity|..];
    rewrite lit_cons; cbn [fold_left];
    match goal with |- fold_left _ _ ?x = _ => set (v := x) end;
    vm_compute in v; subst v; [exact IH|..]; apply int_of_digits_acc.
Qed.

(** [int(str(n))] is [n] for an [n] that is not negative. *)
Lemma int_of_str_of_int (n : Z) :
  (0 <= n)%Z -> int_of_digits (str_of_int n) = n.
Proof.
  intros H. destruct n as [|p|p]; [reflexivity| |lia].
  unfold str_of_int.
  cbn [Z.to_int DecimalString.NilZero.string_of_int].
  pose proof (DecimalPos.Unsigned.to_uint_nonnil p) as Hn.
  pose proof (DecimalPos.Unsigned.of_to p) as Hp.
  unfold DecimalString.NilZero.string_of_uint.
  destruct (Pos.to_uint p) eqn:E; [congruence|..];
    rewrite <- E, int_of_digits_uint, E, Hp; reflexivity.
Qed.

Lemma numbered_match (n : Z) (s : str) :
  (0 <= n)%Z -> match_block_number (numbered n s) = Some (str_of_int n).
Proof.
  intros H. destruct (str_of_int_nonneg n H) as (Hne & Hd).
  rewrite numbered_unfold. unfold match_block_number.
  cbn [drop_while]. change (is_space (chr "N")) with false. cbv iota.
  change (chr "N" =? chr "N") with true. cbv iota.
  rewrite (take_while_run is_digit (str_of_int n) s (chr " ") Hd eq_refl).
  destruct (str_of_int n); [congruence|reflexivity].
Qed.

Lemma numbered_negative (n : Z) (s : str) :
  (n < 0)%Z -> has_block_number (numbered n s) = false.
Proof.
  intros H. destruct n as [|p|p]; [lia|lia|].
  rewrite numbered_unfold. unfold has_block_number, match_block_number.
  cbn [drop_while]. change (is_space (chr "N")) with false. cbv iota.
  change (chr "N" =? chr "N") with true. cbv iota.
  unfold str_of_int.
  cbn [Z.to_int DecimalString.NilZero.string_of_int].
  rewrite lit_cons. reflexivity.
Qed.

Lemma Forall2_In_l {A B} (R : A -> B -> Prop) (l : list A) (l' : list B)
    (x : A) :
  Forall2 R l l' -> In x l -> exists y, In y l' /\ R x y.
Proof.
  induction 1 as [|a b t t' Hab Ht IH]; [intros []|].
  intros [->|H].
  - exists b. split; [now left|exact Hab].
  - destruct (IH H) as (y & Hy & Hr). exists y. split; [now right|exact Hr].
Qed.

Lemma prepared_lines_cons (cfg : NormalizationConfig) (ln : str)
    (rest : list str) :
  prepared_lines cfg (ln :: rest)
  = if is_empty (prepared cfg ln) then prepared_lines cfg rest
    else prepared cfg ln :: prepared_lines cfg rest.
Proof.
  unfold prepared_lines. cbn [map filter].
  now destruct (is_empty (prepared cfg ln)).
Qed.

(** The loop emits one line for each source line that it does not pass
    over, in the order of the source: the line itself, without a number,
    when it carries a block number, and the line with the counter in
    front when it does not. *)
Lemma tagged_loop_emitted (cfg : NormalizationConfig) (src : list str)
    (tout : list tagged) (n : Z) :
  exists body,
    fst (fold_left (normalize_step_tagged cfg) src (tout, n)) = tout ++ body
    /\ Forall2 emitted_as (prepared_lines cfg src) body.
Proof.
  revert tout n. induction src as [|ln rest IH]; intros tout n.
  - exists []. split; [now rewrite List.app_nil_r|constructor].
  - cbn [fold_left].
    rewrite normalize_step_tagged_prepared, prepared_lines_cons.
    destruct (is_empty (prepared cfg ln)); [apply IH|].
    unfold emit_tagged.
    destruct (has_block_number (prepared cfg ln)) eqn:E.
    + destruct (IH (tout ++ [(None, prepared cfg ln)]) n)
        as (body & Hf & Hb).
      exists ((None, prepared cfg ln) :: body).
      split; [now rewrite Hf, <- app_assoc|].
      constructor; [|exact Hb]. left.
      split; [now apply has_block_number_carries|reflexivity].
    + destruct (IH (tout ++ [(Some n, numbered n (collapse_ws (prepared cfg ln)))])
                   (n + step cfg)%Z) as (body & Hf & Hb).
      exists ((Some n, numbered n (collapse_ws (prepared cfg ln))) :: body).
      split; [now rewrite Hf, <- app_assoc|].
      constructor; [|exact Hb]. right.
      split; [now apply has_no_block_number_carries|now exists n].
Qed.

Lemma numbering_loop_tagged_emitted (cfg : NormalizationConfig)
    (lines : list str) :
  exists body,
    fst (numbering_loop_tagged cfg lines) = untagged (header_lines cfg) ++ body
    /\ Forall2 emitted_as (prepared_lines cfg (snd (header cfg lines))) body.
Proof.
  unfold numbering_loop_tagged.
  destruct (header_spec cfg lines) as (src & -> & _). cbn [snd].
  apply tagged_loop_emitted.
Qed.

Lemma carries_nonempty (s : str) (n : Z) :
  carries_block_number s n -> is_empty s = false.
Proof.
  intros (ws & ds & rest & -> & _). now destruct ws.
Qed.

(** C5, amended.  For a positive increment: the numbers that the
    numbering loop gives are, in the order in which it gives them, the start
    value, the start value plus the increment, and so on, and the line of
    the stop code gets the next one.  The output carries these numbers less
    those of the numbered lines that the stop-code pass removed: on the
    lines of the output they strictly increase, each step being a positive
    multiple of the increment, and exactly the increment when the stop-code
    option is off.  A line that carried its own block number is emitted as
    it was prepared, without a number from the loop and without any check
    of its number: the loop emits one line for each source line that it
    does not pass over, in the order of the source, the line as prepared
    and without a number when it carries a block number, the line behind
    the counter when it does not.  The line of the stop code carries the
    counter as the loop left it.  A number that the loop gave is the
    block number that its line carries, when it is not negative; a line
    behind a negative number carries none. *)
Theorem assigned_block_numbers (cfg : NormalizationConfig) (lines : list str) :
  (0 < step cfg)%Z ->
  let out := normalize_tagged cfg lines in
  let given := assigned_numbers (fst (numbering_loop_tagged cfg lines)) in
  map snd out = normalize_lines cfg lines
  /\ given = progression (start_n cfg) (step cfg) (List.length given)
  /\ spaced_by (step cfg) given
  /\ snd (numbering_loop_tagged cfg lines)
     = (start_n cfg + Z.of_nat (List.length given) * step cfg)%Z
  /\ (exists ks,
        ascending 0 (S (List.length given)) ks
        /\ assigned_numbers out
           = map (fun i => (start_n cfg + Z.of_nat i * step cfg)%Z) ks)
  /\ strictly_increasing (assigned_numbers out)
  /\ (ensure_M02 cfg = false ->
      assigned_numbers out = given
      /\ spaced_by (step cfg) (assigned_numbers out))
  /\ (forall m l, In (Some m, l) out -> exists s, l = numbered m s)
  /\ (forall l, In (None, l) out ->
        In l (header_lines cfg)
        \/ (has_block_number l = true
            /\ exists ln, In ln lines /\ l = prepared cfg ln))
  /\ (exists body,
        fst (numbering_loop_tagged cfg lines)
        = untagged (header_lines cfg) ++ body
        /\ Forall2 emitted_as (prepared_lines cfg (snd (header cfg lines)))
                   body)
  /\ out
     = (if ensure_M02 cfg
        then filter (fun l => negb (search_M02 (snd l)))
                    (fst (numbering_loop_tagged cfg lines))
             ++ [(Some (start_n cfg
                        + Z.of_nat (List.length given) * step cfg)%Z,
                  numbered (start_n cfg
                            + Z.of_nat (List.length given) * step cfg)%Z
                           (lit "M02"))]
        else fst (numbering_loop_tagged cfg lines))
  /\ (forall ln n,
        In ln (snd (header cfg lines)) ->
        carries_block_number (prepared cfg ln) n ->
        In (None, prepared cfg ln) (fst (numbering_loop_tagged cfg lines))
        /\ (ensure_M02 cfg = false \/ search_M02 (prepared cfg ln) = false ->
            In (None, prepared cfg ln) out
            /\ In (prepared cfg ln) (normalize_lines cfg lines)))
  /\ (forall ln,
        In ln (snd (header cfg lines)) -> prepared cfg ln <> [] ->
        carries_no_block_number (prepared cfg ln) ->
        exists m,
          In (Some m, numbered m (collapse_ws (prepared cfg ln)))
             (fst (numbering_loop_tagged cfg lines)))
  /\ (forall m l, In (Some m, l) out ->
        ((0 <= m)%Z -> carries_block_number l m)
        /\ ((m < 0)%Z -> carries_no_block_number l)).
Proof.
  intros Hd out given.
  destruct (numbering_loop_tagged_spec cfg lines) as (body & Hloop & Hprog & Hbody).
  assert (Hgiven : given = assigned_numbers body).
  { unfold given. rewrite Hloop. cbn [fst].
    now rewrite assigned_numbers_app, assigned_numbers_untagged. }
  assert (Hks : exists ks,
            ascending 0 (S (List.length given)) ks
            /\ assigned_numbers out
               = map (fun i => (start_n cfg + Z.of_nat i * step cfg)%Z) ks).
  { unfold out, normalize_tagged. rewrite Hloop. cbn [fst].
    destruct (ensure_M02 cfg).
    - unfold enforce_M02_tagged. cbv beta iota.
      destruct (filter_assigned
                  (fun l : option Z * str => negb (search_M02 (snd l)))
                  (fun i => (start_n cfg + Z.of_nat i * step cfg)%Z)
                  (untagged (header_lines cfg) ++ body) 0
                  (List.length given)) as (ks & Ha & Hf).
      { rewrite assigned_numbers_app, assigned_numbers_untagged.
        cbn [app]. rewrite Hgiven. exact Hprog. }
      exists (ks ++ [List.length given]).
      split; [now apply ascending_snoc|].
      rewrite assigned_numbers_app, map_app.
      f_equal; [exact Hf|]. rewrite Hgiven. reflexivity.
    - exists (seq 0 (List.length given)). split.
      + apply (ascending_weaken 0 0 (0 + List.length given)); [lia|lia|].
        apply ascending_seq.
      + rewrite assigned_numbers_app, assigned_numbers_untagged.
        cbn [app]. rewrite Hgiven. exact Hprog. }
  split; [apply normalize_tagged_erasure|].
  split; [rewrite Hgiven; exact Hprog|].
  split; [rewrite Hgiven, Hprog; apply spaced_by_progression|].
  split; [rewrite Hloop, Hgiven; reflexivity|].
  split; [exact Hks|].
  split.
  { destruct Hks as (ks & Ha & ->).
    exact (ascending_increasing _ _ 0 _ ks Hd Ha). }
  split.
  { intros He. unfold out, normalize_tagged. rewrite He. fold given.
    split; [reflexivity|]. rewrite Hgiven, Hprog. apply spaced_by_progression. }
  assert (Hin : forall o l, In (o, l) out ->
            In (o, l) (untagged (header_lines cfg) ++ body)
            \/ exists n, (o, l) = (Some n, numbered n (lit "M02"))).
  { intros o l. unfold out, normalize_tagged. rewrite Hloop. cbn [fst].
    destruct (ensure_M02 cfg); [|now left].
    unfold enforce_M02_tagged. cbv beta iota.
    rewrite in_app_iff. intros [H|[H|[]]].
    - apply filter_In in H. left. tauto.
    - right. eexists. symmetry. exact H. }
  rewrite Forall_forall in Hbody.
  assert (Hnum : forall m l, In (Some m, l) out -> exists s, l = numbered m s).
  { intros m l H. destruct (Hin _ _ H) as [H1|(n & H1)].
    - apply in_app_iff in H1. destruct H1 as [H1|H1].
      + apply In_untagged in H1. destruct H1. discriminate.
      + destruct (Hbody _ H1) as [(Hk & _)|(k & ln & _ & _ & _ & E)];
          [discriminate|]. inversion E. eauto.
    - inversion H1. eauto. }
  split; [exact Hnum|].
  split.
  { intros l H. destruct (Hin _ _ H) as [H1|(n & H1)]; [|discriminate].
    apply in_app_iff in H1. destruct H1 as [H1|H1].
    - apply In_untagged in H1. now left.
    - right. destruct (Hbody _ H1) as [(_ & Hb & Hl)|(k & ln & _ & _ & _ & E)];
        [|discriminate]. split; assumption. }
  destruct (numbering_loop_tagged_emitted cfg lines) as (body' & Hfst & Hem).
  assert (Hout :
    out = (if ensure_M02 cfg
           then filter (fun l => negb (search_M02 (snd l)))
                       (fst (numbering_loop_tagged cfg lines))
                ++ [(Some (start_n cfg
                           + Z.of_nat (List.length given) * step cfg)%Z,
                     numbered (start_n cfg
                               + Z.of_nat (List.length given) * step cfg)%Z
                              (lit "M02"))]
           else fst (numbering_loop_tagged cfg lines))).
  { unfold out, normalize_tagged. destruct (ensure_M02 cfg); [|reflexivity].
    unfold enforce_M02_tagged. rewrite Hloop. cbn [fst].
    now rewrite Hgiven. }
  split; [now exists body'|]. split; [exact Hout|]. split.
  - intros ln n Hl Hc.
    assert (Hs : In (prepared cfg ln)
                    (prepared_lines cfg (snd (header cfg lines)))).
    { unfold prepared_lines. apply filter_In. split; [now apply in_map|].
      now rewrite (carries_nonempty _ _ Hc). }
    destruct (Forall2_In_l _ _ _ _ Hem Hs)
      as (t & Ht & [(_ & ->)|(Hno & _)]); [|now destruct (Hno n)].
    assert (Hfstin : In (None, prepared cfg ln)
                        (fst (numbering_loop_tagged cfg lines))).
    { rewrite Hfst. apply in_or_app. now right. }
    split; [exact Hfstin|]. intros Hcase.
    assert (Ho : In (None, prepared cfg ln) out).
    { rewrite Hout. destruct (ensure_M02 cfg); [|exact Hfstin].
      destruct Hcase as [Hcase|Hm]; [discriminate|].
      apply in_or_app. left. apply filter_In. split; [exact Hfstin|].
      cbn [snd]. now rewrite Hm. }
    split; [exact Ho|]. rewrite <- normalize_tagged_erasure.
    apply (in_map snd) in Ho. exact Ho.
  - split.
    + intros ln Hl Hne Hno.
      assert (Hs : In (prepared cfg ln)
                      (prepared_lines cfg (snd (header cfg lines)))).
      { unfold prepared_lines. apply filter_In. split; [now apply in_map|].
        apply is_empty_false in Hne. now rewrite Hne. }
      destruct (Forall2_In_l _ _ _ _ Hem Hs)
        as (t & Ht & [((n & Hc) & _)|(_ & m & ->)]); [now destruct (Hno n)|].
      exists m. rewrite Hfst. apply in_or_app. now right.
    + intros m l H. destruct (Hnum m l H) as (s & ->). split; intros Hm.
      * pose proof (match_block_number_carries _ _ (numbered_match m s Hm))
          as Hc.
        now rewrite (int_of_str_of_int m Hm) in Hc.
      * now apply has_no_block_number_carries, numbered_negative.
Qed.

(** The theorem at the default configuration, for a program of which
    the stop-code pass removes the second line, and for a program with a
    line that carries its own block number. *)
Lemma assigned_block_numbers_witness :
  (0 < step default_config)%Z
  /\ assigned_numbers
       (normalize_tagged default_config [lit "G01"; lit "M02"; lit "G02"])
     = [10; 30; 40]%Z
  /\ strictly_increasing
       (assigned_numbers
          (normalize_tagged default_config [lit "G01"; lit "M02"; lit "G02"]))
  /\ In (None, lit "N5 G02")
        (normalize_tagged default_config
           [lit "G01"; lit "  N5 G02 ; arc"; lit "G03"]).
Proof.
  split; [reflexivity|]. split; [reflexivity|]. split.
  - destruct (assigned_block_numbers default_config
                [lit "G01"; lit "M02"; lit "G02"] eq_refl)
      as (_ & _ & _ & _ & _ & Hinc & _).
    exact Hinc.
  - destruct (assigned_block_numbers default_config
                [lit "G01"; lit "  N5 G02 ; arc"; lit "G03"] eq_refl)
      as (_ & _ & _ & _ & _ & _ & _ & _ & _ & _ & _ & Hkept & _).
    assert (Hc : carries_block_number
                   (prepared default_config (lit "  N5 G02 ; arc")) 5).
    { exists [], (lit "5"), (lit " G02").
      split; [reflexivity|]. split; [constructor|].
      split; [discriminate|]. split; [repeat constructor; cbn; tauto|].
      split; [|reflexivity].
      intros c rest' E. injection E as <- _. cbn. intuition discriminate. }
    assert (Hl : In (lit "  N5 G02 ; arc")
                    (snd (header default_config
                            [lit "G01"; lit "  N5 G02 ; arc"; lit "G03"])))
      by (right; left; reflexivity).
    destruct (Hkept (lit "  N5 G02 ; arc") 5%Z Hl Hc) as (_ & Hout).
    destruct (Hout (or_intror eq_refl)) as (Ho & _).
    exact Ho.
Defined.

Lemma settled_prepared (cfg : NormalizationConfig) (l : str) :
  settled cfg l -> prepared cfg l = l.
Proof.
  intros (Ht & _ & Hc). unfold prepared. rewrite (strip_tight l Ht).
  destruct (strip_semicolon cfg); [|reflexivity].
  now rewrite (Hc eq_refl).
Qed.

(** A settled line goes through a turn of the loop unchanged, and the
    counter stays. *)
Lemma normalize_step_settled (cfg : NormalizationConfig) (out : list str)
    (n : Z) (l : str) :
  settled cfg l -> normalize_step cfg (out, n) l = (out ++ [l], n).
Proof.
  intros H. rewrite normalize_step_prepared, (settled_prepared cfg l H).
  destruct H as (Ht & Hb & _). rewrite (tight_nonempty l Ht).
  unfold emit. now rewrite Hb.
Qed.

Lemma fold_settled (cfg : NormalizationConfig) (ls out : list str) (n : Z) :
  Forall (settled cfg) ls ->
  fold_left (normalize_step cfg) ls (out, n) = (out ++ ls, n).
Proof.
  revert out. induction ls as [|l t IH]; intros out H.
  - now rewrite List.app_nil_r.
  - inversion H; subst. cbn [fold_left].
    rewrite normalize_step_settled by assumption.
    rewrite IH by assumption. now rewrite <- app_assoc.
Qed.

Lemma numbering_loop_settled (cfg : NormalizationConfig) (ls : list str) :
  Forall (settled cfg) ls ->
  numbering_loop cfg (header_lines cfg ++ ls)
  = (header_lines cfg ++ ls, start_n cfg).
Proof.
  intros H. unfold numbering_loop. rewrite header_fixed.
  now apply fold_settled.
Qed.

Lemma serialize_terminated (cfg : NormalizationConfig) (lines : list str) :
  lines <> [] -> serialize cfg lines = terminated (eol_of cfg) lines.
Proof.
  unfold serialize, terminated. induction lines as [|l t IH]; [congruence|].
  intros _. destruct t as [|l' t'].
  - cbn. now rewrite List.app_nil_r.
  - cbn [join flat_map] in *. rewrite <- IH by discriminate.
    now rewrite <- !app_assoc.
Qed.

(** Reading a line and its line ending in text mode *)
Lemma universal_newlines_line (cfg : NormalizationConfig) (l rest : str) :
  Forall plain l ->
  universal_newlines (l ++ eol_of cfg ++ rest)
  = l ++ [0x0A] ++ universal_newlines rest.
Proof.
  induction 1 as [|c t Hc Ht IH].
  - unfold eol_of. now destruct (crlf cfg).
  - cbn [app universal_newlines]. rewrite (plain_not_CR c Hc).
    cbn [app] in IH. now rewrite IH.
Qed.

Lemma universal_newlines_terminated (cfg : NormalizationConfig)
    (lines : list str) :
  Forall (Forall plain) lines ->
  universal_newlines (terminated (eol_of cfg) lines) = terminated [0x0A] lines.
Proof.
  unfold terminated. induction 1 as [|l t Hl Ht IH]; [reflexivity|].
  cbn [flat_map]. rewrite <- !app_assoc.
  now rewrite universal_newlines_line, IH.
Qed.

Lemma terminated_latin1 (cfg : NormalizationConfig) (lines : list str) :
  Forall (Forall plain) lines ->
  Forall (fun c => c <= 255) (terminated (eol_of cfg) lines).
Proof.
  unfold terminated. induction 1 as [|l t Hl Ht IH]; [constructor|].
  cbn [flat_map]. repeat (apply Forall_app; split); [| |exact IH].
  - revert Hl. apply Forall_impl. now intros c [Hc _].
  - unfold eol_of. destruct (crlf cfg); repeat constructor; lia.
Qed.

(** What the second pass reads from the file that the first pass wrote *)
Lemma read_written (cfg : NormalizationConfig) (lines : list str) :
  Forall (Forall plain) lines ->
  splitlines (read_text_latin1 (write_lines cfg lines))
  = match lines with
    | [] => [[]]
    | _ :: _ => lines
    end.
Proof.
  intros H. unfold write_lines, read_text_latin1.
  destruct lines as [|l t].
  - unfold serialize, eol_of. now destruct (crlf cfg).
  - rewrite serialize_terminated by discriminate.
    rewrite decode_encode_latin1 by now apply terminated_latin1.
    rewrite universal_newlines_terminated by exact H.
    now apply splitlines_terminated.
Qed.

Lemma normalize_lines_blank (cfg : NormalizationConfig) :
  ensure_M02 cfg = false -> normalize_lines cfg [[]] = header_lines cfg.
Proof.
  intros He. unfold normalize_lines, header, header_lines.
  destruct (add_percent cfg); cbn; now rewrite He.
Qed.

(** *** Numbers that are not negative

    With a start value and an increment that are not negative, every number
    that the loop gives is printed as digits, so that every line of an
    output carries a block number in the eyes of a second pass. *)

Section NonNegativeNumbers.

Variable cfg : NormalizationConfig.
Hypothesis start_nonneg : (0 <= start_n cfg)%Z.
Hypothesis step_nonneg : (0 <= step cfg)%Z.

(** Every line that the loop emits is settled, when the numbers it gives
    are not negative. *)
Lemma emitted_settled (src : list str)
    (body : list tagged) (k : nat) :
  assigned_numbers body = progression (start_n cfg) (step cfg) k ->
  Forall (fun t => kept_as_is cfg src t \/ numbered_by_loop cfg src t) body ->
  Forall (settled cfg) (map snd body).
Proof.
  intros Hprog Hbody. apply Forall_forall. intros l Hl.
  apply in_map_iff in Hl. destruct Hl as ([o l'] & E & Hin). cbn in E. subst l'.
  rewrite Forall_forall in Hbody.
  destruct (Hbody _ Hin) as [(_ & Hb & ln & _ & El)|(m & ln & _ & _ & Hne & E)].
  - cbn [snd] in Hb, El.
    destruct (prepared_result cfg ln) as [E0|[Ht Hc]].
    + rewrite El, E0 in Hb. discriminate.
    + rewrite El. split; [exact Ht|]. split; [now rewrite <- El|exact Hc].
  - inversion E; subst o l.
    destruct (prepared_result cfg ln) as [E0|[Ht Hc]]; [congruence|].
    assert (Hm : (0 <= m)%Z).
    { apply (progression_nonneg (start_n cfg) (step cfg) k); auto.
      rewrite <- Hprog. eapply assigned_numbers_In. exact Hin. }
    split; [|split].
    + apply numbered_tight, collapse_ws_ends_clean, Ht.
    + now apply numbered_has_block_number.
    + intros Hc'. apply numbered_no_semicolon; [exact Hm|].
      apply collapse_ws_contains; [discriminate|auto].
Qed.

(** The state in which the numbering loop ends, for start value and
    increment that are not negative *)
Lemma numbering_loop_spec (lines : list str) :
  exists body n,
    numbering_loop cfg lines = (header_lines cfg ++ body, n)
    /\ (0 <= n)%Z /\ Forall (settled cfg) body.
Proof.
  destruct (numbering_loop_tagged_spec cfg lines) as (body & Hloop & Hprog & Hbody).
  exists (map snd body). eexists.
  rewrite numbering_loop_erasure, Hloop. cbn [fst snd].
  rewrite map_app, map_snd_untagged.
  split; [reflexivity|]. split; [nia|].
  now apply (emitted_settled lines body _ Hprog).
Qed.

(** Without the stop-code pass, a second pass gives the output of the
    first again. *)
Lemma normalize_lines_fixed (F0 : list str) :
  ensure_M02 cfg = false ->
  normalize_lines cfg (normalize_lines cfg F0) = normalize_lines cfg F0.
Proof.
  intros He.
  destruct (numbering_loop_spec F0) as (body & n & Hloop & Hn & Hbody).
  rewrite (normalize_lines_loop cfg F0), He, Hloop. cbn [fst].
  rewrite normalize_lines_loop, He, numbering_loop_settled by exact Hbody.
  reflexivity.
Qed.

(** C1, amended.  For a start value and an increment that are not
    negative, and an output F of the normalizer: without the option to
    enforce the trailing stop code, normalizing F under the same
    configuration gives F again, byte for byte.  With the option, the second
    pass gives the lines of F again up to the last one, the stop-code line,
    which it numbers with the start value. *)
Theorem normalize_twice (F0 : list str) :
  let F := normalize_lines cfg F0 in
  (ensure_M02 cfg = false ->
     normalize_lines cfg F = F /\ normalize cfg F = normalize cfg F0)
  /\ (ensure_M02 cfg = true ->
      normalize_lines cfg F
      = removelast F ++ [numbered (start_n cfg) (lit "M02")]).
Proof.
  intros F.
  destruct (numbering_loop_spec F0) as (body & n & Hloop & Hn & Hbody).
  split; intros He.
  - pose proof (normalize_lines_fixed F0 He) as E. fold F in E.
    split; [exact E|]. unfold normalize. now rewrite E.
  - set (q := fun l => negb (search_M02 l)).
    assert (HF : F = header_lines cfg
                     ++ (filter q body ++ [numbered n (lit "M02")])).
    { unfold F. rewrite normalize_lines_loop, He, Hloop. unfold enforce_M02.
      fold q. now rewrite filter_app, header_lines_no_M02, <- app_assoc. }
    assert (Hset : Forall (settled cfg) (filter q body ++ [numbered n (lit "M02")])).
    { apply Forall_app. split.
      - rewrite Forall_forall in *. intros l Hl. apply filter_In in Hl.
        now apply Hbody.
      - constructor; [now apply stop_line_settled|constructor]. }
    rewrite normalize_lines_loop, He, HF, numbering_loop_settled by exact Hset.
    unfold enforce_M02. fold q.
    rewrite !filter_app, header_lines_no_M02, filter_filter.
    cbn [filter]. unfold q at 2. rewrite stop_line_has_M02. cbn [negb].
    rewrite List.app_nil_r, !app_assoc, removelast_last. reflexivity.
Qed.

(** The lines that the loop emits are plain when the source lines are. *)
Lemma emitted_plain (src : list str)
    (body : list tagged) (k : nat) :
  assigned_numbers body = progression (start_n cfg) (step cfg) k ->
  Forall (fun t => kept_as_is cfg src t \/ numbered_by_loop cfg src t) body ->
  Forall (Forall plain) src ->
  Forall (Forall plain) (map snd body).
Proof.
  intros Hprog Hbody Hsrc. apply Forall_forall. intros l Hl.
  apply in_map_iff in Hl. destruct Hl as ([o l'] & E & Hin). cbn in E. subst l'.
  rewrite Forall_forall in Hbody, Hsrc.
  destruct (Hbody _ Hin) as [(_ & _ & ln & Hln & El)|(m & ln & Hln & _ & _ & E)].
  - cbn [snd] in El. rewrite El. apply Forall_prepared. now apply Hsrc.
  - inversion E; subst o l.
    apply numbered_plain.
    + apply (progression_nonneg (start_n cfg) (step cfg) k); auto.
      rewrite <- Hprog. eapply assigned_numbers_In. exact Hin.
    + apply Forall_collapse_ws; [apply plain_space|].
      apply Forall_prepared. now apply Hsrc.
Qed.

(** Without the stop-code pass, the output of plain lines is plain. *)
Lemma normalize_lines_plain (lines : list str) :
  ensure_M02 cfg = false ->
  Forall (Forall plain) lines ->
  Forall (Forall plain) (normalize_lines cfg lines).
Proof.
  intros He Hl.
  destruct (numbering_loop_tagged_spec cfg lines) as (body & Hloop & Hprog & Hbody).
  rewrite normalize_lines_loop, He, numbering_loop_erasure, Hloop.
  cbn [fst]. rewrite map_app, map_snd_untagged.
  apply Forall_app. split; [apply header_lines_plain|].
  now apply (emitted_plain lines body _ Hprog).
Qed.

(** X11.  Without the stop-code pass, and for a start value and an
    increment that are not negative, the normalizer gives its own output
    back from file to file: the file it writes is read as the lines it
    emitted, and these go through a second pass unchanged. *)
Theorem normalize_to_iso_twice (input : list byte) :
  ensure_M02 cfg = false ->
  normalize_to_iso cfg (normalize_to_iso cfg input)
  = normalize_to_iso cfg input.
Proof.
  intros He. unfold normalize_to_iso at 1 3. unfold normalize.
  f_equal.
  set (X := splitlines (read_text_latin1 input)).
  assert (HX : Forall (Forall plain) X) by apply read_lines_plain.
  pose proof (normalize_lines_plain X He HX) as HL.
  change (normalize_to_iso cfg input)
    with (write_lines cfg (normalize_lines cfg X)).
  rewrite read_written by exact HL.
  destruct (normalize_lines cfg X) as [|l t] eqn:E.
  - rewrite normalize_lines_blank by exact He.
    destruct (numbering_loop_spec X) as (body & n & Hloop & _ & _).
    rewrite normalize_lines_loop, He, Hloop in E. cbn [fst] in E.
    now apply app_eq_nil in E.
  - rewrite <- E.
    now apply normalize_lines_fixed.
Qed.

End NonNegativeNumbers.

(** C1 as it stands fails: with the trailing stop code enforced, the
    second pass numbers the stop-code line from the start value again,
    because the lines of the first output carry block numbers and the
    counter never moves. *)
Lemma normalize_not_idempotent :
  normalize_lines default_config [lit "G01 X1"]
    = [lit "%"; lit "N10 G01 X1"; lit "N20 M02"]
  /\ normalize_lines default_config
       (normalize_lines default_config [lit "G01 X1"])
     = [lit "%"; lit "N10 G01 X1"; lit "N10 M02"]
  /\ normalize default_config (normalize_lines default_config [lit "G01 X1"])
     <> normalize default_config [lit "G01 X1"]
  /\ normalize_to_iso default_config
       (normalize_to_iso default_config (blit "G01 X1"))
     <> normalize_to_iso default_config (blit "G01 X1").
Proof.
  split; [reflexivity|]. split; [reflexivity|].
  split; vm_compute; discriminate.
Qed.

(** The theorem at the default configuration without the stop-code
    option, for a program of two lines. *)
Lemma normalize_twice_witness :
  (0 <= start_n no_stop_config)%Z /\ (0 <= step no_stop_config)%Z
  /\ ensure_M02 no_stop_config = false
  /\ normalize_lines no_stop_config [lit "G01 X1 Y2 ; comment"; lit "G02 X3"]
     = [lit "%"; lit "N10 G01 X1 Y2"; lit "N20 G02 X3"]
  /\ normalize_lines no_stop_config
       (normalize_lines no_stop_config
          [lit "G01 X1 Y2 ; comment"; lit "G02 X3"])
     = normalize_lines no_stop_config
         [lit "G01 X1 Y2 ; comment"; lit "G02 X3"].
Proof.
  split; [cbn; lia|]. split; [cbn; lia|]. split; [reflexivity|].
  split; [reflexivity|].
  assert (Hs : (0 <= start_n no_stop_config)%Z) by (cbn; lia).
  assert (Hd : (0 <= step no_stop_config)%Z) by (cbn; lia).
  apply (normalize_twice no_stop_config Hs Hd
           [lit "G01 X1 Y2 ; comment"; lit "G02 X3"]).
  reflexivity.
Defined.

(** ** Comparator *)

(** The loop finds nothing exactly when the lines of every turn have the
    same content. *)
Lemma compare_loop_none (la lb : list str) (todo i : nat) :
  compare_loop la lb i todo = None
  <-> forall j, (i <= j < i + todo)%nat ->
        collapse_ws (line_at la j) = collapse_ws (line_at lb j).
Proof.
  revert i. induction todo as [|todo IH]; intros i; cbn [compare_loop].
  - split; [intros _ j Hj; lia|reflexivity].
  - destruct (str_eqb (collapse_ws (line_at la i)) (collapse_ws (line_at lb i)))
      eqn:E; cbn [negb].
    + apply str_eqb_eq in E. rewrite IH. split; intros H j Hj.
      * destruct (Nat.eq_dec j i) as [->|Hn]; [exact E|]. apply H. lia.
      * apply H. lia.
    + split; [discriminate|]. intros H.
      assert (E' : str_eqb (collapse_ws (line_at la i))
                           (collapse_ws (line_at lb i)) = true).
      { apply str_eqb_eq, H. lia. }
      congruence.
Qed.

(** C8.  For every line sequence and every policy, comparing the sequence
    with itself yields no divergence. *)
Theorem compare_reflexive (pol : ComparisonPolicy) (F : list str) :
  compare pol F F = None.
Proof.
  unfold compare. apply compare_loop_none. reflexivity.
Qed.

Lemma compare_files_reflexive (pol : ComparisonPolicy) (a : list byte) :
  compare_files pol a a = None.
Proof. apply compare_reflexive. Qed.

Lemma line_at_app_l (p q : list str) (j : nat) :
  (j < List.length p)%nat -> line_at (p ++ q) j = strip (nth j p []).
Proof.
  intros H. unfold line_at. rewrite length_app.
  destruct (Nat.ltb_spec j (List.length p + List.length q)); [|lia].
  now rewrite app_nth1.
Qed.

Lemma line_at_app_r (p q : list str) (j : nat) :
  (List.length p <= j < List.length p + List.length q)%nat ->
  line_at (p ++ q) j = strip (nth (j - List.length p) q []).
Proof.
  intros H. unfold line_at. rewrite length_app.
  destruct (Nat.ltb_spec j (List.length p + List.length q)); [|lia].
  rewrite app_nth2; [reflexivity|lia].
Qed.

Lemma line_at_past (p : list str) (j : nat) :
  (List.length p <= j)%nat -> line_at p j = EOF.
Proof.
  intros H. unfold line_at.
  destruct (Nat.ltb_spec j (List.length p)); [lia|reflexivity].
Qed.

Lemma same_content_nth (pa pb : list str) (j : nat) :
  Forall2 same_content pa pb -> (j < List.length pa)%nat ->
  collapse_ws (strip (nth j pa [])) = collapse_ws (strip (nth j pb [])).
Proof.
  intros H. revert j. induction H as [|a b ta tb Hab _ IH]; intros j Hj.
  - cbn in Hj. lia.
  - destruct j as [|j]; [exact Hab|]. cbn. apply IH. cbn in Hj. lia.
Qed.

(** When one side is the other, up to contents, followed by lines that
    read as the placeholder, every turn of the loop sees equal contents. *)
Lemma compare_loop_EOF_tail (pa pb extra : list str) (j : nat) :
  Forall2 same_content pa pb -> Forall reads_as_EOF extra ->
  collapse_ws (line_at (pa ++ extra) j) = collapse_ws (line_at pb j).
Proof.
  intros H2 He. pose proof (Forall2_length H2) as Hlen.
  destruct (Nat.lt_ge_cases j (List.length pa)) as [Hj|Hj].
  - rewrite line_at_app_l by exact Hj.
    replace pb with (pb ++ []) by apply app_nil_r.
    rewrite line_at_app_l by lia. now apply same_content_nth.
  - rewrite (line_at_past pb) by lia.
    destruct (Nat.lt_ge_cases j (List.length pa + List.length extra)) as [Hk|Hk].
    + rewrite line_at_app_r by lia.
      rewrite Forall_forall in He.
      rewrite (He (nth (j - List.length pa) extra [])); [reflexivity|].
      apply nth_In. lia.
    + rewrite line_at_past; [reflexivity|]. rewrite length_app. lia.
Qed.

(** C10.  The comparator reports no divergence for inputs whose trimmed
    sequences have different lengths, whenever the longer one is the
    shorter one, up to contents, followed by lines whose trimmed content
    with white-space runs collapsed is the literal <EOF>: such a line
    equals the placeholder of the side that ran out. *)
Theorem compare_blind_to_EOF_lines (pol : ComparisonPolicy)
    (A B pa pb extra : list str) :
  extra <> [] ->
  Forall2 same_content pa pb ->
  Forall reads_as_EOF extra ->
  (trim pol A = pa ++ extra /\ trim pol B = pb)
  \/ (trim pol A = pa /\ trim pol B = pb ++ extra) ->
  compare pol A B = None
  /\ List.length (trim pol A) <> List.length (trim pol B).
Proof.
  intros Hne H2 He Hcase. pose proof (Forall2_length H2) as Hlen.
  assert (Hx : List.length extra <> 0%nat) by (destruct extra; cbn; congruence).
  unfold compare.
  destruct Hcase as [[-> ->]|[-> ->]]; (split; [|rewrite length_app; lia]);
    apply compare_loop_none; intros j _.
  - now apply compare_loop_EOF_tail.
  - symmetry. apply compare_loop_EOF_tail; [|exact He].
    clear -H2. induction H2; constructor; auto. now symmetry.
Qed.

(** The theorem at the sequences ["<EOF>"] and []. *)
Lemma compare_blind_to_EOF_lines_witness :
  compare default_policy [lit "<EOF>"] [] = None
  /\ List.length (trim default_policy [lit "<EOF>"])
     <> List.length (trim default_policy []).
Proof.
  apply (compare_blind_to_EOF_lines _ [lit "<EOF>"] [] [] [] [lit "<EOF>"]).
  - discriminate.
  - constructor.
  - constructor; [reflexivity|constructor].
  - left. split; reflexivity.
Defined.

(** Under every policy the one line <EOF> compares equal to no line. *)
Lemma compare_EOF_line_every_policy (pol : ComparisonPolicy) :
  trim pol [lit "<EOF>"] = [lit "<EOF>"] /\ trim pol [] = []
  /\ compare pol [lit "<EOF>"] [] = None.
Proof. destruct pol as [[|] [|]]; repeat split. Qed.

(* ================================================================== *)
(** * Further properties of the code *)
(* ================================================================== *)

(** ** Encoding / line inspector *)

Lemma count_single (c : byte) (data : list byte) :
  count_from 0 [c] data = List.length (filter (Byte.eqb c) data).
Proof.
  induction data as [|b t IH]; [reflexivity|].
  rewrite count_single_step, IH. cbn. now destruct (Byte.eqb c b).
Qed.

Lemma filter_CR_LF_length (data : list byte) :
  (List.length (filter (Byte.eqb x0a) data)
   + List.length (filter (Byte.eqb x0d) data) <= List.length data)%nat.
Proof.
  induction data as [|b t IH]; [cbn; lia|]. cbn [filter List.length].
  destruct (Byte.eqb x0a b) eqn:E1; destruct (Byte.eqb x0d b) eqn:E2;
    cbn [List.length]; try lia.
  apply Byte.byte_dec_bl in E1, E2. rewrite <- E1 in E2. discriminate.
Qed.

(** X1.  The three counts of [detect_eol_stats] are never negative, and
    they account for every line-ending byte: the CR LF pairs and the lone
    LFs are all the LF bytes, the CR LF pairs and the lone CRs are all the
    CR bytes, and together they take no more bytes than the buffer has. *)
Theorem detect_eol_stats_accounts (data : list byte) :
  let '(crlf, lf, cr) := detect_eol_stats data in
  (0 <= crlf)%Z /\ (0 <= lf)%Z /\ (0 <= cr)%Z
  /\ (crlf + lf)%Z = Z.of_nat (List.length (filter (Byte.eqb x0a) data))
  /\ (crlf + cr)%Z = Z.of_nat (List.length (filter (Byte.eqb x0d) data))
  /\ (2 * crlf + lf + cr <= Z.of_nat (List.length data))%Z.
Proof.
  unfold detect_eol_stats, bytes_count.
  destruct (count_crlf_le _ data (Nat.le_refl _)) as [H1 H2].
  pose proof (filter_CR_LF_length data) as H3.
  unfold LF_bytes, CR_bytes in *. rewrite !count_single in *. lia.
Qed.

(** X2.  The label that [analyze_file] works out with its own chain of
    tests is the label of [detect_line_endings_label], and the counts it
    reports are those of [detect_eol_stats]. *)
Theorem analyze_file_eol_agrees (data : list byte) :
  label (eol (analyze_file data)) = detect_line_endings_label data
  /\ (eol_crlf (eol (analyze_file data)), eol_lf (eol (analyze_file data)),
      eol_cr (eol (analyze_file data))) = detect_eol_stats data
  /\ bytes (analyze_file data) = List.length data.
Proof.
  unfold analyze_file, detect_line_endings_label.
  destruct (detect_eol_stats data) as [[c l] r]. cbn.
  repeat split. destruct (truthy c), (truthy l), (truthy r); reflexivity.
Qed.

(** X3.  The label is NONE exactly when the buffer holds no CR byte and no
    LF byte. *)
Theorem label_NONE_iff (data : list byte) :
  detect_line_endings_label data = "NONE"%string
  <-> Forall (fun b => b <> x0a /\ b <> x0d) data.
Proof.
  unfold detect_line_endings_label, detect_eol_stats, bytes_count.
  destruct (count_crlf_le _ data (Nat.le_refl _)) as [H1 H2].
  unfold LF_bytes, CR_bytes in *. rewrite !count_single in *.
  set (crlf := count_from 0 CRLF_bytes data) in *.
  set (nl := List.length (filter (Byte.eqb x0a) data)) in *.
  set (nr := List.length (filter (Byte.eqb x0d) data)) in *.
  assert (Hz : (nl = 0 /\ nr = 0)%nat
               <-> Forall (fun b => b <> x0a /\ b <> x0d) data).
  { unfold nl, nr. clear. induction data as [|b t IH].
    - split; [constructor|now split].
    - cbn [filter]. split.
      + intros [Hl Hr].
        destruct (Byte.eqb x0a b) eqn:E1; [discriminate|].
        destruct (Byte.eqb x0d b) eqn:E2; [discriminate|].
        constructor; [|now apply IH]. split; intros ->.
        * now rewrite (Byte.byte_dec_lb eq_refl) in E1.
        * now rewrite (Byte.byte_dec_lb eq_refl) in E2.
      + intros H. inversion H as [|? ? [Ha Hd] Ht]; subst.
        destruct (Byte.eqb x0a b) eqn:E1;
          [apply Byte.byte_dec_bl in E1; congruence|].
        destruct (Byte.eqb x0d b) eqn:E2;
          [apply Byte.byte_dec_bl in E2; congruence|].
        now apply IH. }
  rewrite <- Hz. unfold truthy.
  destruct (Z.eqb_spec (Z.of_nat crlf) 0),
           (Z.eqb_spec (Z.of_nat nl - Z.of_nat crlf) 0),
           (Z.eqb_spec (Z.of_nat nr - Z.of_nat crlf) 0); cbn;
    split; intros H; try discriminate; try reflexivity; try lia.
Qed.

Lemma decode_ascii_all (data : list byte) :
  Forall (fun b => Byte.to_N b <= 127) data
  <-> decode_ascii data = Some (decode_latin1 data).
Proof.
  induction data as [|b t IH]; cbn [decode_ascii decode_latin1 map].
  - split; [reflexivity|constructor].
  - destruct (N.leb_spec (Byte.to_N b) 127) as [Hb|Hb].
    + split.
      * intros H. inversion H; subst. apply IH in H3.
        unfold decode_latin1 in H3. now rewrite H3.
      * intros H. constructor; [exact Hb|]. apply IH.
        destruct (decode_ascii t) as [s|]; [|discriminate].
        inversion H. reflexivity.
    + split; [|discriminate]. intros H. inversion H; subst. lia.
Qed.

(** X4.  On a buffer of bytes up to 127, and on no other, the decoding of
    the analysis path succeeds as plain ASCII, gives the text that the
    latin-1 decoding of the normalizer and the comparator gives, and the
    report counts no byte above 127. *)
Theorem safe_decode_ascii_iff (data : list byte) :
  (Forall (fun b => Byte.to_N b <= 127) data
   <-> decode_ascii data = Some (decode_latin1 data))
  /\ (Forall (fun b => Byte.to_N b <= 127) data
      <-> safe_decode data = decode_latin1 data)
  /\ (Forall (fun b => Byte.to_N b <= 127) data
      <-> non_ascii_count (analyze_file data) = 0%nat).
Proof.
  split; [apply decode_ascii_all|]. split.
  - rewrite safe_decode_replace. unfold decode_ascii_replace, decode_latin1.
    induction data as [|b t IH]; [split; [reflexivity|constructor]|].
    cbn [map]. split.
    + intros H. inversion H as [|? ? Hb Ht]; subst.
      apply N.leb_le in Hb. rewrite Hb. f_equal. now apply IH.
    + intros H. injection H as Hb Ht.
      constructor; [|now apply IH].
      destruct (N.leb_spec (Byte.to_N b) 127) as [Hle|Hgt]; [exact Hle|].
      pose proof (Byte.to_N_bounded b) as Hbd. unfold REPLACEMENT in Hb. lia.
  - unfold analyze_file. destruct (detect_eol_stats data) as [[c l] r].
    cbn [non_ascii_count]. unfold non_ascii_positions.
    rewrite non_ascii_positions_length.
    induction data as [|b t IH]; [split; [reflexivity|constructor]|].
    cbn [filter]. destruct (N.ltb_spec 127 (Byte.to_N b)) as [Hb|Hb].
    + split; [|discriminate]. intros H. inversion H; subst. lia.
    + rewrite <- IH. split; intros H; [now inversion H|now constructor].
Qed.

Lemma non_ascii_positions_ascending (data : list byte) (i : nat) :
  ascending i (i + List.length data) (non_ascii_positions_from i data).
Proof.
  revert i. induction data as [|b t IH]; intros i; cbn; [lia|].
  specialize (IH (S i)).
  replace (i + S (List.length t))%nat with (S i + List.length t)%nat by lia.
  destruct (127 <? Byte.to_N b).
  - split; [lia|exact IH].
  - apply (ascending_weaken (S i) i (S i + List.length t)
             (S i + List.length t)); [lia|lia|exact IH].
Qed.

Lemma ascending_firstn (n lo hi : nat) (ks : list nat) :
  ascending lo hi ks -> ascending lo hi (firstn n ks).
Proof.
  revert lo ks. induction n as [|n IH]; intros lo ks H.
  - cbn. now apply ascending_bounds in H.
  - destruct ks as [|k t]; [exact H|]. destruct H as [H1 H2].
    cbn. split; [exact H1|now apply IH].
Qed.

(** X5.  The sample of the positions of the bytes above 127 holds the
    first 10 of them, or all when there are fewer: it has min(10, count)
    positions, they strictly increase and lie inside the buffer, and each
    is the position of a byte above 127; the count is at most the number of
    bytes. *)
Theorem non_ascii_sample_spec (data : list byte) :
  let r := analyze_file data in
  List.length (non_ascii_sample r) = Nat.min 10 (non_ascii_count r)
  /\ (non_ascii_count r <= bytes r)%nat
  /\ ascending 0 (bytes r) (non_ascii_sample r)
  /\ (forall p, In p (non_ascii_sample r) ->
        exists b, nth_error data p = Some b /\ 127 < Byte.to_N b)
  /\ ((non_ascii_count r <= 10)%nat ->
      forall p b, nth_error data p = Some b -> 127 < Byte.to_N b ->
        In p (non_ascii_sample r)).
Proof.
  unfold analyze_file. destruct (detect_eol_stats data) as [[c l] e].
  cbn [non_ascii_sample non_ascii_count bytes].
  assert (Hin : forall p, In p (non_ascii_positions data) <->
                  exists b, nth_error data p = Some b /\ 127 < Byte.to_N b).
  { intros p. unfold non_ascii_positions.
    rewrite non_ascii_positions_from_spec, Nat.sub_0_r.
    split; intros (b & H); exists b; [tauto|]. split; [lia|tauto]. }
  split; [apply length_firstn|]. split.
  { unfold non_ascii_positions. rewrite non_ascii_positions_length.
    apply filter_length_le. }
  split.
  { apply ascending_firstn. apply (non_ascii_positions_ascending data 0). }
  split.
  - intros p Hp. apply Hin.
    rewrite <- (firstn_skipn 10 (non_ascii_positions data)).
    apply in_or_app. now left.
  - intros Hle p b Hp Hb. rewrite firstn_all2 by exact Hle.
    apply Hin. eauto.
Qed.

Lemma splitlines_from_unbroken (P : char -> Prop) (n : nat) (s cur : str)
    (open : bool) :
  (List.length s <= n)%nat -> Forall P s ->
  Forall (fun c => P c /\ is_linebreak c = false) cur ->
  Forall (Forall (fun c => P c /\ is_linebreak c = false))
         (splitlines_from cur open s).
Proof.
  revert s cur open. induction n as [|n IH]; intros s cur open Hn Hs Hcur;
    assert (Hr : Forall (fun c => P c /\ is_linebreak c = false) (rev cur))
      by now apply Forall_rev.
  - destruct s; [|cbn in Hn; lia].
    cbn. destruct open; repeat constructor. exact Hr.
  - destruct s as [|c t].
    + cbn. destruct open; repeat constructor. exact Hr.
    + inversion Hs as [|? ? Hc Ht]; subst. cbn in Hn.
      cbn [splitlines_from]. destruct (c =? 0x0D).
      * destruct t as [|c' t'].
        -- repeat constructor. exact Hr.
        -- inversion Ht as [|? ? Hc' Ht']; subst. cbn in Hn.
           destruct (c' =? 0x0A); (constructor; [exact Hr|]);
             apply IH; try constructor; auto; cbn; lia.
      * destruct (is_linebreak c) eqn:Ec.
        -- constructor; [exact Hr|]. apply IH; [lia|exact Ht|constructor].
        -- apply IH; [lia|exact Ht|]. constructor; [now split|exact Hcur].
Qed.

(** X6.  No line that [str.splitlines] gives holds a character at which
    it breaks lines, and every character of a line is a character of the
    text; so the lines that the normalizer and the comparator read from a
    file hold code points up to 255 and no CR, LF, VT, FF, FS, GS, RS or
    NEL. *)
Theorem splitlines_unbroken (s : str) (data : list byte) :
  Forall (Forall (fun c => In c s /\ is_linebreak c = false)) (splitlines s)
  /\ Forall (Forall plain) (splitlines (read_text_latin1 data))
  /\ Forall (Forall (fun c => (c <= 127 \/ c = REPLACEMENT)
                              /\ is_linebreak c = false))
            (splitlines (safe_decode data)).
Proof.
  split; [|split].
  - apply (splitlines_from_unbroken (fun c => In c s) _ s [] false
             (Nat.le_refl _)); [|constructor].
    apply Forall_forall. auto.
  - apply read_lines_plain.
  - apply (splitlines_from_unbroken (fun c => c <= 127 \/ c = REPLACEMENT)
             _ _ [] false (Nat.le_refl _)); [|constructor].
    rewrite safe_decode_replace. unfold decode_ascii_replace.
    apply Forall_forall. intros c Hc. apply in_map_iff in Hc.
    destruct Hc as (b & <- & _).
    destruct (N.leb_spec (Byte.to_N b) 127); [now left|now right].
Qed.

(** X7.  What the normalizer writes for lines of plain characters is
    read back, by the reading of the normalizer and of the comparator, as
    those lines: writing and reading a file is a round trip on every
    sequence of at least one such line, under either line ending. *)
Theorem write_read_round_trip (cfg : NormalizationConfig) (lines : list str) :
  Forall (Forall plain) lines -> lines <> [] ->
  splitlines (read_text_latin1 (write_lines cfg lines)) = lines.
Proof.
  intros Hp Hne. rewrite read_written by exact Hp.
  destruct lines; [congruence|reflexivity].
Qed.

(** The theorem at two lines, with LF as the line ending. *)
Lemma write_read_round_trip_witness :
  splitlines
    (read_text_latin1
       (write_lines {| start_n := 10; step := 10; add_percent := true;
                       ensure_M02 := true; crlf := false;
                       strip_semicolon := true |}
          [lit "%"; lit "N10 G01 X1"]))
  = [lit "%"; lit "N10 G01 X1"].
Proof.
  apply write_read_round_trip; [|discriminate].
  repeat constructor; cbn; lia.
Defined.

(** ** Line analyzer *)

Lemma In_enumerate {A} (l : list A) (k i : nat) (x : A) :
  In (i, x) (enumerate k l)
  <-> (k <= i)%nat /\ nth_error l (i - k) = Some x.
Proof.
  revert k. induction l as [|y t IH]; intros k; cbn [enumerate In].
  - split; [tauto|]. intros (_ & H). now destruct (i - k)%nat.
  - rewrite IH. split.
    + intros [E|(Hk & Hn)].
      * injection E as -> ->. split; [lia|]. now rewrite Nat.sub_diag.
      * split; [lia|]. replace (i - k)%nat with (S (i - S k)) by lia.
        exact Hn.
    + intros (Hk & Hn). destruct (Nat.eq_dec k i) as [->|Hne].
      * left. rewrite Nat.sub_diag in Hn. cbn in Hn. congruence.
      * right. split; [lia|].
        replace (i - k)%nat with (S (i - S k)) in Hn by lia. exact Hn.
Qed.

Lemma In_positions (f : nat -> nat) (p : str -> bool) (k : nat)
    (lines : list str) (q : nat) :
  In q (positions f p k lines)
  <-> exists i ln, q = f i /\ (k <= i)%nat
        /\ nth_error lines (i - k) = Some ln /\ p ln = true.
Proof.
  unfold positions. rewrite in_map_iff. split.
  - intros ((i, ln) & E & H). apply filter_In in H. destruct H as (H & Hp).
    apply In_enumerate in H. exists i, ln. cbn in *. intuition congruence.
  - intros (i & ln & E & Hk & Hn & Hp). exists (i, ln). split; [now cbn|].
    apply filter_In. split; [|exact Hp]. now apply In_enumerate.
Qed.

Lemma ascending_positions (p : str -> bool) (k : nat) (lines : list str) :
  ascending (S k) (S k + List.length lines) (positions S p k lines).
Proof.
  unfold positions. revert k.
  induction lines as [|ln t IH]; intros k; cbn [enumerate filter map].
  - cbn. lia.
  - cbn [List.length]. destruct (p (snd (k, ln))).
    + cbn [map fst ascending]. split; [lia|].
      replace (S k + S (List.length t))%nat with (S (S k) + List.length t)%nat
        by lia.
      apply IH.
    + replace (S k + S (List.length t))%nat with (S (S k) + List.length t)%nat
        by lia.
      apply (ascending_weaken (S (S k)) (S k) _ _ _ ltac:(lia) (Nat.le_refl _)).
      apply IH.
Qed.

Lemma nth_error_last {A} (l : list A) (d : A) :
  l <> [] -> nth_error l (List.length l - 1) = Some (last l d).
Proof.
  intros H. rewrite (app_removelast_last d H) at 1 2.
  rewrite length_app, nth_error_app2 by (cbn; lia).
  cbn [List.length].
  now replace (_ - _)%nat with 0%nat by lia.
Qed.

Lemma search_M02_from_split (prev : option char) (s : str) :
  search_M02_from prev s
  = search_word_from (lit "M02") prev s || search_word_from (lit "M2") prev s.
Proof.
  revert prev. induction s as [|c t IH]; intros prev;
    cbn [search_M02_from search_word_from].
  - now rewrite !orb_false_r.
  - rewrite IH.
    destruct (match_word_at (lit "M02") prev (c :: t)),
             (match_word_at (lit "M2") prev (c :: t)),
             (search_word_from (lit "M02") (Some c) t),
             (search_word_from (lit "M2") (Some c) t); reflexivity.
Qed.

(** The expression with the optional [0] finds what the two stop codes
    [M02] and [M2] find. *)
Lemma search_M02_split (s : str) :
  search_M02 s = search_word (lit "M02") s || search_word (lit "M2") s.
Proof. apply search_M02_from_split. Qed.

Lemma stop_code_table_In (codes : list string) (lines : list str)
    (code : string) (pos : list nat) :
  In (code, pos) (stop_code_table codes lines)
  <-> In code codes /\ pos <> []
      /\ pos = positions S (search_word (lit code)) 0 lines.
Proof.
  induction codes as [|c rest IH]; cbn [stop_code_table In]; [tauto|].
  destruct (positions S (search_word (lit c)) 0 lines) as [|p ps] eqn:E;
    cbn [is_empty In]; rewrite IH.
  - split; [tauto|]. intros ([->|H] & Hne & Hp); [congruence|tauto].
  - split.
    + intros [H|H]; [|tauto]. injection H as <- <-.
      repeat split; [now left|discriminate|now rewrite E].
    + intros ([->|H] & Hne & Hp); [left|tauto]. now rewrite Hp, E.
Qed.

Lemma stop_code_table_keys (codes : list string) (lines : list str) :
  exists keep, map fst (stop_code_table codes lines) = filter keep codes.
Proof.
  exists (fun c =>
            negb (is_empty (positions S (search_word (lit c)) 0 lines))).
  induction codes as [|c rest IH]; [reflexivity|].
  cbn [stop_code_table filter].
  destruct (is_empty _); cbn [negb map fst]; now rewrite IH.
Qed.

(** X14.  The stop-code dictionary of the report.  Its keys are stop-like
    codes, each once and in the order M0, M00, M1, M01, M2, M02, M30; no
    entry is empty; the entry of a code lists, in increasing order, the
    1-based numbers of the lines on which the code stands as a word; a
    code that stands on some line has an entry.  The report says that the
    program ends with M02 exactly when the number of the last line is in
    the entry of M2 or of M02. *)
Theorem stop_codes_spec (lines : list str) :
  let r := analyze_text_lines lines in
  (forall code pos, In (code, pos) (stop_codes r) ->
     In code STOP_CODES /\ pos <> []
     /\ ascending 1 (S (List.length lines)) pos
     /\ forall p, In p pos <->
          (1 <= p)%nat /\ exists ln, nth_error lines (p - 1) = Some ln
                                     /\ search_word (lit code) ln = true)
  /\ (forall code ln, In code STOP_CODES -> In ln lines ->
        search_word (lit code) ln = true ->
        exists pos, In (code, pos) (stop_codes r))
  /\ (exists keep, map fst (stop_codes r) = filter keep STOP_CODES)
  /\ NoDup (map fst (stop_codes r))
  /\ (ends_with_M02 r = true <->
      exists code pos, (code = "M2" \/ code = "M02")%string
        /\ In (code, pos) (stop_codes r) /\ In (List.length lines) pos).
Proof.
  cbn zeta. cbn [stop_codes ends_with_M02 analyze_text_lines].
  assert (Hpos : forall code p,
            In p (positions S (search_word (lit code)) 0 lines) <->
            (1 <= p)%nat /\ exists ln, nth_error lines (p - 1) = Some ln
                                  /\ search_word (lit code) ln = true).
  { intros code p. rewrite In_positions. split.
    - intros (i & ln & -> & _ & Hn & Hp). split; [lia|]. exists ln.
      rewrite Nat.sub_0_r in Hn.
      now replace (S i - 1)%nat with i by lia.
    - intros (Hp & ln & Hn & Hs). exists (p - 1)%nat, ln.
      rewrite Nat.sub_0_r. repeat split; try assumption; lia. }
  assert (Hentry : forall code ln, In code STOP_CODES -> In ln lines ->
            search_word (lit code) ln = true ->
            In (code, positions S (search_word (lit code)) 0 lines)
               (stop_code_table STOP_CODES lines)).
  { intros code ln Hc Hl Hs. apply stop_code_table_In.
    split; [exact Hc|]. split; [|reflexivity].
    apply In_nth_error in Hl. destruct Hl as (k & Hk).
    assert (H : In (S k) (positions S (search_word (lit code)) 0 lines)).
    { apply Hpos. split; [lia|]. exists ln.
      now replace (S k - 1)%nat with k by lia. }
    intros E. now rewrite E in H. }
  split; [|split; [|split; [|split]]].
  - intros code pos H. apply stop_code_table_In in H.
    destruct H as (Hc & Hne & ->).
    split; [exact Hc|]. split; [exact Hne|].
    split; [apply ascending_positions|]. intros p. apply Hpos.
  - intros code ln Hc Hl Hs. eexists. now apply (Hentry code ln).
  - apply stop_code_table_keys.
  - destruct (stop_code_table_keys STOP_CODES lines) as (keep & ->).
    apply NoDup_filter. unfold STOP_CODES.
    repeat (constructor; [cbn; intuition discriminate|]). constructor.
  - split.
    + intros H. apply andb_true_iff in H. destruct H as (Hne & Hs).
      assert (Hl : lines <> []) by (now destruct lines).
      pose proof (nth_error_last lines [] Hl) as Hn.
      rewrite search_M02_split in Hs. apply orb_true_iff in Hs.
      assert (Hin : In (last lines []) lines) by (eapply nth_error_In, Hn).
      assert (Hlen : (1 <= List.length lines)%nat)
        by (destruct lines; [congruence|cbn; lia]).
      destruct Hs as [Hs|Hs];
        [exists "M02"%string|exists "M2"%string];
        eexists; (split; [tauto|]);
        (split; [eapply Hentry; [cbn; tauto|exact Hin|exact Hs]|]);
        apply Hpos; (split; [exact Hlen|]); eexists; split; eauto.
    + intros (code & pos & Hc & Hin & Hp).
      apply stop_code_table_In in Hin. destruct Hin as (_ & _ & ->).
      apply Hpos in Hp. destruct Hp as (Hlen & ln & Hn & Hs).
      assert (Hl : lines <> []) by (destruct lines; [cbn in Hlen; lia|easy]).
      rewrite (nth_error_last lines [] Hl) in Hn. injection Hn as <-.
      apply andb_true_iff. split; [now destruct lines|].
      rewrite search_M02_split. apply orb_true_iff.
      destruct Hc as [-> | ->]; [right|left]; exact Hs.
Qed.

Lemma nth_error_inner {A} (l : list A) (j : nat) :
  nth_error (inner l) j
  = if (S (S j) <? List.length l)%nat then nth_error l (S j) else None.
Proof.
  unfold inner. rewrite removelast_firstn_len, nth_error_firstn.
  destruct l as [|x t]; cbn [tl List.length Nat.pred].
  - now destruct j.
  - cbn [nth_error].
    destruct (j <? Nat.pred (List.length t))%nat eqn:E1,
             (S (S j) <? S (List.length t))%nat eqn:E2; try reflexivity;
      apply Nat.ltb_lt in E1 || apply Nat.ltb_ge in E1;
      apply Nat.ltb_lt in E2 || apply Nat.ltb_ge in E2; lia.
Qed.

(** X15.  The positions of stray [%] lines.  Only the lines between the
    first and the last are looked at, and the number recorded for such a
    line is its 1-based number plus one: [p] is recorded exactly when the
    line of 1-based number [p - 1] is neither the first nor the last and
    is [%] once trimmed.  The positions come in increasing order. *)
Theorem stray_percent_positions_spec (lines : list str) (p : nat) :
  let r := analyze_text_lines lines in
  (In p (stray_percent_positions r) <->
   exists l ln, p = S l /\ (2 <= l < List.length lines)%nat
     /\ nth_error lines (l - 1) = Some ln /\ strip ln = lit "%")
  /\ ascending 3 (3 + List.length lines) (stray_percent_positions r).
Proof.
  cbn zeta. cbn [stray_percent_positions analyze_text_lines]. split.
  - rewrite In_positions. split.
    + intros (i & ln & -> & Hi & Hn & Hs). exists i, ln.
      rewrite nth_error_inner in Hn.
      destruct (S (S (i - 2)) <? List.length lines)%nat eqn:E; [|discriminate].
      apply Nat.ltb_lt in E. apply str_eqb_eq in Hs.
      replace (S (i - 2)) with (i - 1)%nat in Hn by lia.
      repeat split; try assumption; lia.
    + intros (l & ln & -> & Hl & Hn & Hs). exists l, ln.
      split; [reflexivity|]. split; [lia|]. split.
      * rewrite nth_error_inner.
        replace (S (S (l - 2)) <? List.length lines)%nat with true
          by (symmetry; apply Nat.ltb_lt; lia).
        now replace (S (l - 2)) with (l - 1)%nat by lia.
      * rewrite Hs. apply str_eqb_refl.
  - pose proof (ascending_positions
                  (fun ln => str_eqb (strip ln) (lit "%")) 2 (inner lines))
      as H.
    revert H. apply ascending_weaken; [lia|].
    unfold inner. rewrite removelast_firstn_len, length_firstn.
    rewrite Nat.min_l by lia.
    destruct lines as [|x t]; cbn [tl List.length]; lia.
Qed.

Lemma list_max_le (l : list nat) (n : nat) :
  In n l -> (n <= list_max l)%nat.
Proof.
  induction l as [|m t IH]; cbn [In list_max fold_right]; [tauto|].
  intros [->|H]; [lia|]. apply IH in H. unfold list_max in H. lia.
Qed.

Lemma list_max_attained (l : list nat) : l <> [] -> In (list_max l) l.
Proof.
  induction l as [|m t IH]; [congruence|]. intros _.
  cbn [list_max fold_right In]. destruct t as [|m' t'].
  - left. cbn. lia.
  - destruct (Nat.max_spec m (fold_right Nat.max 0%nat (m' :: t')))
      as [(_ & E)|(_ & E)]; rewrite E.
    + right. apply IH. discriminate.
    + now left.
Qed.

Lemma suspect_checks_In (len i : nat) (ln : str) (j : nat) (reason : string) :
  In (j, reason) (suspect_checks len i ln)
  <-> j = i
      /\ ((reason = "line too long"%string /\ (120 < List.length ln)%nat)
          \/ (reason = "tab character"%string /\ contains 0x09 ln = true)
          \/ (reason = "content after %"%string
              /\ search_percent_content ln = true /\ strip ln <> lit "%")
          \/ (reason = "M02 not at end"%string
              /\ search_M02 ln = true /\ i <> len)).
Proof.
  unfold suspect_checks. rewrite !in_app_iff.
  destruct (120 <? List.length ln)%nat eqn:E1;
    [apply Nat.ltb_lt in E1|apply Nat.ltb_ge in E1];
  destruct (contains 9 ln) eqn:E2;
  destruct (search_percent_content ln) eqn:E3;
  (destruct (str_eqb (strip ln) (lit "%")) eqn:E4;
    [apply str_eqb_eq in E4
    |assert (strip ln <> lit "%")
       by (intros E; rewrite E, str_eqb_refl in E4; discriminate)]);
  destruct (search_M02 ln) eqn:E5;
  (destruct (i =? len)%nat eqn:E6;
    [apply Nat.eqb_eq in E6|apply Nat.eqb_neq in E6]);
  cbn [andb negb In];
  (split;
   [intros H';
    repeat match goal with
           | H : _ \/ _ |- _ => destruct H
           | H : False |- _ => destruct H
           | H : (_, _) = (_, _) |- _ => injection H as <- <-
           end; (split; [reflexivity|tauto])
   |intros (-> & [(-> & H')|[(-> & H')|[(-> & H' & H'')|(-> & H' & H'')]]]);
    try tauto; try congruence; try lia]).
Qed.

(** The records of the report are those of the checks of its lines. *)
Lemma suspect_lines_In (lines : list str) (j : nat) (why : string) :
  In (j, why) (suspect_lines (analyze_text_lines lines))
  <-> exists ln, (1 <= j)%nat /\ nth_error lines (j - 1) = Some ln
        /\ In (j, why) (suspect_checks (List.length lines) j ln).
Proof.
  cbn [suspect_lines analyze_text_lines]. rewrite in_flat_map. split.
  - intros ((k, ln) & Hk & Hc). cbn [fst snd] in Hc.
    assert (j = k) by (now apply suspect_checks_In in Hc). subst k.
    apply In_enumerate in Hk. now exists ln.
  - intros (ln & Hj & Hn & Hc). exists (j, ln). split; [|exact Hc].
    now apply In_enumerate.
Qed.

(** X16.  The suspicion records of the report.  A record [(i, reason)] is
    there exactly when [i] is the 1-based number of a line for which the
    reason holds: more than 120 characters, a tab, a [%] followed on the
    line by something that is not white space (the line not being [%]
    alone), or [M2] / [M02] on a line that is not the last.  So no record
    names a line outside the program, and the last line is never reported
    for its stop code. *)
Theorem suspect_lines_spec (lines : list str) (i : nat) (reason : string) :
  let r := analyze_text_lines lines in
  (In (i, reason) (suspect_lines r) <->
   exists ln, (1 <= i <= total_lines r)%nat
     /\ nth_error lines (i - 1) = Some ln
     /\ ((reason = "line too long"%string /\ (120 < List.length ln)%nat)
         \/ (reason = "tab character"%string /\ contains 0x09 ln = true)
         \/ (reason = "content after %"%string
             /\ search_percent_content ln = true /\ strip ln <> lit "%")
         \/ (reason = "M02 not at end"%string
             /\ search_M02 ln = true /\ i <> total_lines r)))
  /\ ~ In (total_lines r, "M02 not at end"%string) (suspect_lines r).
Proof.
  cbn zeta. cbn [suspect_lines total_lines analyze_text_lines].
  pose proof (suspect_lines_In lines) as H.
  cbn [suspect_lines analyze_text_lines] in H.
  split.
  - rewrite H. split.
    + intros (ln & Hi & Hn & Hc). exists ln.
      apply suspect_checks_In in Hc. destruct Hc as (_ & Hc).
      assert ((i - 1 < List.length lines)%nat)
        by (apply nth_error_Some; congruence).
      split; [lia|]. split; [exact Hn|exact Hc].
    + intros (ln & Hi & Hn & Hc). exists ln.
      split; [lia|]. split; [exact Hn|].
      apply suspect_checks_In. split; [reflexivity|exact Hc].
  - rewrite H. intros (ln & _ & _ & Hc). apply suspect_checks_In in Hc.
    destruct Hc as (_ & [(E & _)|[(E & _)|[(E & _)|(_ & _ & E)]]]);
      congruence.
Qed.

(** X17.  The longest line.  No line is longer than [max_line_length],
    some line of a program that is not empty has this length, and the
    report holds a record [line too long] exactly when this length is
    more than 120. *)
Theorem max_line_length_spec (lines : list str) :
  let r := analyze_text_lines lines in
  (forall ln, In ln lines -> (List.length ln <= max_line_length r)%nat)
  /\ (lines <> [] ->
      exists ln, In ln lines /\ List.length ln = max_line_length r)
  /\ ((120 < max_line_length r)%nat <->
      exists i, In (i, "line too long"%string) (suspect_lines r)).
Proof.
  cbn zeta. cbn [max_line_length suspect_lines analyze_text_lines].
  assert (Hle : forall ln, In ln lines ->
            (List.length ln <= list_max (map (@List.length char) lines))%nat).
  { intros ln H. apply list_max_le. now apply in_map. }
  assert (Hat : lines <> [] ->
            exists ln, In ln lines
              /\ List.length ln = list_max (map (@List.length char) lines)).
  { intros H.
    assert (Hm : map (@List.length char) lines <> [])
      by (now destruct lines).
    apply list_max_attained, in_map_iff in Hm.
    destruct Hm as (ln & E & Hin). now exists ln. }
  split; [exact Hle|]. split; [exact Hat|]. split.
  - intros Hlong.
    assert (Hl : lines <> []) by (intros ->; cbn in Hlong; lia).
    destruct (Hat Hl) as (ln & Hin & E).
    apply In_nth_error in Hin. destruct Hin as (k & Hk).
    exists (S k). apply in_flat_map. exists (S k, ln). split.
    + apply In_enumerate. split; [lia|].
      now replace (S k - 1)%nat with k by lia.
    + apply suspect_checks_In. split; [reflexivity|]. left.
      split; [reflexivity|]. cbn [snd]. lia.
  - intros (i & H). apply in_flat_map in H.
    destruct H as ((k, ln) & Hk & Hc). apply suspect_checks_In in Hc.
    cbn [fst snd] in Hc.
    destruct Hc as (_ & [(_ & Hlen)|[(E & _)|[(E & _)|(E & _)]]]);
      try discriminate.
    apply In_enumerate in Hk. destruct Hk as (_ & Hk).
    apply nth_error_In, Hle in Hk. lia.
Qed.

Lemma take_while_stop (p : char -> bool) (a b : str) (x : N) :
  p x = false -> take_while p (a ++ x :: b) = take_while p a.
Proof.
  intros Hx. induction a as [|c t IH]; cbn [app take_while].
  - now rewrite Hx.
  - destruct (p c); [now rewrite IH|reflexivity].
Qed.

Lemma drop_while_stop (p : char -> bool) (a b : str) (x : N) :
  p x = false -> drop_while p (a ++ x :: b) = drop_while p a ++ x :: b.
Proof.
  intros Hx. induction a as [|c t IH]; cbn [app drop_while].
  - now rewrite Hx.
  - destruct (p c); [exact IH|reflexivity].
Qed.

(** A match of the decimal expression: the fraction is a run of digits
    that is not empty, and the match lies within the string. *)
Lemma match_decimal_spec (s fp : str) (len : nat) :
  match_decimal s = Some (fp, len) ->
  fp <> [] /\ forallb is_digit fp = true /\ (1 <= len <= List.length s)%nat.
Proof.
  unfold match_decimal. destruct s as [|c t]; [discriminate|].
  destruct (is_axis c); [|discriminate].
  assert (H : forall (sgn : nat) (t1 : str),
            (sgn + List.length t1 = List.length t)%nat ->
            match take_while is_digit t1, drop_while is_digit t1 with
            | (_ :: _) as ip, d :: t2 =>
                if d =? chr "." then
                  match take_while is_digit t2 with
                  | [] => None
                  | fp =>
                      Some (fp, (1 + sgn + List.length ip + 1
                                 + List.length fp)%nat)
                  end
                else None
            | _, _ => None
            end = Some (fp, len) ->
            fp <> [] /\ forallb is_digit fp = true
            /\ (1 <= len <= List.length (c :: t))%nat).
  { intros sgn t1 Hl.
    pose proof (take_drop_length is_digit t1) as L1.
    destruct (take_while is_digit t1) as [|i ip]; [discriminate|].
    destruct (drop_while is_digit t1) as [|d t2]; [discriminate|].
    destruct (d =? chr "."); [|discriminate].
    pose proof (take_drop_length is_digit t2) as L2.
    pose proof (take_while_forallb is_digit t2) as F2.
    destruct (take_while is_digit t2) as [|f fp']; [discriminate|].
    intros E. injection E as <- <-.
    split; [discriminate|]. split; [exact F2|].
    cbn [List.length] in *. lia. }
  destruct t as [|c1 t'].
  - apply (H 0%nat []). reflexivity.
  - destruct (is_sign c1).
    + apply (H 1%nat t'). reflexivity.
    + apply (H 0%nat (c1 :: t')). reflexivity.
Qed.

(** The decimal expression matches no line feed: a match that starts
    before a line feed ends before it. *)
Lemma match_decimal_line (s rest : str) :
  match_decimal (s ++ 0x0A :: rest) = match_decimal s.
Proof.
  destruct s as [|c t]; [reflexivity|].
  unfold match_decimal. cbn [app]. destruct (is_axis c); [|reflexivity].
  assert (H : forall (sgn : nat) (t1 : str),
            match take_while is_digit (t1 ++ 0x0A :: rest),
                  drop_while is_digit (t1 ++ 0x0A :: rest) with
            | (_ :: _) as ip, d :: t2 =>
                if d =? chr "." then
                  match take_while is_digit t2 with
                  | [] => None
                  | fp =>
                      Some (fp, (1 + sgn + List.length ip + 1
                                 + List.length fp)%nat)
                  end
                else None
            | _, _ => None
            end
            = match take_while is_digit t1, drop_while is_digit t1 with
              | (_ :: _) as ip, d :: t2 =>
                  if d =? chr "." then
                    match take_while is_digit t2 with
                    | [] => None
                    | fp =>
                        Some (fp, (1 + sgn + List.length ip + 1
                                   + List.length fp)%nat)
                    end
                  else None
              | _, _ => None
              end).
  { intros sgn t1.
    rewrite (take_while_stop is_digit t1 rest 0x0A eq_refl).
    rewrite (drop_while_stop is_digit t1 rest 0x0A eq_refl).
    destruct (take_while is_digit t1) as [|i ip]; [reflexivity|].
    destruct (drop_while is_digit t1) as [|d t2]; [reflexivity|].
    cbn [app]. destruct (d =? chr "."); [|reflexivity].
    now rewrite (take_while_stop is_digit t2 rest 0x0A eq_refl). }
  destruct t as [|c1 t'].
  - apply (H 0%nat []).
  - cbn [app]. destruct (is_sign c1).
    + apply (H 1%nat t').
    + apply (H 0%nat (c1 :: t')).
Qed.

Lemma findall_decimals_from_line (s rest : str) (skip : nat) :
  (skip <= List.length s)%nat ->
  findall_decimals_from skip (s ++ 0x0A :: rest)
  = findall_decimals_from skip s ++ findall_decimals rest.
Proof.
  revert skip. induction s as [|c t IH]; intros skip Hs.
  - cbn [List.length] in Hs. replace skip with 0%nat by lia. reflexivity.
  - cbn [app findall_decimals_from]. destruct skip as [|k].
    + change (c :: t ++ 0x0A :: rest) with ((c :: t) ++ 0x0A :: rest).
      rewrite match_decimal_line.
      destruct (match_decimal (c :: t)) as [(fp, len)|] eqn:E.
      * apply match_decimal_spec in E. cbn [List.length] in E.
        rewrite IH by lia. reflexivity.
      * apply IH. lia.
    + apply IH. cbn [List.length] in Hs. lia.
Qed.

(** The decimals of a program are those of its lines, line by line: the
    text is joined with line feeds, and no match goes over a line feed. *)
Lemma findall_decimals_join (lines : list str) :
  findall_decimals (join [0x0A] lines) = flat_map findall_decimals lines.
Proof.
  induction lines as [|l rest IH]; [reflexivity|].
  cbn [flat_map]. rewrite <- IH. destruct rest as [|l' rest'].
  - cbn [join]. change (findall_decimals []) with (@nil str).
    now rewrite List.app_nil_r.
  - change (join [0x0A] (l :: l' :: rest'))
      with (l ++ 0x0A :: join [0x0A] (l' :: rest')).
    unfold findall_decimals at 1.
    apply findall_decimals_from_line. lia.
Qed.

Lemma findall_decimals_from_spec (s : str) (skip : nat) :
  Forall (fun d => d <> [] /\ forallb is_digit d = true)
         (findall_decimals_from skip s).
Proof.
  revert skip. induction s as [|c t IH]; intros skip; [constructor|].
  cbn [findall_decimals_from]. destruct skip as [|k]; [|apply IH].
  destruct (match_decimal (c :: t)) as [(fp, len)|] eqn:E; [|apply IH].
  apply match_decimal_spec in E. constructor; [tauto|apply IH].
Qed.

(** X18.  The precision figures of the report.  The decimals are the
    fractions of the axis words (X, Y, Z, I, J, F, an optional sign,
    digits, a point, digits), found line by line; each is a run of at
    least one digit.  [precision_max_places] is the length of the longest
    one (0 when there is none), and [precision_over_4_count] counts those
    of more than four digits, so it is 0 exactly when the maximum is at
    most 4. *)
Theorem precision_spec (lines : list str) :
  let r := analyze_text_lines lines in
  let decs := flat_map findall_decimals lines in
  findall_decimals (join [0x0A] lines) = decs
  /\ (forall d, In d decs ->
        forallb is_digit d = true
        /\ (1 <= List.length d <= precision_max_places r)%nat)
  /\ (decs <> [] ->
      exists d, In d decs /\ List.length d = precision_max_places r)
  /\ precision_over_4_count r
     = List.length (filter (fun d => (4 <? List.length d)%nat) decs)
  /\ (precision_max_places r = 0%nat <-> decs = [])
  /\ (precision_over_4_count r = 0%nat <->
      (precision_max_places r <= 4)%nat).
Proof.
  cbn zeta.
  cbn [precision_max_places precision_over_4_count analyze_text_lines].
  pose proof (findall_decimals_from_spec (join [0x0A] lines) 0) as Hd.
  fold (findall_decimals (join [0x0A] lines)) in Hd.
  rewrite findall_decimals_join in *.
  set (decs := flat_map findall_decimals lines) in *.
  assert (Hmax : (if is_empty decs then 0%nat
                  else list_max (map (@List.length char) decs))
                 = list_max (map (@List.length char) decs))
    by (now destruct decs).
  assert (Hcnt : (if is_empty decs then 0%nat
                  else List.length
                         (filter (fun d => (4 <? List.length d)%nat) decs))
                 = List.length
                     (filter (fun d => (4 <? List.length d)%nat) decs))
    by (now destruct decs).
  rewrite Hmax, Hcnt. clear Hmax Hcnt.
  assert (Hle : forall d, In d decs ->
            (List.length d <= list_max (map (@List.length char) decs))%nat).
  { intros d H. apply list_max_le. now apply in_map. }
  assert (Hat : decs <> [] ->
            exists d, In d decs
              /\ List.length d = list_max (map (@List.length char) decs)).
  { intros H.
    assert (Hm : map (@List.length char) decs <> []) by (now destruct decs).
    apply list_max_attained, in_map_iff in Hm.
    destruct Hm as (d & E & Hin). now exists d. }
  rewrite Forall_forall in Hd.
  assert (Hpos : forall d, In d decs -> (1 <= List.length d)%nat).
  { intros d H. apply Hd in H. destruct H as (H & _).
    destruct d; [congruence|cbn; lia]. }
  split; [reflexivity|]. split; [|split; [exact Hat|split; [reflexivity|]]].
  - intros d H. split; [now apply Hd|]. split; [now apply Hpos|now apply Hle].
  - split.
    + split.
      * intros E. destruct decs as [|d t] eqn:Ed; [reflexivity|].
        assert (Hin : In d (d :: t)) by now left.
        pose proof (Hpos d Hin). pose proof (Hle d Hin). lia.
      * now intros ->.
    + split.
      * intros E. destruct (Nat.le_gt_cases
                    (list_max (map (@List.length char) decs)) 4)
          as [H|H]; [exact H|exfalso].
        assert (Hne : decs <> []) by (intros E'; rewrite E' in H; cbn in H; lia).
        destruct (Hat Hne) as (d & Hin & El).
        assert (Hf : In d (filter (fun d => (4 <? List.length d)%nat) decs)).
        { apply filter_In. split; [exact Hin|]. apply Nat.ltb_lt. lia. }
        destruct (filter (fun d => (4 <? List.length d)%nat) decs);
          [destruct Hf|discriminate].
      * intros H.
        destruct (filter (fun d => (4 <? List.length d)%nat) decs)
          as [|d t] eqn:Ef; [reflexivity|exfalso].
        assert (Hin : In d (filter (fun d => (4 <? List.length d)%nat) decs))
          by (rewrite Ef; now left).
        apply filter_In in Hin. destruct Hin as (Hin & Hl).
        apply Nat.ltb_lt in Hl. apply Hle in Hin. lia.
Qed.

(** ** Normalizer *)

Lemma digits_plain (s : str) : forallb is_digit s = true -> Forall plain s.
Proof.
  intros H. apply Forall_forall. intros c Hc. apply digit_plain.
  rewrite forallb_forall in H. now apply H.
Qed.

(** [str(n)] is made of digits and, for a negative [n], a sign before
    them. *)
Lemma str_of_int_plain (n : Z) : Forall plain (str_of_int n).
Proof.
  destruct n as [|p|p].
  - now apply digits_plain.
  - apply digits_plain. apply str_of_int_nonneg. lia.
  - unfold str_of_int.
    cbn [Z.to_int DecimalString.NilZero.string_of_int].
    rewrite lit_cons. constructor; [split; [cbn; lia|reflexivity]|].
    apply digits_plain. unfold DecimalString.NilZero.string_of_uint.
    destruct (Pos.to_uint p) eqn:E; [reflexivity| | | | | | | | | |];
      rewrite <- E; apply uint_digits.
Qed.

Lemma numbered_plain_any (n : Z) (s : str) :
  Forall plain s -> Forall plain (numbered n s).
Proof.
  intros Hs. rewrite numbered_unfold.
  constructor; [split; [cbn; lia|reflexivity]|].
  apply Forall_app. split; [apply str_of_int_plain|].
  constructor; [apply plain_space|exact Hs].
Qed.

(** The output of plain lines is plain, under every configuration. *)
Lemma normalize_lines_plain_any (cfg : NormalizationConfig) (lines : list str) :
  Forall (Forall plain) lines ->
  Forall (Forall plain) (normalize_lines cfg lines).
Proof.
  intros Hl.
  destruct (numbering_loop_tagged_spec cfg lines) as (body & Hloop & _ & Hbody).
  assert (Hb : Forall (Forall plain) (map snd body)).
  { apply Forall_forall. intros l Hin. apply in_map_iff in Hin.
    destruct Hin as ([o l'] & E & Hin). cbn in E. subst l'.
    rewrite Forall_forall in Hbody, Hl.
    destruct (Hbody _ Hin) as [(_ & _ & ln & Hln & El)|(m & ln & Hln & _ & _ & E)].
    - cbn [snd] in El. rewrite El. apply Forall_prepared. now apply Hl.
    - inversion E; subst o l. apply numbered_plain_any.
      apply Forall_collapse_ws; [apply plain_space|].
      apply Forall_prepared. now apply Hl. }
  rewrite normalize_lines_loop, numbering_loop_erasure, Hloop.
  cbn [fst snd]. rewrite map_app, map_snd_untagged.
  assert (Hall : Forall (Forall plain) (header_lines cfg ++ map snd body)).
  { apply Forall_app. split; [apply header_lines_plain|exact Hb]. }
  destruct (ensure_M02 cfg); [|exact Hall].
  unfold enforce_M02. apply Forall_app. split.
  - rewrite Forall_forall in *. intros l Hin. apply filter_In in Hin.
    now apply Hall.
  - constructor; [|constructor]. apply numbered_plain_any.
    repeat constructor; cbn; lia.
Qed.

Lemma join_plain_latin1 (sep : str) (lines : list str) :
  Forall (fun c => c <= 255) sep -> Forall (Forall plain) lines ->
  Forall (fun c => c <= 255) (join sep lines).
Proof.
  intros Hsep H. induction H as [|l t Hl Ht IH]; [constructor|].
  assert (Hl' : Forall (fun c => c <= 255) l).
  { revert Hl. apply Forall_impl. now intros c [Hc _]. }
  destruct t as [|l' t']; [exact Hl'|].
  cbn [join] in *. repeat (apply Forall_app; split); auto.
Qed.

Lemma eol_latin1 (cfg : NormalizationConfig) :
  Forall (fun c => c <= 255) (eol_of cfg).
Proof. unfold eol_of. destruct (crlf cfg); repeat constructor; lia. Qed.

(** X8.  The normalizer writes every character of its output: the lines
    it emits hold code points up to 255 and no line break, whatever the
    input file and the configuration, so that encoding with
    errors="ignore" leaves nothing out and the file decodes to the
    serialised lines. *)
Theorem normalize_to_iso_writes_all (cfg : NormalizationConfig)
    (input : list byte) :
  let out_lines := normalize_lines cfg (splitlines (read_text_latin1 input)) in
  Forall (Forall plain) out_lines
  /\ decode_latin1 (normalize_to_iso cfg input) = serialize cfg out_lines
  /\ List.length (normalize_to_iso cfg input)
     = List.length (serialize cfg out_lines).
Proof.
  intros out_lines.
  assert (Hp : Forall (Forall plain) out_lines).
  { apply normalize_lines_plain_any, read_lines_plain. }
  assert (Hd : decode_latin1 (normalize_to_iso cfg input)
               = serialize cfg out_lines).
  { unfold normalize_to_iso, normalize, write_lines. fold out_lines.
    apply decode_encode_latin1. unfold serialize.
    apply Forall_app. split; [|apply eol_latin1].
    apply join_plain_latin1; [apply eol_latin1|exact Hp]. }
  split; [exact Hp|]. split; [exact Hd|].
  rewrite <- Hd. unfold decode_latin1. now rewrite length_map.
Qed.

Lemma encode_latin1_app (x y : str) :
  encode_latin1 (x ++ y) = encode_latin1 x ++ encode_latin1 y.
Proof.
  induction x as [|c t IH]; [reflexivity|]. cbn [app encode_latin1].
  destruct (Byte.of_N c); [cbn; now rewrite IH|exact IH].
Qed.

Lemma encode_plain_quiet (l : str) :
  Forall plain l ->
  Forall (fun b => b <> x0a /\ b <> x0d) (encode_latin1 l).
Proof.
  induction 1 as [|c t [Hc Hb] Ht IH]; [constructor|]. cbn [encode_latin1].
  destruct (Byte.of_N c) as [b|] eqn:E; [|exact IH].
  constructor; [|exact IH]. apply Byte.to_of_N in E.
  split; intros ->; cbn in E; subst c; discriminate.
Qed.

(** A run of bytes that are no CR and no LF holds no occurrence of a line
    ending and no beginning of one. *)
Lemma count_quiet (h : byte) (p bl rest : list byte) :
  h = x0a \/ h = x0d ->
  Forall (fun b => b <> x0a /\ b <> x0d) bl ->
  count_from 0 (h :: p) (bl ++ rest) = count_from 0 (h :: p) rest.
Proof.
  intros Hh. induction 1 as [|b t [Ha Hd] Ht IH]; [reflexivity|].
  cbn [app count_from is_prefix].
  replace (Byte.eqb h b) with false; [exact IH|].
  symmetry. destruct (Byte.eqb h b) eqn:E; [|reflexivity].
  apply Byte.byte_dec_bl in E. destruct Hh; congruence.
Qed.

Lemma count_crlf_at_pair (rest : list byte) :
  count_from 0 CRLF_bytes (x0d :: x0a :: rest)
  = S (count_from 0 CRLF_bytes rest).
Proof. reflexivity. Qed.

Lemma count_crlf_at_lf (rest : list byte) :
  count_from 0 CRLF_bytes (x0a :: rest) = count_from 0 CRLF_bytes rest.
Proof. reflexivity. Qed.

Lemma count_lines_crlf (bls : list (list byte)) :
  Forall (Forall (fun b => b <> x0a /\ b <> x0d)) bls ->
  let data := flat_map (fun l => l ++ [x0d; x0a]) bls in
  count_from 0 CRLF_bytes data = List.length bls
  /\ count_from 0 LF_bytes data = List.length bls
  /\ count_from 0 CR_bytes data = List.length bls.
Proof.
  induction 1 as [|l t Hl Ht IH]; [now repeat split|].
  cbn [flat_map List.length]. rewrite <- !app_assoc.
  unfold CRLF_bytes, LF_bytes, CR_bytes in *.
  rewrite (count_quiet x0d [x0a]) by (auto; exact Hl).
  rewrite (count_quiet x0a []) by (auto; exact Hl).
  rewrite (count_quiet x0d []) by (auto; exact Hl).
  destruct IH as (H1 & H2 & H3). cbn [app].
  fold CRLF_bytes in *. rewrite count_crlf_at_pair, !count_single_step.
  rewrite H1, H2, H3. repeat split.
Qed.

Lemma count_lines_lf (bls : list (list byte)) :
  Forall (Forall (fun b => b <> x0a /\ b <> x0d)) bls ->
  let data := flat_map (fun l => l ++ [x0a]) bls in
  count_from 0 CRLF_bytes data = 0%nat
  /\ count_from 0 LF_bytes data = List.length bls
  /\ count_from 0 CR_bytes data = 0%nat.
Proof.
  induction 1 as [|l t Hl Ht IH]; [now repeat split|].
  cbn [flat_map List.length]. rewrite <- !app_assoc.
  unfold CRLF_bytes, LF_bytes, CR_bytes in *.
  rewrite (count_quiet x0d [x0a]) by (auto; exact Hl).
  rewrite (count_quiet x0a []) by (auto; exact Hl).
  rewrite (count_quiet x0d []) by (auto; exact Hl).
  destruct IH as (H1 & H2 & H3). cbn [app].
  fold CRLF_bytes in *. rewrite count_crlf_at_lf, !count_single_step.
  rewrite H1, H2, H3. repeat split.
Qed.

Lemma encode_terminated (eol : str) (lines : list str) :
  encode_latin1 (terminated eol lines)
  = flat_map (fun l => l ++ encode_latin1 eol) (map encode_latin1 lines).
Proof.
  unfold terminated. induction lines as [|l t IH]; [reflexivity|].
  cbn [flat_map map]. now rewrite !encode_latin1_app, IH.
Qed.

(** X9.  A file that the normalizer has written has the one line-ending
    style that the configuration asks for: one line ending after each line
    of the output (one in all when there is no line), all of them CR LF, or
    all of them LF, and the label of the file is CRLF or LF accordingly. *)
Theorem normalized_file_line_endings (cfg : NormalizationConfig)
    (input : list byte) :
  let out_lines := normalize_lines cfg (splitlines (read_text_latin1 input)) in
  let m := Z.of_nat (Nat.max 1 (List.length out_lines)) in
  detect_eol_stats (normalize_to_iso cfg input)
    = (if crlf cfg then (m, 0, 0) else (0, m, 0))%Z
  /\ detect_line_endings_label (normalize_to_iso cfg input)
     = (if crlf cfg then "CRLF" else "LF")%string.
Proof.
  intros out_lines m.
  assert (Hp : Forall (Forall plain) out_lines).
  { apply normalize_lines_plain_any, read_lines_plain. }
  assert (HL : exists L, Forall (Forall plain) L
               /\ List.length (map encode_latin1 L)
                  = Nat.max 1 (List.length out_lines)
               /\ serialize cfg out_lines = terminated (eol_of cfg) L).
  { exists (match out_lines with [] => [[]] | _ :: _ => out_lines end).
    destruct out_lines as [|l t].
    - split; [repeat constructor|]. split; [reflexivity|].
      unfold serialize, terminated. cbn. now rewrite List.app_nil_r.
    - split; [exact Hp|].
      split; [rewrite length_map; cbn [List.length]; symmetry;
              apply Nat.max_r; lia|].
      now apply serialize_terminated. }
  destruct HL as (L & HLp & HLn & HLS).
  assert (Hq : Forall (Forall (fun b => b <> x0a /\ b <> x0d))
                      (map encode_latin1 L)).
  { apply Forall_forall. intros bl Hin. apply in_map_iff in Hin.
    destruct Hin as (l & <- & Hl). apply encode_plain_quiet.
    rewrite Forall_forall in HLp. now apply HLp. }
  assert (Hs : detect_eol_stats (normalize_to_iso cfg input)
               = (if crlf cfg then (m, 0, 0) else (0, m, 0))%Z).
  { unfold normalize_to_iso, normalize, write_lines. fold out_lines.
    rewrite HLS, encode_terminated. unfold detect_eol_stats, bytes_count, m.
    unfold eol_of. destruct (crlf cfg).
    - destruct (count_lines_crlf _ Hq) as (H1 & H2 & H3).
      change (encode_latin1 [13; 10]) with [x0d; x0a].
      rewrite H1, H2, H3, HLn.
      apply pair_equal_spec; split; [apply pair_equal_spec; split|]; lia.
    - destruct (count_lines_lf _ Hq) as (H1 & H2 & H3).
      change (encode_latin1 [10]) with [x0a].
      rewrite H1, H2, H3, HLn.
      apply pair_equal_spec; split; [apply pair_equal_spec; split|]; lia. }
  split; [exact Hs|].
  unfold detect_line_endings_label. rewrite Hs.
  assert (Hm : (m =? 0)%Z = false) by (apply Z.eqb_neq; unfold m; lia).
  destruct (crlf cfg); unfold truthy; rewrite Hm; reflexivity.
Qed.

Lemma header_lines_no_semicolon (cfg : NormalizationConfig) :
  existsb (contains (chr ";")) (header_lines cfg) = false.
Proof. unfold header_lines. now destruct (add_percent cfg). Qed.

(** X10.  For a start value and an increment that are not negative, the
    output of the normalizer is the header followed by lines that are all
    numbered: each is not empty, has no white space at its ends, begins
    with a block number, and holds no [;] when comments are stripped, in
    which case the analyzer finds no comment in the output. *)
Theorem normalize_output_numbered (cfg : NormalizationConfig)
    (lines : list str) :
  (0 <= start_n cfg)%Z -> (0 <= step cfg)%Z ->
  exists body,
    normalize_lines cfg lines = header_lines cfg ++ body
    /\ Forall (fun l => l <> [] /\ strip l = l /\ has_block_number l = true
                        /\ (strip_semicolon cfg = true ->
                            contains (chr ";") l = false)) body
    /\ (strip_semicolon cfg = true ->
        has_semicolon_comments
          (analyze_text_lines (normalize_lines cfg lines)) = false).
Proof.
  intros Hs Hd.
  destruct (numbering_loop_spec cfg Hs Hd lines)
    as (body & n & Hloop & Hn & Hbody).
  assert (Hout : exists body',
            normalize_lines cfg lines = header_lines cfg ++ body'
            /\ Forall (settled cfg) body').
  { rewrite normalize_lines_loop, Hloop. destruct (ensure_M02 cfg).
    - exists (filter (fun l => negb (search_M02 l)) body
              ++ [numbered n (lit "M02")]).
      unfold enforce_M02.
      rewrite filter_app, header_lines_no_M02, <- app_assoc.
      split; [reflexivity|]. apply Forall_app. split.
      + rewrite Forall_forall in *. intros l Hl. apply filter_In in Hl.
        now apply Hbody.
      + constructor; [now apply stop_line_settled|constructor].
    - exists body. split; [reflexivity|exact Hbody]. }
  destruct Hout as (body' & E & Hset). exists body'.
  split; [exact E|]. split.
  - revert Hset. apply Forall_impl. intros l (Ht & Hb & Hc).
    split; [|split; [now apply strip_tight|split; assumption]].
    apply is_empty_false. now apply tight_nonempty.
  - intros Hc. cbn [has_semicolon_comments analyze_text_lines].
    rewrite E, existsb_app, header_lines_no_semicolon. cbn [orb].
    clear E. induction Hset as [|l t (_ & _ & Hl) _ IH]; [reflexivity|].
    cbn [existsb]. now rewrite (Hl Hc), IH.
Qed.

(** The theorem at the default configuration, for a program with a
    comment, a numbered line and the stop code. *)
Lemma normalize_output_numbered_witness :
  exists body,
    normalize_lines default_config
      [lit "G01 X1 ; go"; lit "  N5 G02"; lit "M02"]
    = header_lines default_config ++ body
    /\ Forall (fun l => has_block_number l = true) body.
Proof.
  assert (Hs : (0 <= start_n default_config)%Z) by (cbn; lia).
  assert (Hd : (0 <= step default_config)%Z) by (cbn; lia).
  destruct (normalize_output_numbered default_config
              [lit "G01 X1 ; go"; lit "  N5 G02"; lit "M02"] Hs Hd)
    as (body & E & Hb & _).
  exists body. split; [exact E|].
  revert Hb. apply Forall_impl. tauto.
Defined.

(** The file-to-file theorem at the defaults without the stop code, for a
    file of two lines with LF endings. *)
Lemma normalize_to_iso_twice_witness :
  normalize_to_iso no_stop_config
    (normalize_to_iso no_stop_config
       (blit "G01 X1 ; go" ++ [x0a] ++ blit "G02 X3" ++ [x0a]))
  = normalize_to_iso no_stop_config
      (blit "G01 X1 ; go" ++ [x0a] ++ blit "G02 X3" ++ [x0a]).
Proof.
  assert (Hs : (0 <= start_n no_stop_config)%Z) by (cbn; lia).
  assert (Hd : (0 <= step no_stop_config)%Z) by (cbn; lia).
  apply (normalize_to_iso_twice no_stop_config Hs Hd). reflexivity.
Defined.

Lemma fold_left_skip (cfg : NormalizationConfig) (pre c : list str) (b : str)
    (st : loop_state) :
  prepared cfg b = [] ->
  fold_left (normalize_step cfg) (pre ++ b :: c) st
  = fold_left (normalize_step cfg) (pre ++ c) st.
Proof.
  intros Hb. rewrite !fold_left_app. cbn [fold_left].
  now rewrite (normalize_step_prepared cfg _ b), Hb.
Qed.

(** X12.  A line of which nothing is left once it is trimmed (and cut at
    the first [;] when comments are stripped) changes nothing when it
    comes after the first line: the output and its numbering are those of
    the input without it. *)
Theorem normalize_skips_blank (cfg : NormalizationConfig)
    (a c : list str) (b : str) :
  a <> [] -> prepared cfg b = [] ->
  normalize_lines cfg (a ++ b :: c) = normalize_lines cfg (a ++ c).
Proof.
  intros Ha Hb. destruct a as [|a0 a']; [congruence|].
  unfold normalize_lines, header. cbn [app].
  destruct (add_percent cfg).
  - destruct (negb (str_eqb (strip a0) (lit "%"))).
    + now rewrite (fold_left_skip cfg (a0 :: a') c b).
    + now rewrite (fold_left_skip cfg a' c b).
  - now rewrite (fold_left_skip cfg (a0 :: a') c b).
Qed.

(** The theorem for a blank line and for a comment alone between two
    lines of a program. *)
Lemma normalize_skips_blank_witness :
  normalize_lines default_config ([lit "G01"] ++ lit "   " :: [lit "G02"])
  = normalize_lines default_config ([lit "G01"] ++ [lit "G02"])
  /\ normalize_lines default_config ([lit "G01"] ++ lit " ; note" :: [lit "G02"])
     = normalize_lines default_config ([lit "G01"] ++ [lit "G02"]).
Proof.
  split; apply normalize_skips_blank; try discriminate; reflexivity.
Defined.

(** X13.  When nothing is left of any input line (no line at all, blank
    lines, comments alone when comments are stripped), the output is the
    header alone, followed, when the stop code is enforced, by the line
    N<start> M02. *)
Theorem normalize_nothing_left (cfg : NormalizationConfig) (lines : list str) :
  Forall (fun ln => prepared cfg ln = []) lines ->
  normalize_lines cfg lines
  = header_lines cfg
    ++ (if ensure_M02 cfg then [numbered (start_n cfg) (lit "M02")] else []).
Proof.
  intros H.
  assert (Hfold : forall st,
            fold_left (normalize_step cfg) lines st = st).
  { induction H as [|ln t Hln Ht IH]; intros st; [reflexivity|].
    cbn [fold_left]. now rewrite normalize_step_prepared, Hln, IH. }
  assert (Hhead : header cfg lines = (header_lines cfg, lines)).
  { unfold header, header_lines. destruct (add_percent cfg); [|reflexivity].
    destruct lines as [|first rest]; [reflexivity|].
    inversion H as [|? ? Hf _]; subst.
    destruct (str_eqb (strip first) (lit "%")) eqn:E; [|reflexivity].
    apply str_eqb_eq in E. unfold prepared in Hf. rewrite E in Hf.
    rewrite andb_false_r in Hf. discriminate. }
  unfold normalize_lines. rewrite Hhead, Hfold. cbn [fst].
  destruct (ensure_M02 cfg); [|now rewrite List.app_nil_r].
  unfold enforce_M02. now rewrite header_lines_no_M02.
Qed.

(** The theorem for no line, and for a blank line and a comment. *)
Lemma normalize_nothing_left_witness :
  normalize_lines default_config [] = [lit "%"; lit "N10 M02"]
  /\ normalize_lines default_config [lit "  "; lit "; only a comment"]
     = [lit "%"; lit "N10 M02"].
Proof.
  split.
  - apply (normalize_nothing_left default_config []). constructor.
  - apply (normalize_nothing_left default_config
             [lit "  "; lit "; only a comment"]).
    repeat constructor.
Defined.

(** X19.  The number that the normalizer writes is the number that the
    analyzer reads: for [n] not negative the line N<n> <s> has the block
    number [n], whatever [s] is, and [int(str(n))] is [n].  For a negative
    [n] the line N<n> <s> has no block number: a sign does not start
    one. *)
Theorem numbered_block_number (n : Z) (s : str) (rest : list str) :
  ((0 <= n)%Z ->
   match_block_number (numbered n s) = Some (str_of_int n)
   /\ int_of_digits (str_of_int n) = n
   /\ block_numbers (numbered n s :: rest) = n :: block_numbers rest)
  /\ ((n < 0)%Z ->
      has_block_number (numbered n s) = false
      /\ block_numbers (numbered n s :: rest) = block_numbers rest).
Proof.
  split.
  - intros H. split; [now apply numbered_match|].
    split; [now apply int_of_str_of_int|].
    cbn [block_numbers].
    now rewrite (numbered_match n s H), (int_of_str_of_int n H).
  - intros H. pose proof (numbered_negative n s H) as Hb.
    split; [exact Hb|]. cbn [block_numbers].
    unfold has_block_number in Hb.
    now destruct (match_block_number (numbered n s)).
Qed.

(** [s.rstrip()] is the beginning of [s]. *)
Lemma rstrip_prefix (s : str) : exists r, s = rstrip s ++ r.
Proof.
  exists (rev (take_while is_space (rev s))). unfold rstrip.
  now rewrite <- rev_app_distr, take_drop_app, rev_involutive.
Qed.

Lemma drop_while_idem (p : char -> bool) (s : str) :
  drop_while p (drop_while p s) = drop_while p s.
Proof.
  induction s as [|c t IH]; [reflexivity|]. cbn [drop_while].
  destruct (p c) eqn:E; [exact IH|]. cbn [drop_while]. now rewrite E.
Qed.

Lemma drop_while_app_nonempty (p : char -> bool) (a r : str) :
  drop_while p a <> [] -> drop_while p (a ++ r) = drop_while p a ++ r.
Proof.
  induction a as [|c t IH]; [cbn; congruence|]. cbn [app drop_while].
  destruct (p c); [exact IH|reflexivity].
Qed.

(** A block number at the beginning of a line stays one when the line
    goes on. *)
Lemma has_block_number_app (p r : str) :
  has_block_number p = true -> has_block_number (p ++ r) = true.
Proof.
  unfold has_block_number, match_block_number.
  destruct (drop_while is_space p) as [|c t] eqn:E; [discriminate|].
  rewrite drop_while_app_nonempty by (rewrite E; discriminate).
  rewrite E. cbn [app]. destruct (c =? chr "N"); [|discriminate].
  destruct t as [|d t']; [discriminate|]. cbn [take_while app].
  now destruct (is_digit d).
Qed.

Lemma has_block_number_lstrip (s : str) :
  has_block_number (lstrip s) = has_block_number s.
Proof.
  unfold has_block_number, match_block_number, lstrip.
  now rewrite drop_while_idem.
Qed.

Lemma prepared_prefix (cfg : NormalizationConfig) (ln : str) :
  exists r, lstrip ln = prepared cfg ln ++ r.
Proof.
  unfold prepared, strip.
  destruct (rstrip_prefix (lstrip ln)) as (r1 & E1).
  destruct (strip_semicolon cfg && contains (chr ";") (rstrip (lstrip ln))).
  - destruct (rstrip_prefix (split_head (chr ";") (rstrip (lstrip ln))))
      as (r2 & E2).
    exists (r2 ++ drop_while (fun x => negb (x =? chr ";"))
                             (rstrip (lstrip ln)) ++ r1).
    rewrite app_assoc, <- E2, app_assoc. unfold split_head.
    now rewrite take_drop_app.
  - now exists r1.
Qed.

(** A line of which the prepared form has a block number has one
    itself. *)
Lemma has_block_number_prepared (cfg : NormalizationConfig) (ln : str) :
  has_block_number (prepared cfg ln) = true -> has_block_number ln = true.
Proof.
  intros H. destruct (prepared_prefix cfg ln) as (r & E).
  rewrite <- has_block_number_lstrip, E. now apply has_block_number_app.
Qed.

Lemma block_numbers_app (a b : list str) :
  block_numbers (a ++ b) = block_numbers a ++ block_numbers b.
Proof.
  induction a as [|l t IH]; [reflexivity|]. cbn [app block_numbers].
  destruct (match_block_number l); [|exact IH]. cbn [app]. now rewrite IH.
Qed.

Lemma block_numbers_none (l : str) :
  has_block_number l = false -> block_numbers [l] = [].
Proof.
  unfold has_block_number. cbn [block_numbers].
  now destruct (match_block_number l).
Qed.

Lemma increasing_snoc (a n m : Z) (X : list Z) :
  strictly_increasing (a :: X ++ [n]) -> (n < m)%Z ->
  strictly_increasing (a :: (X ++ [n]) ++ [m]).
Proof.
  revert a. induction X as [|x X' IH]; intros a H Hm; cbn [app] in *.
  - apply strictly_increasing_cons in H. destruct H as (H & _).
    apply strictly_increasing_cons. split; [exact H|].
    apply strictly_increasing_cons. split; [exact Hm|].
    apply strictly_increasing_one.
  - apply strictly_increasing_cons in H. destruct H as (H1 & H2).
    apply strictly_increasing_cons. split; [exact H1|]. now apply IH.
Qed.

Lemma increasing_lower (a b : Z) (X : list Z) :
  strictly_increasing (b :: X) -> (a <= b)%Z -> strictly_increasing (a :: X).
Proof.
  intros H Hab. destruct X as [|x X']; [apply strictly_increasing_one|].
  apply strictly_increasing_cons in H. destruct H as (H1 & H2).
  apply strictly_increasing_cons. split; [lia|exact H2].
Qed.

Lemma increasing_init (a n : Z) (X : list Z) :
  strictly_increasing (a :: X ++ [n]) -> strictly_increasing (a :: X).
Proof.
  revert a. induction X as [|x X' IH]; intros a H; cbn [app] in *.
  - apply strictly_increasing_one.
  - apply strictly_increasing_cons in H. destruct H as (H1 & H2).
    apply strictly_increasing_cons. split; [exact H1|]. now apply IH.
Qed.

Lemma increasing_bound (a n : Z) (X : list Z) :
  strictly_increasing (a :: X ++ [n]) -> (a < n)%Z.
Proof.
  revert a. induction X as [|x X' IH]; intros a H; cbn [app] in H;
    apply strictly_increasing_cons in H; destruct H as (H1 & H2).
  - exact H1.
  - apply IH in H2. lia.
Qed.

Lemma increasing_tail (a : Z) (X : list Z) :
  strictly_increasing (a :: X) -> strictly_increasing X.
Proof.
  destruct X as [|x X']; [intros _; apply strictly_increasing_nil|].
  intros H. now apply strictly_increasing_cons in H.
Qed.

(** Lines taken out of a program leave its block numbers increasing, and
    below the same bound. *)
Lemma increasing_filter (q : str -> bool) (L : list str) (a n : Z) :
  strictly_increasing (a :: block_numbers L ++ [n]) ->
  strictly_increasing (a :: block_numbers (filter q L) ++ [n]).
Proof.
  revert a. induction L as [|l t IH]; intros a H; [exact H|].
  cbn [filter block_numbers] in *.
  destruct (match_block_number l) as [ds|] eqn:E.
  - cbn [app] in H. apply strictly_increasing_cons in H.
    destruct H as (H1 & H2). destruct (q l).
    + cbn [block_numbers]. rewrite E. cbn [app].
      apply strictly_increasing_cons. split; [exact H1|]. now apply IH.
    + apply IH. apply (increasing_lower a (int_of_digits ds)); [exact H2|lia].
  - destruct (q l); [|now apply IH].
    cbn [block_numbers]. rewrite E. now apply IH.
Qed.

Lemma loop_unnumbered (cfg : NormalizationConfig) (src out : list str) (n : Z) :
  (0 < step cfg)%Z -> (0 <= n)%Z ->
  Forall (fun ln => has_block_number ln = false) src ->
  strictly_increasing ((-1)%Z :: block_numbers out ++ [n]) ->
  exists out' n',
    fold_left (normalize_step cfg) src (out, n) = (out', n')
    /\ strictly_increasing ((-1)%Z :: block_numbers out' ++ [n']).
Proof.
  intros Hd. revert out n. induction src as [|ln t IH]; intros out n Hn Hs HI.
  - now exists out, n.
  - inversion Hs as [|? ? Hln Ht]; subst. cbn [fold_left].
    rewrite normalize_step_prepared.
    destruct (is_empty (prepared cfg ln)); [now apply IH|].
    unfold emit.
    destruct (has_block_number (prepared cfg ln)) eqn:E.
    + apply has_block_number_prepared in E. congruence.
    + apply IH; [lia|exact Ht|].
      rewrite block_numbers_app. cbn [block_numbers].
      rewrite (numbered_match n _ Hn), (int_of_str_of_int n Hn).
      apply increasing_snoc; [exact HI|lia].
Qed.

(** X20.  For a start value that is not negative and an increment that
    is positive, the output for a program in which no line begins with a
    block number passes the monotonicity check of the analyzer: the block
    numbers of the output are strictly increasing, with or without the
    enforced stop line. *)
Theorem normalize_output_monotonic (cfg : NormalizationConfig)
    (lines : list str) :
  (0 <= start_n cfg)%Z -> (0 < step cfg)%Z ->
  Forall (fun ln => has_block_number ln = false) lines ->
  block_numbers_monotonic (analyze_text_lines (normalize_lines cfg lines))
  = true
  /\ strictly_increasing (block_numbers (normalize_lines cfg lines)).
Proof.
  intros Hs Hd Hl.
  assert (H : strictly_increasing
                ((-1)%Z :: block_numbers (normalize_lines cfg lines))).
  { unfold normalize_lines.
    destruct (header_spec cfg lines) as (src' & Hh & Hincl). rewrite Hh.
    assert (Hl' : Forall (fun ln => has_block_number ln = false) src').
    { rewrite Forall_forall in *. intros ln Hin. now apply Hl, Hincl. }
    assert (H0 : strictly_increasing
                   ((-1)%Z :: block_numbers (header_lines cfg)
                              ++ [start_n cfg])).
    { unfold header_lines. destruct (add_percent cfg); cbn [block_numbers app];
        (apply strictly_increasing_cons; split;
         [lia|apply strictly_increasing_one]). }
    destruct (loop_unnumbered cfg src' (header_lines cfg) (start_n cfg)
                Hd Hs Hl' H0) as (out' & n' & Hf & HI).
    rewrite Hf. destruct (ensure_M02 cfg).
    - unfold enforce_M02. rewrite block_numbers_app.
      assert (Hn' : (0 <= n')%Z) by (apply increasing_bound in HI; lia).
      cbn [block_numbers].
      rewrite (numbered_match n' _ Hn'), (int_of_str_of_int n' Hn').
      now apply increasing_filter.
    - cbn [fst]. now apply increasing_init in HI. }
  split.
  - cbn [block_numbers_monotonic analyze_text_lines].
    now apply monotonic_scan_spec.
  - now apply increasing_tail in H.
Qed.

(** The theorem at the default configuration, for three lines without
    block numbers. *)
Lemma normalize_output_monotonic_witness :
  block_numbers_monotonic
    (analyze_text_lines
       (normalize_lines default_config
          [lit "G01 X1"; lit "G02 X2 ; arc"; lit "M02"])) = true
  /\ strictly_increasing
       (block_numbers
          (normalize_lines default_config
             [lit "G01 X1"; lit "G02 X2 ; arc"; lit "M02"])).
Proof.
  apply normalize_output_monotonic;
    [cbn; lia|cbn; lia|repeat constructor].
Defined.

Lemma kept_begins_N (cfg : NormalizationConfig) (ln : str) :
  has_block_number (prepared cfg ln) = true ->
  hd_error (prepared cfg ln) = Some (chr "N").
Proof.
  intros H. destruct (prepared_result cfg ln) as [E|((Hs & _) & _)].
  - rewrite E in H. discriminate.
  - unfold has_block_number, match_block_number in H.
    unfold starts_clean in Hs.
    destruct (prepared cfg ln) as [|c t]; [destruct Hs|].
    cbn [drop_while] in H. rewrite Hs in H.
    destruct (c =? chr "N") eqn:E; [|discriminate].
    apply N.eqb_eq in E. now subst c.
Qed.

Lemma loop_begins_N (cfg : NormalizationConfig) (src out : list str) (n : Z) :
  exists body n',
    fold_left (normalize_step cfg) src (out, n) = (out ++ body, n')
    /\ Forall (fun l => hd_error l = Some (chr "N")) body.
Proof.
  revert out n. induction src as [|ln t IH]; intros out n.
  - exists [], n. now rewrite List.app_nil_r.
  - cbn [fold_left]. rewrite normalize_step_prepared.
    destruct (is_empty (prepared cfg ln)); [apply IH|].
    unfold emit. destruct (has_block_number (prepared cfg ln)) eqn:E.
    + destruct (IH (out ++ [prepared cfg ln]) n) as (body & n' & Hf & Hb).
      exists (prepared cfg ln :: body), n'. rewrite Hf, <- app_assoc.
      split; [reflexivity|]. constructor; [now apply kept_begins_N|exact Hb].
    + destruct (IH (out ++ [numbered n (collapse_ws (prepared cfg ln))])
                   (n + step cfg)%Z) as (body & n' & Hf & Hb).
      exists (numbered n (collapse_ws (prepared cfg ln)) :: body), n'.
      rewrite Hf, <- app_assoc. split; [reflexivity|].
      constructor; [now rewrite numbered_unfold|exact Hb].
Qed.

(** Every line that the normalizer writes after the header begins with
    the letter N. *)
Lemma normalize_lines_begin_N (cfg : NormalizationConfig) (lines : list str) :
  exists body,
    normalize_lines cfg lines = header_lines cfg ++ body
    /\ Forall (fun l => hd_error l = Some (chr "N")) body
    /\ (ensure_M02 cfg = true ->
        exists cleaned n,
          body = cleaned ++ [numbered n (lit "M02")]
          /\ Forall (fun l => search_M02 l = false) cleaned).
Proof.
  unfold normalize_lines.
  destruct (header_spec cfg lines) as (src' & Hh & _). rewrite Hh.
  destruct (loop_begins_N cfg src' (header_lines cfg) (start_n cfg))
    as (body & n' & Hf & Hb).
  rewrite Hf. destruct (ensure_M02 cfg).
  - exists (filter (fun l => negb (search_M02 l)) body
            ++ [numbered n' (lit "M02")]).
    unfold enforce_M02.
    rewrite filter_app, header_lines_no_M02, <- app_assoc.
    split; [reflexivity|]. split.
    + apply Forall_app. split.
      * rewrite Forall_forall in *. intros l Hl. apply filter_In in Hl.
        now apply Hb.
      * constructor; [now rewrite numbered_unfold|constructor].
    + intros _. eexists. eexists. split; [reflexivity|].
      apply Forall_forall. intros l Hl. apply filter_In in Hl.
      destruct Hl as (_ & Hl). now destruct (search_M02 l).
  - exists body. cbn [fst]. split; [reflexivity|].
    split; [exact Hb|discriminate].
Qed.

Lemma begins_N_not_percent (l : str) :
  hd_error l = Some (chr "N") -> str_eqb (strip l) (lit "%") = false.
Proof.
  intros H. destruct l as [|c t]; [discriminate|].
  cbn [hd_error] in H. injection H as Hc.
  assert (Es : strip (c :: t) = rstrip (c :: t)).
  { unfold strip, lstrip. cbn [drop_while]. now rewrite Hc. }
  rewrite Es. destruct (rstrip_prefix (c :: t)) as (r & E).
  destruct (str_eqb (rstrip (c :: t)) (lit "%")) eqn:Eq; [|reflexivity].
  apply str_eqb_eq in Eq. rewrite Eq in E. inversion E as [[Hc' Ht]].
  rewrite Hc in Hc'. discriminate.
Qed.

Lemma Forall_removelast {A} (P : A -> Prop) (l : list A) :
  Forall P l -> Forall P (removelast l).
Proof.
  induction 1 as [|x t Hx Ht IH]; [constructor|].
  cbn [removelast]. destruct t; [constructor|]. now constructor.
Qed.

Lemma positions_none (f : nat -> nat) (p : str -> bool) (k : nat)
    (lines : list str) :
  Forall (fun l => p l = false) lines -> positions f p k lines = [].
Proof.
  unfold positions. intros H. revert k.
  induction H as [|l t Hl Ht IH]; intros k; [reflexivity|].
  cbn [enumerate filter snd]. rewrite Hl. apply IH.
Qed.

(** X21.  What the analyzer says of an output of the normalizer, under
    every configuration.  After the header every line begins with the
    letter N; the report says that the program starts with [%] exactly
    when the header is written; no stray [%] is recorded; and when the
    stop code is enforced the report says that the program ends with M02
    and holds no record [M02 not at end]. *)
Theorem analyze_normalized (cfg : NormalizationConfig) (lines : list str) :
  let out := normalize_lines cfg lines in
  let r := analyze_text_lines out in
  (exists body, out = header_lines cfg ++ body
                /\ Forall (fun l => hd_error l = Some (chr "N")) body)
  /\ starts_with_percent r = add_percent cfg
  /\ stray_percent_positions r = []
  /\ (ensure_M02 cfg = true ->
      ends_with_M02 r = true
      /\ forall i, ~ In (i, "M02 not at end"%string) (suspect_lines r)).
Proof.
  cbn zeta.
  destruct (normalize_lines_begin_N cfg lines) as (body & E & Hb & Hstop).
  assert (Hnp : Forall (fun l => str_eqb (strip l) (lit "%") = false) body).
  { revert Hb. apply Forall_impl. intros l. apply begins_N_not_percent. }
  split; [now exists body|]. split; [|split].
  - cbn [starts_with_percent analyze_text_lines]. rewrite E.
    unfold header_lines. destruct (add_percent cfg); [reflexivity|].
    cbn [app]. destruct Hnp; [reflexivity|assumption].
  - cbn [stray_percent_positions analyze_text_lines]. rewrite E.
    apply positions_none. unfold inner. apply Forall_removelast.
    unfold header_lines. destruct (add_percent cfg); cbn [app tl];
      [exact Hnp|]. destruct Hnp; [constructor|assumption].
  - intros He. destruct (Hstop He) as (cleaned & n & Eb & Hc).
    assert (Eo : normalize_lines cfg lines
                 = (header_lines cfg ++ cleaned) ++ [numbered n (lit "M02")])
      by (now rewrite E, Eb, app_assoc).
    assert (Hc' : Forall (fun l => search_M02 l = false)
                         (header_lines cfg ++ cleaned)).
    { apply Forall_app. split; [|exact Hc]. unfold header_lines.
      destruct (add_percent cfg); repeat constructor. }
    split.
    + cbn [ends_with_M02 analyze_text_lines]. rewrite Eo, last_last.
      rewrite stop_line_has_M02.
      now destruct (header_lines cfg ++ cleaned).
    + intros i H. apply suspect_lines_In in H.
      destruct H as (ln & Hi & Hn & H). apply suspect_checks_In in H.
      destruct H as (_ & [(Hr & _)|[(Hr & _)|[(Hr & _)|(_ & Hs & Hne)]]]);
        try discriminate.
      rewrite Eo in Hn, Hne. rewrite length_app in Hne.
      cbn [List.length] in Hne.
      destruct (Nat.lt_ge_cases (i - 1) (List.length (header_lines cfg ++ cleaned)))
        as [Hlt|Hge].
      * rewrite nth_error_app1 in Hn by exact Hlt.
        apply nth_error_In in Hn. rewrite Forall_forall in Hc'.
        apply Hc' in Hn. congruence.
      * assert (Hlen : (i - 1 < List.length ((header_lines cfg ++ cleaned)
                                 ++ [numbered n (lit "M02")]))%nat)
          by (apply nth_error_Some; congruence).
        rewrite length_app in Hlen. cbn [List.length] in Hlen. lia.
Qed.

(** ** Normalizer and comparator *)

Lemma filter_all {A} (q : A -> bool) (l : list A) :
  Forall (fun x => q x = true) l -> filter q l = l.
Proof.
  induction 1 as [|x t Hx Ht IH]; [reflexivity|].
  cbn [filter]. now rewrite Hx, IH.
Qed.

(** The second pass over an output that ends with the enforced stop
    line: the lines stay, and the stop line gets the start value. *)
Lemma renormalize_stop (cfg : NormalizationConfig) (B : list str) (n : Z) :
  ensure_M02 cfg = true -> (0 <= n)%Z ->
  Forall (settled cfg) B -> Forall (fun l => search_M02 l = false) B ->
  normalize_lines cfg (header_lines cfg ++ B ++ [numbered n (lit "M02")])
  = (header_lines cfg ++ B) ++ [numbered (start_n cfg) (lit "M02")].
Proof.
  intros He Hn Hs Hm. rewrite normalize_lines_loop, He.
  rewrite numbering_loop_settled.
  - unfold enforce_M02. f_equal.
    rewrite !filter_app, header_lines_no_M02. f_equal.
    rewrite filter_all.
    + cbn [filter]. rewrite stop_line_has_M02. cbn [negb].
      apply List.app_nil_r.
    + revert Hm. apply Forall_impl. now intros l ->.
  - apply Forall_app. split; [exact Hs|].
    constructor; [now apply stop_line_settled|constructor].
Qed.

Lemma trim_stop (pol : ComparisonPolicy) (X : list str) (k k' : Z) :
  skip_trailing_m02 pol = true ->
  trim pol (X ++ [numbered k (lit "M02")])
  = trim pol (X ++ [numbered k' (lit "M02")]).
Proof.
  intros Hp.
  assert (Hlast : forall (Y : list str) (j : Z),
            (if skip_trailing_m02 pol
                && negb (is_empty (Y ++ [numbered j (lit "M02")]))
                && search_M02 (last (Y ++ [numbered j (lit "M02")]) [])
             then removelast (Y ++ [numbered j (lit "M02")])
             else Y ++ [numbered j (lit "M02")]) = Y).
  { intros Y j. rewrite Hp, last_last, stop_line_has_M02, removelast_last.
    now destruct Y. }
  assert (Hnp : forall j, str_eqb (strip (numbered j (lit "M02"))) (lit "%")
                          = false).
  { intros j. apply begins_N_not_percent. now rewrite numbered_unfold. }
  assert (Hhead : forall j,
            (if skip_header_percent pol
                && negb (is_empty (X ++ [numbered j (lit "M02")]))
                && str_eqb (strip (hd [] (X ++ [numbered j (lit "M02")])))
                           (lit "%")
             then tl (X ++ [numbered j (lit "M02")])
             else X ++ [numbered j (lit "M02")])
            = (if skip_header_percent pol && negb (is_empty X)
                  && str_eqb (strip (hd [] X)) (lit "%")
               then tl X else X) ++ [numbered j (lit "M02")]).
  { intros j. destruct X as [|x X'].
    - cbn [app hd is_empty negb]. rewrite Hnp.
      now rewrite andb_false_r, andb_false_r.
    - cbn [app hd tl is_empty negb].
      now destruct (skip_header_percent pol && true
                    && str_eqb (strip x) (lit "%")). }
  unfold trim. now rewrite (Hhead k), (Hhead k'), !Hlast.
Qed.

Lemma compare_same_trim (pol : ComparisonPolicy) (la lb : list str) :
  trim pol la = trim pol lb -> compare pol la lb = None.
Proof.
  intros E. unfold compare. rewrite E. apply compare_loop_none. reflexivity.
Qed.

Lemma renormalized_lines (cfg : NormalizationConfig) (lines : list str) :
  (0 <= start_n cfg)%Z -> (0 <= step cfg)%Z ->
  normalize_lines cfg (normalize_lines cfg lines) = normalize_lines cfg lines
  \/ exists X k k',
       normalize_lines cfg lines = X ++ [numbered k (lit "M02")]
       /\ normalize_lines cfg (normalize_lines cfg lines)
          = X ++ [numbered k' (lit "M02")].
Proof.
  intros Hs Hd. destruct (ensure_M02 cfg) eqn:He.
  - right.
    destruct (numbering_loop_spec cfg Hs Hd lines)
      as (body & n & Hloop & Hn & Hbody).
    assert (E : normalize_lines cfg lines
                = header_lines cfg
                  ++ filter (fun l => negb (search_M02 l)) body
                  ++ [numbered n (lit "M02")]).
    { rewrite normalize_lines_loop, He, Hloop. unfold enforce_M02.
      now rewrite filter_app, header_lines_no_M02, <- app_assoc. }
    exists (header_lines cfg ++ filter (fun l => negb (search_M02 l)) body),
           n, (start_n cfg).
    split; [now rewrite E, app_assoc|].
    rewrite E. apply renormalize_stop; try assumption.
    + rewrite Forall_forall in *. intros l Hl. apply filter_In in Hl.
      now apply Hbody.
    + apply Forall_forall. intros l Hl. apply filter_In in Hl.
      destruct Hl as (_ & Hl). now destruct (search_M02 l).
  - left. now apply normalize_lines_fixed.
Qed.

(** X22.  For a start value and an increment that are not negative, the
    comparator with a policy that skips the trailing stop line finds no
    difference between the output of the normalizer and the output of a
    second pass over it, on lines and from file to file: a second pass
    changes at most the number of the enforced stop line. *)
Theorem compare_renormalized (pol : ComparisonPolicy)
    (cfg : NormalizationConfig) (lines : list str) (input : list byte) :
  (0 <= start_n cfg)%Z -> (0 <= step cfg)%Z ->
  skip_trailing_m02 pol = true ->
  compare pol (normalize_lines cfg (normalize_lines cfg lines))
              (normalize_lines cfg lines) = None
  /\ compare_files pol (normalize_to_iso cfg (normalize_to_iso cfg input))
                       (normalize_to_iso cfg input) = None.
Proof.
  intros Hs Hd Hp.
  assert (H : forall L,
            compare pol (normalize_lines cfg (normalize_lines cfg L))
                        (normalize_lines cfg L) = None).
  { intros L. apply compare_same_trim.
    destruct (renormalized_lines cfg L Hs Hd) as [E|(X & k & k' & E1 & E2)].
    - now rewrite E.
    - rewrite E2, E1. now apply trim_stop. }
  split; [apply H|].
  unfold compare_files, normalize_to_iso, normalize.
  set (L := splitlines (read_text_latin1 input)).
  assert (HL : Forall (Forall plain) (normalize_lines cfg L))
    by (apply normalize_lines_plain_any, read_lines_plain).
  rewrite (read_written cfg (normalize_lines cfg L) HL).
  destruct (normalize_lines cfg L) as [|l0 out] eqn:E.
  - destruct (ensure_M02 cfg) eqn:He.
    + rewrite normalize_lines_loop, He in E. unfold enforce_M02 in E.
      destruct (numbering_loop cfg L) as (o, n).
      now destruct (filter (fun l => negb (search_M02 l)) o).
    + assert (Hh : header_lines cfg = []).
      { destruct (numbering_loop_spec cfg Hs Hd L) as (body & n & Hloop & _).
        rewrite normalize_lines_loop, He, Hloop in E. cbn [fst] in E.
        now destruct (header_lines cfg). }
      rewrite (normalize_lines_blank cfg He), Hh.
      rewrite (read_written cfg [] (Forall_nil _)).
      apply compare_same_trim. reflexivity.
  - rewrite <- E in *.
    assert (HL2 : Forall (Forall plain)
                    (normalize_lines cfg (normalize_lines cfg L)))
      by (now apply normalize_lines_plain_any).
    rewrite (read_written cfg _ HL2).
    destruct (normalize_lines cfg (normalize_lines cfg L)) as [|l1 out1] eqn:E2.
    + exfalso.
      destruct (renormalized_lines cfg L Hs Hd) as [E'|(X & k & k' & _ & E')];
        rewrite E2 in E'.
      * rewrite E in E'. discriminate.
      * now destruct X.
    + rewrite <- E2. apply H.
Qed.

(** The theorem at the defaults, for which the second pass does change
    the number of the stop line. *)
Lemma compare_renormalized_witness :
  compare default_policy
    (normalize_lines default_config
       (normalize_lines default_config [lit "G01 X1"; lit "G02 X2"]))
    (normalize_lines default_config [lit "G01 X1"; lit "G02 X2"]) = None
  /\ normalize_lines default_config
       (normalize_lines default_config [lit "G01 X1"; lit "G02 X2"])
     <> normalize_lines default_config [lit "G01 X1"; lit "G02 X2"].
Proof.
  split; [|discriminate].
  apply (compare_renormalized default_policy default_config
           [lit "G01 X1"; lit "G02 X2"] []); [cbn; lia|cbn; lia|reflexivity].
Defined.

(** X23.  The comparator does not see the line-ending style that the
    normalizer was asked for: the output written with CRLF and the output
    written with LF, for the same input and the same other settings,
    compare without difference under every policy. *)
Theorem compare_blind_to_line_endings (pol : ComparisonPolicy)
    (s d : Z) (p m k : bool) (input : list byte) :
  let cfg b := {| start_n := s; step := d; add_percent := p;
                  ensure_M02 := m; crlf := b; strip_semicolon := k |} in
  compare_files pol (normalize_to_iso (cfg true) input)
                    (normalize_to_iso (cfg false) input) = None.
Proof.
  cbn zeta. unfold compare_files, normalize_to_iso, normalize.
  set (L := splitlines (read_text_latin1 input)).
  rewrite !read_written by (apply normalize_lines_plain_any, read_lines_plain).
  apply compare_same_trim. reflexivity.
Qed.

Lemma settled_begins_N (cfg : NormalizationConfig) (l : str) :
  settled cfg l -> hd_error l = Some (chr "N").
Proof.
  intros H. pose proof (settled_prepared cfg l H) as E.
  destruct H as (_ & Hb & _). rewrite <- E. apply kept_begins_N.
  now rewrite E.
Qed.

Lemma trim_tail_clean (pol : ComparisonPolicy) (lines : list str) :
  Forall (fun l => search_M02 l = false) lines ->
  (if skip_trailing_m02 pol && negb (is_empty lines)
      && search_M02 (last lines [])
   then removelast lines else lines) = lines.
Proof.
  intros HM.
  assert (E2 : skip_trailing_m02 pol && negb (is_empty lines)
               && search_M02 (last lines []) = false).
  { destruct lines as [|l t]; [now rewrite andb_false_r|].
    assert (Hne : l :: t <> []) by discriminate.
    assert (Hin : In (last (l :: t) []) (l :: t)).
    { rewrite (app_removelast_last [] Hne) at 2.
      apply in_or_app. right. now left. }
    rewrite Forall_forall in HM. now rewrite (HM _ Hin), andb_false_r. }
  now rewrite E2.
Qed.

(** X27.  A program that is already clean (every line trimmed, with its
    block number, without [;] when comments are stripped, and without
    [M2] / [M02]) goes through the normalizer as it is: the output is the
    header, the lines of the program, and the stop line when it is
    enforced, which carries the start value.  The comparator with its
    default policy finds no difference between the output and the
    program. *)
Theorem normalize_keeps_clean_program (cfg : NormalizationConfig)
    (lines : list str) :
  Forall (settled cfg) lines ->
  Forall (fun l => search_M02 l = false) lines ->
  normalize_lines cfg lines
  = header_lines cfg ++ lines
    ++ (if ensure_M02 cfg then [numbered (start_n cfg) (lit "M02")] else [])
  /\ compare default_policy (normalize_lines cfg lines) lines = None.
Proof.
  intros Hs Hm.
  assert (HN : Forall (fun l => hd_error l = Some (chr "N")) lines).
  { revert Hs. apply Forall_impl. intros l. apply settled_begins_N. }
  assert (Hh : header cfg lines = (header_lines cfg, lines)).
  { unfold header, header_lines. destruct (add_percent cfg); [|reflexivity].
    destruct HN as [|l t Hl _]; [reflexivity|].
    now rewrite (begins_N_not_percent l Hl). }
  assert (E : normalize_lines cfg lines
              = header_lines cfg ++ lines
                ++ (if ensure_M02 cfg
                    then [numbered (start_n cfg) (lit "M02")] else [])).
  { unfold normalize_lines. rewrite Hh, fold_settled by exact Hs.
    destruct (ensure_M02 cfg).
    - unfold enforce_M02.
      rewrite filter_app, header_lines_no_M02, <- app_assoc. do 2 f_equal.
      apply filter_all. revert Hm. apply Forall_impl. now intros l ->.
    - cbn [fst]. now rewrite List.app_nil_r. }
  split; [exact E|]. apply compare_same_trim.
  assert (Hl : trim default_policy lines = lines).
  { unfold trim.
    assert (E1 : skip_header_percent default_policy && negb (is_empty lines)
                 && str_eqb (strip (hd [] lines)) (lit "%") = false).
    { destruct HN as [|l t Hl _]; [reflexivity|].
      cbn [hd]. now rewrite (begins_N_not_percent l Hl), andb_false_r. }
    rewrite E1. now apply trim_tail_clean. }
  rewrite Hl, E.
  set (tail := if ensure_M02 cfg
               then [numbered (start_n cfg) (lit "M02")] else []).
  assert (Hstage1 :
    (if skip_header_percent default_policy
        && negb (is_empty (header_lines cfg ++ lines ++ tail))
        && str_eqb (strip (hd [] (header_lines cfg ++ lines ++ tail)))
                   (lit "%")
     then tl (header_lines cfg ++ lines ++ tail)
     else header_lines cfg ++ lines ++ tail) = lines ++ tail).
  { unfold header_lines. destruct (add_percent cfg); [reflexivity|].
    cbn [app]. destruct HN as [|l t Hl' _].
    - cbn [app]. subst tail. destruct (ensure_M02 cfg); [|reflexivity].
      cbn [hd is_empty negb].
      rewrite begins_N_not_percent by (now rewrite numbered_unfold).
      now rewrite andb_false_r.
    - cbn [app hd]. now rewrite (begins_N_not_percent l Hl'), andb_false_r. }
  assert (Hstage2 :
    (if skip_trailing_m02 default_policy && negb (is_empty (lines ++ tail))
        && search_M02 (last (lines ++ tail) [])
     then removelast (lines ++ tail) else lines ++ tail) = lines).
  { subst tail. destruct (ensure_M02 cfg).
    - rewrite last_last, stop_line_has_M02, removelast_last.
      now destruct lines.
    - rewrite List.app_nil_r. now apply trim_tail_clean. }
  unfold trim. now rewrite Hstage1, Hstage2.
Qed.

(** The theorem at the default configuration, for a program of two
    numbered lines. *)
Lemma normalize_keeps_clean_program_witness :
  normalize_lines default_config [lit "N5 G01 X1"; lit "N7 G02 X2"]
  = header_lines default_config ++ [lit "N5 G01 X1"; lit "N7 G02 X2"]
    ++ [numbered 10 (lit "M02")]
  /\ compare default_policy
       (normalize_lines default_config [lit "N5 G01 X1"; lit "N7 G02 X2"])
       [lit "N5 G01 X1"; lit "N7 G02 X2"] = None.
Proof.
  apply (normalize_keeps_clean_program default_config
           [lit "N5 G01 X1"; lit "N7 G02 X2"]).
  - repeat constructor; try discriminate; cbn; intros; reflexivity.
  - repeat constructor.
Defined.

(** ** Comparator *)

Lemma str_eqb_sym (a b : str) : str_eqb a b = str_eqb b a.
Proof.
  destruct (str_eqb a b) eqn:E1, (str_eqb b a) eqn:E2; try reflexivity.
  - apply str_eqb_eq in E1. subst b. now rewrite str_eqb_refl in E2.
  - apply str_eqb_eq in E2. subst b. now rewrite str_eqb_refl in E1.
Qed.

Lemma compare_loop_sym (la lb : list str) (i todo : nat) :
  compare_loop lb la i todo
  = option_map (fun d => {| first_diff_line := first_diff_line d;
                            a_line := b_line d; b_line := a_line d |})
               (compare_loop la lb i todo).
Proof.
  revert i. induction todo as [|todo IH]; intros i; [reflexivity|].
  cbn [compare_loop].
  rewrite (str_eqb_sym (collapse_ws (line_at lb i))).
  destruct (str_eqb (collapse_ws (line_at la i)) (collapse_ws (line_at lb i)));
    cbn [negb]; [apply IH|reflexivity].
Qed.

(** X24.  Comparing in the other order gives the same answer with the two
    lines exchanged: the same first differing line, or none. *)
Theorem compare_symmetric (pol : ComparisonPolicy) (la lb : list str)
    (a b : list byte) :
  let swap d := {| first_diff_line := first_diff_line d;
                   a_line := b_line d; b_line := a_line d |} in
  compare pol lb la = option_map swap (compare pol la lb)
  /\ compare_files pol b a = option_map swap (compare_files pol a b).
Proof.
  cbn zeta.
  assert (H : forall x y,
            compare pol y x
            = option_map (fun d => {| first_diff_line := first_diff_line d;
                                      a_line := b_line d;
                                      b_line := a_line d |})
                         (compare pol x y)).
  { intros x y. unfold compare. rewrite Nat.max_comm.
    apply compare_loop_sym. }
  split; [apply H|apply H].
Qed.

Lemma compare_loop_some (la lb : list str) (todo i : nat) (d : difference) :
  compare_loop la lb i todo = Some d ->
  exists k, (i <= k < i + todo)%nat
    /\ first_diff_line d = S k
    /\ a_line d = line_at la k /\ b_line d = line_at lb k
    /\ collapse_ws (line_at la k) <> collapse_ws (line_at lb k)
    /\ forall j, (i <= j < k)%nat ->
         collapse_ws (line_at la j) = collapse_ws (line_at lb j).
Proof.
  revert i. induction todo as [|todo IH]; intros i; cbn [compare_loop];
    [discriminate|].
  destruct (str_eqb (collapse_ws (line_at la i)) (collapse_ws (line_at lb i)))
    eqn:E; cbn [negb].
  - apply str_eqb_eq in E. intros H. apply IH in H.
    destruct H as (k & Hk & H1 & H2 & H3 & H4 & H5). exists k.
    split; [lia|]. repeat (split; [assumption|]).
    intros j Hj. destruct (Nat.eq_dec j i) as [->|Hn]; [exact E|].
    apply H5. lia.
  - intros H. injection H as <-. exists i. cbn.
    split; [lia|]. split; [lia|]. split; [reflexivity|].
    split; [reflexivity|]. split.
    + intros E'. rewrite E', str_eqb_refl in E. discriminate.
    + intros j Hj. lia.
Qed.

(** X25.  What the comparator reports.  It reports no difference exactly
    when, after the skipped header and stop line are put aside, the two
    sequences agree at every position up to the longer one, a line being
    read without its outer white space and with every run of white space
    as one space, and a missing line as [<EOF>].  A reported difference
    is the first such position, counted from 1 in the sequences as
    trimmed, with the two lines as read there. *)
Theorem compare_first_difference (pol : ComparisonPolicy) (la lb : list str) :
  let ta := trim pol la in
  let tb := trim pol lb in
  let len := Nat.max (List.length ta) (List.length tb) in
  (compare pol la lb = None <->
   forall j, (j < len)%nat ->
     collapse_ws (line_at ta j) = collapse_ws (line_at tb j))
  /\ (forall d, compare pol la lb = Some d ->
      exists k, (k < len)%nat
        /\ first_diff_line d = S k
        /\ a_line d = line_at ta k /\ b_line d = line_at tb k
        /\ collapse_ws (a_line d) <> collapse_ws (b_line d)
        /\ (a_line d <> EOF \/ b_line d <> EOF)
        /\ forall j, (j < k)%nat ->
             collapse_ws (line_at ta j) = collapse_ws (line_at tb j)).
Proof.
  cbn zeta. unfold compare. split.
  - rewrite compare_loop_none. split; intros H j Hj; apply H; lia.
  - intros d H. apply compare_loop_some in H.
    destruct H as (k & Hk & H1 & H2 & H3 & H4 & H5). exists k.
    split; [lia|]. split; [exact H1|]. split; [exact H2|].
    split; [exact H3|]. rewrite H2, H3. split; [exact H4|]. split.
    + destruct (list_eq_dec N.eq_dec (line_at (trim pol la) k) EOF)
        as [Ea|Ea]; [|now left].
      right. intros Eb. apply H4. now rewrite Ea, Eb.
    + intros j Hj. apply H5. lia.
Qed.

(** X26.  What the comparator puts aside.  Trimming takes away at most
    the first line, when the policy skips the header and the line is [%]
    once trimmed, and then at most the last line of what is left, when
    the policy skips the stop line and that line holds [M2] or [M02]; no
    other line is removed, and with both settings off nothing is. *)
Theorem trim_spec (pol : ComparisonPolicy) (lines : list str) :
  (exists h t,
     lines = h ++ trim pol lines ++ t
     /\ (h = [] \/ (skip_header_percent pol = true
                    /\ exists l, h = [l] /\ strip l = lit "%"))
     /\ (t = [] \/ (skip_trailing_m02 pol = true
                    /\ exists l, t = [l] /\ search_M02 l = true)))
  /\ (skip_header_percent pol = false -> skip_trailing_m02 pol = false ->
      trim pol lines = lines).
Proof.
  split.
  - unfold trim.
    assert (Hh : exists h rest,
              lines = h ++ rest
              /\ (if skip_header_percent pol && negb (is_empty lines)
                     && str_eqb (strip (hd [] lines)) (lit "%")
                  then tl lines else lines) = rest
              /\ (h = [] \/ (skip_header_percent pol = true
                             /\ exists l, h = [l] /\ strip l = lit "%"))).
    { destruct (skip_header_percent pol && negb (is_empty lines)
                && str_eqb (strip (hd [] lines)) (lit "%")) eqn:E.
      - apply andb_true_iff in E. destruct E as (E & E3).
        apply andb_true_iff in E. destruct E as (E1 & E2).
        destruct lines as [|l rest]; [discriminate|].
        exists [l], rest. split; [reflexivity|]. split; [reflexivity|].
        right. split; [exact E1|]. exists l. split; [reflexivity|].
        now apply str_eqb_eq.
      - exists [], lines. split; [reflexivity|]. split; [reflexivity|].
        now left. }
    destruct Hh as (h & rest & El & -> & Hhead).
    exists h.
    destruct (skip_trailing_m02 pol && negb (is_empty rest)
              && search_M02 (last rest [])) eqn:E.
    + apply andb_true_iff in E. destruct E as (E & E3).
      apply andb_true_iff in E. destruct E as (E1 & E2).
      assert (Hne : rest <> []) by (now destruct rest).
      exists [last rest []]. split.
      * rewrite El. f_equal. now apply app_removelast_last.
      * split; [exact Hhead|]. right. split; [exact E1|].
        exists (last rest []). now split.
    + exists []. rewrite List.app_nil_r. split; [exact El|].
      split; [exact Hhead|now left].
  - intros H1 H2. unfold trim. now rewrite H1, H2.
Qed.

(** ** The same file read by the analyzer and by the normalizer *)

(** [str.splitlines] gives the same lines before and after the newline
    translation of text mode. *)
Lemma splitlines_from_universal (n : nat) (s cur : str) (open : bool) :
  (List.length s <= n)%nat ->
  splitlines_from cur open (universal_newlines s) = splitlines_from cur open s.
Proof.
  revert s cur open. induction n as [|n IH]; intros s cur open Hn.
  - destruct s; [reflexivity|cbn in Hn; lia].
  - destruct s as [|c t]; [reflexivity|]. cbn [List.length] in Hn.
    cbn [universal_newlines splitlines_from].
    destruct (c =? 0x0D) eqn:Ec.
    + destruct t as [|c' t']; [reflexivity|]. cbn [List.length] in Hn.
      destruct (c' =? 0x0A); cbn [splitlines_from];
        change (0x0A =? 0x0D) with false;
        change (is_linebreak 0x0A) with true; cbv iota;
        f_equal; apply IH; cbn [List.length]; lia.
    + cbn [splitlines_from]. rewrite Ec.
      destruct (is_linebreak c); [f_equal|]; apply IH; lia.
Qed.

Lemma splitlines_universal (s : str) :
  splitlines (universal_newlines s) = splitlines s.
Proof. apply (splitlines_from_universal (List.length s)). lia. Qed.

(** A change of characters that keeps the line breaks goes through
    [str.splitlines]. *)
Lemma splitlines_from_map (f : char -> char) (n : nat) (s cur : str)
    (open : bool) :
  (List.length s <= n)%nat ->
  Forall (fun c => (f c =? 0x0D) = (c =? 0x0D)
                   /\ (f c =? 0x0A) = (c =? 0x0A)
                   /\ is_linebreak (f c) = is_linebreak c) s ->
  splitlines_from (map f cur) open (map f s)
  = map (map f) (splitlines_from cur open s).
Proof.
  revert s cur open. induction n as [|n IH]; intros s cur open Hn Hs.
  - destruct s; [|cbn in Hn; lia]. cbn. destruct open; [|reflexivity].
    cbn [map]. now rewrite map_rev.
  - destruct s as [|c t].
    + cbn. destruct open; [|reflexivity]. cbn [map]. now rewrite map_rev.
    + inversion Hs as [|? ? (H1 & H2 & H3) Ht]; subst.
      cbn [List.length] in Hn. cbn [map splitlines_from]. rewrite H1.
      destruct (c =? 0x0D).
      * destruct t as [|c' t'].
        -- cbn [map splitlines_from]. now rewrite map_rev.
        -- inversion Ht as [|? ? (H1' & H2' & H3') Ht']; subst.
           cbn [List.length] in Hn. cbn [map]. rewrite H2'.
           destruct (c' =? 0x0A); cbn [map]; rewrite map_rev; f_equal.
           ++ apply (IH t' [] false); [lia|exact Ht'].
           ++ apply (IH (c' :: t') [] false); [cbn [List.length]; lia|exact Ht].
      * rewrite H3. destruct (is_linebreak c).
        -- cbn [map]. rewrite map_rev. f_equal.
           apply (IH t [] false); [lia|exact Ht].
        -- apply (IH t (c :: cur) true); [lia|exact Ht].
Qed.

Lemma replace_keeps_breaks (b : byte) :
  b <> x85 ->
  let c := Byte.to_N b in
  let c' := if c <=? 127 then c else REPLACEMENT in
  (c' =? 0x0D) = (c =? 0x0D) /\ (c' =? 0x0A) = (c =? 0x0A)
  /\ is_linebreak c' = is_linebreak c.
Proof.
  intros Hb. destruct b; try congruence; vm_compute; repeat split.
Qed.

(** X28.  The analyzer and the normalizer see the same lines.  For a
    file without the byte 0x85 (NEL in latin-1, a line break for
    [str.splitlines]), the lines that the analyzer reads are those that
    the normalizer and the comparator read, with every character above
    127 replaced by U+FFFD; in particular the line counts agree. *)
Theorem analyzer_reads_same_lines (data : list byte) :
  Forall (fun b => b <> x85) data ->
  splitlines (safe_decode data)
  = map (map (fun c => if c <=? 127 then c else REPLACEMENT))
        (splitlines (read_text_latin1 data))
  /\ total_lines (text (analyze_file data))
     = List.length (splitlines (read_text_latin1 data)).
Proof.
  intros H.
  assert (E : splitlines (safe_decode data)
              = map (map (fun c => if c <=? 127 then c else REPLACEMENT))
                    (splitlines (read_text_latin1 data))).
  { unfold read_text_latin1. rewrite splitlines_universal.
    rewrite safe_decode_replace. unfold decode_ascii_replace, decode_latin1.
    rewrite <- (map_map Byte.to_N
                  (fun c => if c <=? 127 then c else REPLACEMENT)).
    unfold splitlines.
    apply (splitlines_from_map
             (fun c => if c <=? 127 then c else REPLACEMENT)
             (List.length (map Byte.to_N data)) (map Byte.to_N data) []
             false (Nat.le_refl _)).
    apply Forall_forall. intros c Hc. apply in_map_iff in Hc.
    destruct Hc as (b & <- & Hb). rewrite Forall_forall in H.
    apply (replace_keeps_breaks b (H b Hb)). }
  split; [exact E|].
  unfold analyze_file. destruct (detect_eol_stats data) as [[c l] r].
  cbn [text total_lines analyze_text_lines]. now rewrite E, length_map.
Qed.

(** The theorem for a file of two lines with one byte above 127. *)
Lemma analyzer_reads_same_lines_witness :
  splitlines (safe_decode (blit "G01" ++ [x0d; x0a; xe9; x0a]))
  = map (map (fun c => if c <=? 127 then c else REPLACEMENT))
        (splitlines (read_text_latin1 (blit "G01" ++ [x0d; x0a; xe9; x0a])))
  /\ total_lines (text (analyze_file (blit "G01" ++ [x0d; x0a; xe9; x0a])))
     = List.length
         (splitlines (read_text_latin1 (blit "G01" ++ [x0d; x0a; xe9; x0a]))).
Proof.
  apply analyzer_reads_same_lines. repeat constructor; discriminate.
Defined.

Lemma str_of_int_chars (n : Z) :
  Forall (fun c => is_digit c = true \/ c = chr "-") (str_of_int n).
Proof.
  assert (Hd : forall s, forallb is_digit s = true ->
            Forall (fun c => is_digit c = true \/ c = chr "-") s).
  { intros s H. apply Forall_forall. intros c Hc. left.
    rewrite forallb_forall in H. now apply H. }
  destruct n as [|p|p].
  - now apply Hd.
  - apply Hd. apply str_of_int_nonneg. lia.
  - unfold str_of_int.
    cbn [Z.to_int DecimalString.NilZero.string_of_int].
    rewrite lit_cons. constructor; [now right|].
    apply Hd. unfold DecimalString.NilZero.string_of_uint.
    destruct (Pos.to_uint p) eqn:E; [reflexivity|..];
      rewrite <- E; apply uint_digits.
Qed.

(** The characters of the output are characters of the input, digits,
    and the characters that the normalizer writes itself. *)
Lemma normalize_lines_chars (P : char -> Prop) (cfg : NormalizationConfig)
    (lines : list str) :
  (forall c, is_digit c = true -> P c) ->
  Forall P (lit "N- %M") ->
  Forall (Forall P) lines ->
  Forall (Forall P) (normalize_lines cfg lines).
Proof.
  intros Hdig Hown Hl.
  assert (HN : P (chr "N")) by (rewrite Forall_forall in Hown; apply Hown;
                                cbn; tauto).
  assert (Hm : P (chr "-")) by (rewrite Forall_forall in Hown; apply Hown;
                                cbn; tauto).
  assert (Hsp : P (chr " ")) by (rewrite Forall_forall in Hown; apply Hown;
                                 cbn; tauto).
  assert (Hpc : P (chr "%")) by (rewrite Forall_forall in Hown; apply Hown;
                                 cbn; tauto).
  assert (HM : P (chr "M")) by (rewrite Forall_forall in Hown; apply Hown;
                                cbn; tauto).
  assert (Hnum : forall n s, Forall P s -> Forall P (numbered n s)).
  { intros n s Hs. rewrite numbered_unfold. constructor; [exact HN|].
    apply Forall_app. split; [|now constructor].
    pose proof (str_of_int_chars n) as Hc. revert Hc. apply Forall_impl.
    intros c [Hc| ->]; [now apply Hdig|exact Hm]. }
  destruct (numbering_loop_tagged_spec cfg lines) as (body & Hloop & _ & Hbody).
  assert (Hb : Forall (Forall P) (map snd body)).
  { apply Forall_forall. intros l Hin. apply in_map_iff in Hin.
    destruct Hin as ([o l'] & E & Hin). cbn in E. subst l'.
    rewrite Forall_forall in Hbody, Hl.
    destruct (Hbody _ Hin) as [(_ & _ & ln & Hln & El)|(m & ln & Hln & _ & _ & E)].
    - cbn [snd] in El. rewrite El. apply Forall_prepared. now apply Hl.
    - inversion E; subst o l. apply Hnum.
      apply Forall_collapse_ws; [exact Hsp|].
      apply Forall_prepared. now apply Hl. }
  rewrite normalize_lines_loop, numbering_loop_erasure, Hloop.
  cbn [fst snd]. rewrite map_app, map_snd_untagged.
  assert (Hall : Forall (Forall P) (header_lines cfg ++ map snd body)).
  { apply Forall_app. split; [|exact Hb]. unfold header_lines.
    destruct (add_percent cfg); repeat constructor. exact Hpc. }
  destruct (ensure_M02 cfg); [|exact Hall].
  unfold enforce_M02. apply Forall_app. split.
  - rewrite Forall_forall in *. intros l Hin. apply filter_In in Hin.
    now apply Hall.
  - constructor; [|constructor]. apply Hnum.
    repeat constructor; [exact HM|apply Hdig; reflexivity
                        |apply Hdig; reflexivity].
Qed.

Lemma Forall_join (P : char -> Prop) (sep : str) (lines : list str) :
  Forall P sep -> Forall (Forall P) lines -> Forall P (join sep lines).
Proof.
  intros Hsep. induction 1 as [|l t Hl Ht IH]; [constructor|].
  cbn [join]. destruct t as [|l' t']; [exact Hl|].
  apply Forall_app. split; [exact Hl|]. apply Forall_app. now split.
Qed.

Lemma encode_latin1_ascii (s : str) :
  Forall (fun c => c <= 127) s ->
  Forall (fun b => Byte.to_N b <= 127) (encode_latin1 s).
Proof.
  induction 1 as [|c t Hc Ht IH]; [constructor|]. cbn [encode_latin1].
  destruct (Byte.of_N c) as [b|] eqn:E; [|exact IH].
  constructor; [|exact IH]. apply Byte.to_of_N in E. now rewrite E.
Qed.

Lemma ascii_no_positions (data : list byte) (i : nat) :
  Forall (fun b => Byte.to_N b <= 127) data ->
  non_ascii_positions_from i data = [].
Proof.
  intros H. revert i. induction H as [|b t Hb Ht IH]; intros i; [reflexivity|].
  cbn [non_ascii_positions_from].
  destruct (N.ltb_spec 127 (Byte.to_N b)); [lia|apply IH].
Qed.

(** X29.  Normalizing and then analyzing a file of bytes up to 127.  The
    output holds no byte above 127, the analyzer decodes it as the text
    that the normalizer serialised, and the text report is the report of
    the lines that the normalizer emitted (when it emitted any). *)
Theorem analyze_normalized_file (cfg : NormalizationConfig)
    (input : list byte) :
  Forall (fun b => Byte.to_N b <= 127) input ->
  let out := normalize_to_iso cfg input in
  let out_lines := normalize_lines cfg (splitlines (read_text_latin1 input)) in
  Forall (fun b => Byte.to_N b <= 127) out
  /\ non_ascii_count (analyze_file out) = 0%nat
  /\ safe_decode out = serialize cfg out_lines
  /\ (out_lines <> [] ->
      text (analyze_file out) = analyze_text_lines out_lines).
Proof.
  intros Hin. cbn zeta.
  set (L := splitlines (read_text_latin1 input)).
  assert (HL : Forall (Forall (fun c => c <= 127)) L).
  { subst L. unfold read_text_latin1. rewrite splitlines_universal.
    pose proof (splitlines_from_unbroken (fun c => c <= 127)
                  (List.length (decode_latin1 input)) (decode_latin1 input)
                  [] false (Nat.le_refl _)) as H.
    assert (Hd : Forall (fun c => c <= 127) (decode_latin1 input)).
    { unfold decode_latin1. apply Forall_forall. intros c Hc.
      apply in_map_iff in Hc. destruct Hc as (b & <- & Hb).
      rewrite Forall_forall in Hin. now apply Hin. }
    specialize (H Hd (Forall_nil _)). revert H. apply Forall_impl.
    intros l. apply Forall_impl. tauto. }
  assert (Ho : Forall (Forall (fun c => c <= 127)) (normalize_lines cfg L)).
  { apply normalize_lines_chars; [| |exact HL].
    - intros c Hc. unfold is_digit, in_range in Hc.
      apply andb_true_iff in Hc. destruct Hc as (_ & Hc).
      apply N.leb_le in Hc. lia.
    - repeat constructor; cbn; lia. }
  assert (Hp : Forall (Forall plain) (normalize_lines cfg L))
    by (apply normalize_lines_plain_any, read_lines_plain).
  assert (Hs : Forall (fun c => c <= 127) (serialize cfg (normalize_lines cfg L))).
  { assert (He : Forall (fun c => c <= 127) (eol_of cfg))
      by (unfold eol_of; destruct (crlf cfg); repeat constructor; cbn; lia).
    unfold serialize. apply Forall_app. split; [|exact He].
    now apply Forall_join. }
  assert (Hout : Forall (fun b => Byte.to_N b <= 127) (normalize_to_iso cfg input))
    by (now apply encode_latin1_ascii).
  assert (Hdec : safe_decode (normalize_to_iso cfg input)
                 = serialize cfg (normalize_lines cfg L)).
  { unfold safe_decode. apply decode_ascii_all in Hout. rewrite Hout.
    unfold normalize_to_iso, normalize, write_lines. fold L.
    apply decode_encode_latin1. revert Hs. apply Forall_impl. intros c. lia. }
  split; [exact Hout|]. split; [|split; [exact Hdec|]].
  - unfold analyze_file.
    destruct (detect_eol_stats (normalize_to_iso cfg input)) as [[c l] r].
    cbn [non_ascii_count]. unfold non_ascii_positions.
    now rewrite ascii_no_positions.
  - intros Hne. unfold analyze_file.
    destruct (detect_eol_stats (normalize_to_iso cfg input)) as [[c l] r].
    cbn [text]. f_equal. rewrite Hdec.
    rewrite <- splitlines_universal.
    pose proof (read_written cfg (normalize_lines cfg L) Hp) as Hr.
    unfold read_text_latin1, write_lines in Hr.
    rewrite decode_encode_latin1 in Hr
      by (revert Hs; apply Forall_impl; intros ch; lia).
    rewrite Hr. now destruct (normalize_lines cfg L).
Qed.

(** The theorem at the default configuration, for a file of two lines. *)
Lemma analyze_normalized_file_witness :
  non_ascii_count
    (analyze_file
       (normalize_to_iso default_config
          (blit "G01 X1" ++ [x0a] ++ blit "G02 X2" ++ [x0a]))) = 0%nat.
Proof.
  apply (analyze_normalized_file default_config
           (blit "G01 X1" ++ [x0a] ++ blit "G02 X2" ++ [x0a])).
  repeat constructor; cbn; lia.
Defined.
